(** * Forecast / intraday-auction comparison: the matching and merging pipeline

    A shallow embedding of the parts of the repository that align day-ahead
    price forecasts with intraday auction results:

    - [utils/auction_related_functions.py]  ([read_single_auction_file])
    - [utils/small_methods.py]              ([check_unique_time_ptime_combinations],
                                             [compute_forecast_metrics])
    - [utils/read_forecast_data.py]         ([read_forecast_df])
    - [utils/match_auction_forecast.py]     ([match_auction_with_forecast],
                                             [merge_forecast_and_auction_dataframes])

    and, around them, the catalog of auction files, the helpers it calls and
    the function that runs the whole comparison:

    - [utils/auction_related_functions.py]  ([read_auction_files])
    - [from_nico_utils/recursive_search.py] ([recursive_search], [search_files])
    - [from_nico_utils/regex_find_pattern.py] ([regex_find_pattern],
                                             [date_formats2pattern],
                                             [datetime_from_string])
    - [utils/small_methods.py]              ([make_df_more_readable])
    - [compare_forecasts_and_auction_prices.py] ([compute_performance_score])

    Polars data frames are modelled row-wise as lists of records.  A
    [pl.Datetime] is its integer number of microseconds since the epoch, a
    [pl.Date] its number of days since the epoch.  [Float64] prices are
    idealised as exact rationals ([Qc]); only the square root of the RMSE
    lives in [R].  A nullable column is a column of [option].  The type of
    a column is kept where the code depends on it: in the vertical
    concatenation of the merger, which a [Null] column followed by a
    [Float64] column stops, and in the loader's comparison of every column
    with the text [NA], which a number column stops. *)

From Stdlib Require Import ZArith List Bool Lia String Ascii QArith Qcanon.
From Stdlib Require Import Permutation Sorted Reals Qreals Lra.
Import ListNotations.
Open Scope Z_scope.

(** ** Timestamps and dates *)

Module Temporal.

Definition Datetime := Z.
Definition Date := Z.

Definition us_per_minute : Z := 60000000.
Definition us_per_hour : Z := 60 * us_per_minute.
Definition us_per_day : Z := 24 * us_per_hour.

(** [pl.col(c).dt.date()] and [pl.col(c).dt.hour()]. *)
Definition dt_date (t : Datetime) : Date := t / us_per_day.
Definition dt_hour (t : Datetime) : Z := (t mod us_per_day) / us_per_hour.

(** [pl.datetime(date.year, date.month, date.day, hour, minute, 0)]. *)
Definition datetime (d : Date) (hour minute : Z) : Datetime :=
  d * us_per_day + hour * us_per_hour + minute * us_per_minute.

(** [pl.duration(minutes=n)]. *)
Definition duration_minutes (n : Z) : Z := n * us_per_minute.

(** [date - timedelta(days=n)]. *)
Definition minus_days (d : Date) (n : Z) : Date := d - n.

(** A timestamp with minutes, seconds and microseconds all zero. *)
Definition on_the_hour (t : Datetime) : Prop := t mod us_per_hour = 0.

(** The timestamp lies in hour [hour] of day [date]. *)
Definition in_hour (date : Date) (hour : Z) (t : Datetime) : bool :=
  (dt_date t =? date) && (dt_hour t =? hour).

End Temporal.
Import Temporal.

(** ** Data-frame primitives *)

Module Frame.

Section SortBy.
Context {A : Type} (key : A -> Z).

(** [df.sort(col, descending=False)].  Polars leaves the relative order
    of rows with equal keys unspecified; the model keeps them in their
    incoming order. *)
Fixpoint insert_sorted (x : A) (l : list A) : list A :=
  match l with
  | [] => [x]
  | y :: t => if key x <=? key y then x :: y :: t else y :: insert_sorted x t
  end.

Fixpoint sort_by (l : list A) : list A :=
  match l with
  | [] => []
  | x :: t => insert_sorted x (sort_by t)
  end.

(** [pl.col(c) == pl.lit(v)] used as a filter. *)
Definition filter_eq (v : Z) (l : list A) : list A :=
  filter (fun a => key a =? v) l.

(** [df[c].min()] and [df[c].max()]; null on an empty column. *)
Definition col_min (l : list A) : option Z :=
  match l with
  | [] => None
  | x :: t => Some (fold_left (fun m a => Z.min m (key a)) t (key x))
  end.

Definition col_max (l : list A) : option Z :=
  match l with
  | [] => None
  | x :: t => Some (fold_left (fun m a => Z.max m (key a)) t (key x))
  end.

(** Ascending order of the key, as a relation on rows. *)
Definition key_le (a b : A) : Prop := key a <= key b.
End SortBy.

(** [df[c].unique()]: the distinct values.  Polars documents no order
    for them; on a column that is not known to be sorted it sorts the
    values before it drops the repetitions, so they come in ascending
    order, and the model yields them so. *)
Definition unique (l : list Z) : list Z := sort_by (fun v => v) (nodup Z.eq_dec l).

(** Comparison of a column with a possibly-null literal: null compares
    as null, which a filter treats as false. *)
Definition ge_lit (x : Z) (v : option Z) : bool :=
  match v with Some b => b <=? x | None => false end.
Definition le_lit (x : Z) (v : option Z) : bool :=
  match v with Some b => x <=? b | None => false end.

(** An integer price. *)
Definition Qc_of_Z (z : Z) : Qc := Q2Qc (inject_Z z).

(** [Series.mean()] of a column without nulls; null when it is empty. *)
Definition sum_Qc (l : list Qc) : Qc := fold_right Qcplus (Q2Qc 0) l.
Definition mean (l : list Qc) : option Qc :=
  match l with
  | [] => None
  | _ => Some (sum_Qc l / Q2Qc (inject_Z (Z.of_nat (List.length l))))%Qc
  end.

End Frame.
Import Frame.

(** ** Regions and auction groups *)

Inductive Region := DK1 | DK2.
Inductive IDAGroup := IDA1 | IDA2 | IDA3.

Definition Region_eqb (a b : Region) : bool :=
  match a, b with DK1, DK1 | DK2, DK2 => true | _, _ => false end.

Definition IDAGroup_eqb (a b : IDAGroup) : bool :=
  match a, b with IDA1, IDA1 | IDA2, IDA2 | IDA3, IDA3 => true | _, _ => false end.

(** ** Single-auction reader ([utils/auction_related_functions.py]) *)

Module Auction.

(** One row of the spreadsheet as [pl.read_excel] returns it: the unnamed
    index column, the quarter label ([Type]) and the price ([Schedule]). *)
Record ExcelRow := {
  Unnamed_0 : option Z;
  Type_ : option string;
  Schedule : option Qc
}.

(** A row after [drop_nulls], dropping the unnamed column, the renaming
    and the assignment of [Start_Time]. *)
Record QuarterRow := {
  Quater_Time : string;
  Area_Price : Qc;
  q_Start_Time : Datetime
}.

(** A row of the hourly result; the price column is named
    [Auction_Price_<region>] (the name is kept in [HourlyFrame]). *)
Record HourlyRow := {
  Start_Time : Datetime;
  Area_Price_Hour : Qc
}.

Record HourlyFrame := {
  price_column : Region;
  hourly_rows : list HourlyRow
}.

(** [auction_df.drop_nulls()] followed by the column drop and renaming:
    a row survives when none of its cells is null. *)
Definition drop_nulls (rows : list ExcelRow) : list (string * Qc) :=
  flat_map (fun r =>
    match Unnamed_0 r, Type_ r, Schedule r with
    | Some _, Some q, Some p => [(q, p)]
    | _, _, _ => []
    end) rows.

Definition start_hour (g : IDAGroup) : Z :=
  match g with IDA3 => 12 | _ => 0 end.

(** [pl.datetime(...) + pl.arange(0, height) * pl.duration(minutes=15)]. *)
Definition with_start_time (g : IDAGroup) (date : Date)
    (rows : list (string * Qc)) : list QuarterRow :=
  map (fun ir : nat * (string * Qc) =>
         {| Quater_Time := fst (snd ir);
            Area_Price := snd (snd ir);
            q_Start_Time := datetime date (start_hour g) 0
                            + Z.of_nat (fst ir) * duration_minutes 15 |})
      (combine (seq 0 (List.length rows)) rows).

(** The grouping key [(Date, Hour)] of a quarter row. *)
Definition bucket_key (t : Datetime) : Z * Z := (dt_date t, dt_hour t).

Definition key_eq_dec (a b : Z * Z) : {a = b} + {a <> b}.
Proof. decide equality; apply Z.eq_dec. Defined.

Definition in_bucket (k : Z * Z) (r : QuarterRow) : bool :=
  if key_eq_dec (bucket_key (q_Start_Time r)) k then true else false.

(** The rows of one [(Date, Hour)] key, in frame order, and the distinct
    keys of a frame. *)
Definition bucket (rows : list QuarterRow) (k : Z * Z) : list QuarterRow :=
  filter (in_bucket k) rows.

Definition bucket_keys (rows : list QuarterRow) : list (Z * Z) :=
  nodup key_eq_dec (map (fun r => bucket_key (q_Start_Time r)) rows).

(** [group_by(["Date", "Hour"])]: one group per distinct key. *)
Definition group_by_date_hour (rows : list QuarterRow)
    : list (Z * Z * list QuarterRow) :=
  map (fun k => (k, bucket rows k)) (bucket_keys rows).

(** [.agg([mean(Area_Price), min(Start_Time)])] on one group.  Both
    aggregates are null only on an empty group, which [group_by] never
    produces. *)
Definition agg (g : list QuarterRow) : list HourlyRow :=
  match mean (map Area_Price g), col_min q_Start_Time g with
  | Some p, Some t => [{| Start_Time := t; Area_Price_Hour := p |}]
  | _, _ => []
  end.

(** The quarter-hour frame of a file, before the aggregation. *)
Definition quarter_rows (read_excel : string -> list ExcelRow)
    (auction_filepath : string) (IDA_group : IDAGroup) (date : Date)
    : list QuarterRow :=
  with_start_time IDA_group date (drop_nulls (read_excel auction_filepath)).

Definition read_single_auction_file
    (read_excel : string -> list ExcelRow)
    (auction_filepath : string) (IDA_group : IDAGroup) (date : Date)
    (region : Region) : HourlyFrame :=
  let auction_df := quarter_rows read_excel auction_filepath IDA_group date in
  let hourly_averages_df :=
    flat_map (fun kg => agg (snd kg)) (group_by_date_hour auction_df) in
  {| price_column := region;
     hourly_rows := sort_by Start_Time hourly_averages_df |}.

(** *** Notions used to state the properties of the reader *)

(** The number of whole hours since the epoch. *)
Definition hour_index (t : Datetime) : Z := t / us_per_hour.

(** The quarter row built from the [i]-th surviving spreadsheet row. *)
Definition row_at (g : IDAGroup) (date : Date) (i : nat) (qp : string * Qc)
    : QuarterRow :=
  {| Quater_Time := fst qp;
     Area_Price := snd qp;
     q_Start_Time := datetime date (start_hour g) 0
                     + Z.of_nat i * duration_minutes 15 |}.

(** [with_start_time] with the row counter starting at [first]. *)
Definition timed_from (g : IDAGroup) (date : Date) (first : nat)
    (rows : list (string * Qc)) : list QuarterRow :=
  map (fun ir : nat * (string * Qc) => row_at g date (fst ir) (snd ir))
      (combine (seq first (List.length rows)) rows).

End Auction.

(** ** Forecast loader ([utils/read_forecast_data.py], [utils/small_methods.py]) *)

Module Forecast.

(** A cleaned forecast record. *)
Record ForecastRow := {
  PTime : Datetime;
  Time : Datetime;
  DK1_forecast_price : Qc;
  DK2_forecast_price : Qc
}.

(** The key the validation looks at. *)
Definition time_ptime (r : ForecastRow) : Z * Z := (Time r, PTime r).

Definition pair_eq_dec (a b : Z * Z) : {a = b} + {a <> b}.
Proof. decide equality; apply Z.eq_dec. Defined.

Definition check_unique_time_ptime_combinations (df : list ForecastRow) : bool :=
  let unique_combinations_count :=
    List.length (nodup pair_eq_dec (map time_ptime df)) in
  let total_rows := List.length df in
  Nat.eqb unique_combinations_count total_rows.

(** A line of the forecast CSV file; an empty cell is null. *)
Record CsvRow := {
  csv_PTime : option string;
  csv_Time : option string;
  cor_pe_RegPrice_DK1 : option string;
  cor_pe_RegPrice_DK2 : option string
}.

(** What [pl.read_csv] makes of the file: its lines, and the names of the
    columns it did not read as text.  A column is read as text when some
    cell of it is no number, as the date columns are and as a price column
    with a cell [NA] is; a column of numbers is typed [i64] or [f64]. *)
Record CsvFrame := {
  non_text_columns : list string;
  csv_lines : list CsvRow
}.

(** The errors of the loader: the two of lines 32-35, the comparison of a
    number column with the text [NA] at line 40, a cell that does not
    convert, and the failed validation. *)
Inductive ForecastError :=
| PathIsNone
| FileNotFound (path : string)
| ComputeError
| ParseFailure
| NotUnique.

Section Loader.
(** The file system and the two library conversions the loader calls:
    [os.path.isfile], [pl.read_csv], [str.strptime] with the format
    [%Y-%m-%d %H:%M:%S] and the cast to [Float64]. *)
Variable isfile : string -> bool.
Variable read_csv : string -> CsvFrame.
Variable strptime : string -> option Datetime.
Variable cast_float : string -> option Qc.

Definition cells (r : CsvRow) : list (option string) :=
  [csv_PTime r; csv_Time r; cor_pe_RegPrice_DK1 r; cor_pe_RegPrice_DK2 r].

Definition is_null (c : option string) : bool :=
  match c with None => true | Some _ => false end.

Definition is_NA (c : option string) : bool :=
  match c with Some s => String.eqb s "NA" | None => false end.

(** [drop_nulls()] then [filter(~any_horizontal(col("*") == "NA"))]:
    every column is compared with the text [NA], which raises as soon as
    one column is not a text column. *)
Definition clean (forecast_df : CsvFrame) : ForecastError + list CsvRow :=
  let rows := filter (fun r => negb (existsb is_null (cells r)))
                     (csv_lines forecast_df) in
  match non_text_columns forecast_df with
  | [] => inr (filter (fun r => negb (existsb is_NA (cells r))) rows)
  | _ :: _ => inl ComputeError
  end.

(** The renaming and the four conversions; a cell that does not
    convert makes the strict conversion raise. *)
Definition convert (r : CsvRow) : option ForecastRow :=
  match csv_PTime r, csv_Time r, cor_pe_RegPrice_DK1 r, cor_pe_RegPrice_DK2 r with
  | Some p, Some t, Some a, Some b =>
      match strptime p, strptime t, cast_float a, cast_float b with
      | Some p', Some t', Some a', Some b' =>
          Some {| PTime := p'; Time := t';
                  DK1_forecast_price := a'; DK2_forecast_price := b' |}
      | _, _, _, _ => None
      end
  | _, _, _, _ => None
  end.

Fixpoint convert_all (rows : list CsvRow) : option (list ForecastRow) :=
  match rows with
  | [] => Some []
  | r :: t =>
      match convert r, convert_all t with
      | Some r', Some t' => Some (r' :: t')
      | _, _ => None
      end
  end.

Definition read_forecast_df (forecast_path : option string)
    (assure_unique_time_ptime_combinations : bool)
    : ForecastError + list ForecastRow :=
  match forecast_path with
  | None => inl PathIsNone
  | Some path =>
      if negb (isfile path) then inl (FileNotFound path) else
      match clean (read_csv path) with
      | inl err => inl err
      | inr forecast_df =>
          match convert_all forecast_df with
          | None => inl ParseFailure
          | Some forecast_df =>
              let forecast_df := sort_by PTime forecast_df in
              if assure_unique_time_ptime_combinations then
                let are_combinations_unique :=
                  check_unique_time_ptime_combinations forecast_df in
                if negb are_combinations_unique then inl NotUnique
                else inr forecast_df
              else inr forecast_df
          end
      end
  end.
End Loader.

End Forecast.
Import Forecast.

(** ** Matcher ([match_auction_with_forecast]) *)

Module Matcher.
Import Auction.

(** A row of the auction catalog ([auction_dict] in the loop). *)
Record AuctionEntry := {
  filepath : string;
  entry_Region : Region;
  IDA_Group : IDAGroup;
  filepath_written_date : Date;
  delivery_date : Date
}.

(** A row of a per-entry joined table: the forecast columns, the single
    auction-price column of the entry's region and the three tags. *)
Record JoinedRow := {
  j_forecast : ForecastRow;
  j_Auction_Price : option Qc;
  j_IDA_Group : IDAGroup;
  j_Region : Region;
  j_Auction_Filepath : string
}.

(** The joined table together with the region naming its price column
    ([Auction_Price_DK1] or [Auction_Price_DK2]). *)
Record JoinedFrame := {
  auction_price_column : Region;
  joined_rows : list JoinedRow
}.

Inductive MatchError :=
| NoForecasts (auction_dict : AuctionEntry)
| NoRelevantForecasts (auction_dict : AuctionEntry).

Definition Region_rank (r : Region) : Z :=
  match r with DK1 => 0 | DK2 => 1 end.
Definition IDAGroup_rank (g : IDAGroup) : Z :=
  match g with IDA1 => 0 | IDA2 => 1 | IDA3 => 2 end.

(** [sort(["delivery_date", "Region", "IDA Group"])]: the three columns
    compared lexicographically, written as one integer key. *)
Definition catalog_key (e : AuctionEntry) : Z :=
  (delivery_date e * 2 + Region_rank (entry_Region e)) * 3
  + IDAGroup_rank (IDA_Group e).

(** Lines 75-76: the catalog entries that are processed, in order. *)
Definition entries_to_process (forecast_df : list ForecastRow)
    (all_auctions_df : list AuctionEntry) : list AuctionEntry :=
  let forecast_dates := map (fun r => dt_date (Time r)) forecast_df in
  sort_by catalog_key
    (filter (fun e => existsb (Z.eqb (delivery_date e)) forecast_dates)
            all_auctions_df).

Definition ptime_hour_needed (ida_group : IDAGroup) : Z :=
  if IDAGroup_eqb ida_group IDA1 then 15
  else if IDAGroup_eqb ida_group IDA2 then 22 else 10.

(** The issuance rule in words: issued on the delivery date or on the day
    before it, at the hour the group asks for. *)
Definition issued_for (e : AuctionEntry) (r : ForecastRow) : bool :=
  in_hour (delivery_date e) (ptime_hour_needed (IDA_Group e)) (PTime r)
  || in_hour (delivery_date e - 1) (ptime_hour_needed (IDA_Group e)) (PTime r).

(** Lines 92-100. *)
Definition forecasts_for_auction (forecast_df : list ForecastRow)
    (auction_dict : AuctionEntry) : list ForecastRow :=
  let delivery_date := delivery_date auction_dict in
  let day_before_delivery := minus_days delivery_date 1 in
  sort_by Time
    (filter (fun r => dt_hour (PTime r) =? ptime_hour_needed (IDA_Group auction_dict))
       (filter (fun r => (dt_date (PTime r) =? delivery_date)
                         || (dt_date (PTime r) =? day_before_delivery))
               forecast_df)).

(** Lines 107-109. *)
Definition relevant_forecasts (auction_df : list HourlyRow)
    (forecasts : list ForecastRow) : list ForecastRow :=
  let auction_start_time := col_min Start_Time auction_df in
  let auction_end_time := col_max Start_Time auction_df in
  filter (fun r => ge_lit (Time r) auction_start_time
                   && le_lit (Time r) auction_end_time) forecasts.

(** Lines 112-115. *)
Definition auction_df_relevant (auction_df : list HourlyRow)
    (relevant : list ForecastRow) : list HourlyRow :=
  filter (fun a => ge_lit (Start_Time a) (col_min Time relevant)
                   && le_lit (Start_Time a) (col_max Time relevant)) auction_df.

(** [left.join(right, left_on="Time", right_on="Start_Time", how="left")]:
    a left row is emitted once per matching right row, and once with a
    null price when nothing matches. *)
Definition left_join (left : list ForecastRow) (right : list HourlyRow)
    : list (ForecastRow * option Qc) :=
  flat_map (fun l =>
    match filter (fun a => Start_Time a =? Time l) right with
    | [] => [(l, None)]
    | ms => map (fun a => (l, Some (Area_Price_Hour a))) ms
    end) left.

(** The price the join attaches to a forecast row. *)
Definition joined_price (right : list HourlyRow) (l : ForecastRow) : option Qc :=
  match filter_eq Start_Time (Time l) right with
  | [] => None
  | a :: _ => Some (Area_Price_Hour a)
  end.

Section Run.
Variable read_excel : string -> list ExcelRow.

(** The body of the loop for one catalog entry. *)
Definition match_entry (forecast_df : list ForecastRow)
    (auction_dict : AuctionEntry) : MatchError + JoinedFrame :=
  let ida_group := IDA_Group auction_dict in
  let region := entry_Region auction_dict in
  let auction_df :=
    hourly_rows (read_single_auction_file read_excel (filepath auction_dict)
                   ida_group (delivery_date auction_dict) region) in
  let forecasts := forecasts_for_auction forecast_df auction_dict in
  if (List.length forecasts =? 0)%nat then inl (NoForecasts auction_dict) else
  let relevant := relevant_forecasts auction_df forecasts in
  if (List.length relevant =? 0)%nat then inl (NoRelevantForecasts auction_dict) else
  let joined_df := left_join relevant (auction_df_relevant auction_df relevant) in
  inr {| auction_price_column := region;
         joined_rows :=
           map (fun fp : ForecastRow * option Qc =>
                  {| j_forecast := fst fp;
                     j_Auction_Price := snd fp;
                     j_IDA_Group := ida_group;
                     j_Region := region;
                     j_Auction_Filepath := filepath auction_dict |})
               joined_df |}.

(** The loop: a raise in any iteration discards the matches so far. *)
Fixpoint match_loop (forecast_df : list ForecastRow)
    (auction_row_dicts : list AuctionEntry)
    (forecast_auction_mathces : list JoinedFrame)
    : MatchError + list JoinedFrame :=
  match auction_row_dicts with
  | [] => inr forecast_auction_mathces
  | auction_dict :: rest =>
      match match_entry forecast_df auction_dict with
      | inl err => inl err
      | inr joined_df =>
          match_loop forecast_df rest (forecast_auction_mathces ++ [joined_df])
      end
  end.

(** The function, called with the two tables themselves (lines 71-72 read
    them only when a path string is passed). *)
Definition match_auction_with_forecast (forecast_df : list ForecastRow)
    (all_auctions_df : list AuctionEntry) : MatchError + list JoinedFrame :=
  match_loop forecast_df (entries_to_process forecast_df all_auctions_df) [].
End Run.

(** *** Notions used to state the properties of the matcher *)

(** The catalog entry an error message carries. *)
Definition error_entry (err : MatchError) : AuctionEntry :=
  match err with
  | NoForecasts e => e
  | NoRelevantForecasts e => e
  end.

(** The delivery date is the calendar date of some forecast horizon. *)
Definition has_forecast_horizon (forecast_df : list ForecastRow) (e : AuctionEntry) : Prop :=
  exists r, In r forecast_df /\ dt_date (Time r) = delivery_date e.

End Matcher.

(** ** Merger ([merge_forecast_and_auction_dataframes]) *)

Module Merger.
Import Matcher.

(** A row of the concatenated table: the union of the columns of the
    per-entry tables. *)
Record MergedRow := {
  m_forecast : ForecastRow;
  Auction_Price_DK1 : option Qc;
  Auction_Price_DK2 : option Qc;
  m_IDA_Group : IDAGroup;
  m_Region : Region;
  m_Auction_Filepath : string
}.

Definition m_Time (r : MergedRow) : Datetime := Time (m_forecast r).

(** The type of an auction-price column: [Float64] as the tables bring
    it, or [Null] for a column built from a list that holds [None] only. *)
Inductive Dtype := Float64 | Null.

(** A data frame whose set of columns grows with the tables it has
    absorbed; [pl.DataFrame()] has no column at all.  The type of a price
    column counts only when the frame has the column. *)
Record DataFrame := {
  has_Time : bool;
  has_Auction_Price_DK1 : bool;
  has_Auction_Price_DK2 : bool;
  dtype_Auction_Price_DK1 : Dtype;
  dtype_Auction_Price_DK2 : Dtype;
  rows : list MergedRow
}.

Definition empty_DataFrame : DataFrame :=
  {| has_Time := false; has_Auction_Price_DK1 := false;
     has_Auction_Price_DK2 := false;
     dtype_Auction_Price_DK1 := Float64; dtype_Auction_Price_DK2 := Float64;
     rows := [] |}.

Definition with_rows (df : DataFrame) (l : list MergedRow) : DataFrame :=
  {| has_Time := has_Time df;
     has_Auction_Price_DK1 := has_Auction_Price_DK1 df;
     has_Auction_Price_DK2 := has_Auction_Price_DK2 df;
     dtype_Auction_Price_DK1 := dtype_Auction_Price_DK1 df;
     dtype_Auction_Price_DK2 := dtype_Auction_Price_DK2 df;
     rows := l |}.

(** The two errors the function raises: a column that is asked for and
    does not exist, and the schema error of [pl.concat]. *)
Inductive MergeError :=
| ColumnNotFound (name : string)
| SchemaError.

(** A joined row seen with the union of the columns: the price column
    its table lacks is null. *)
Definition widen (column : Region) (r : JoinedRow) : MergedRow :=
  {| m_forecast := j_forecast r;
     Auction_Price_DK1 := if Region_eqb column DK1 then j_Auction_Price r else None;
     Auction_Price_DK2 := if Region_eqb column DK2 then j_Auction_Price r else None;
     m_IDA_Group := j_IDA_Group r;
     m_Region := j_Region r;
     m_Auction_Filepath := j_Auction_Filepath r |}.

(** [pl.concat([tmp_df, df], how="diagonal")]: the price columns are
    [Float64], as the tables bring them. *)
Definition concat_diagonal (tmp_df : DataFrame) (df : JoinedFrame) : DataFrame :=
  {| has_Time := true;
     has_Auction_Price_DK1 :=
       has_Auction_Price_DK1 tmp_df || Region_eqb (auction_price_column df) DK1;
     has_Auction_Price_DK2 :=
       has_Auction_Price_DK2 tmp_df || Region_eqb (auction_price_column df) DK2;
     dtype_Auction_Price_DK1 := Float64;
     dtype_Auction_Price_DK2 := Float64;
     rows := rows tmp_df ++ map (widen (auction_price_column df)) (joined_rows df) |}.

(** Appending a column to the accumulated one: a [Null] column is cast to
    the accumulated type, a [Float64] column does not fit an accumulated
    [Null] column. *)
Definition can_append (accumulated new : Dtype) : bool :=
  match accumulated, new with
  | Null, Float64 => false
  | _, _ => true
  end.

(** Do the price columns of [b] fit those of [a]? *)
Definition fits (a b : DataFrame) : bool :=
  (negb (has_Auction_Price_DK1 a)
   || can_append (dtype_Auction_Price_DK1 a) (dtype_Auction_Price_DK1 b))
  && (negb (has_Auction_Price_DK2 a)
      || can_append (dtype_Auction_Price_DK2 a) (dtype_Auction_Price_DK2 b)).

(** [pl.concat([merged, time_df])]: stacking onto the column-less frame
    gives the second frame; otherwise the columns of the second frame
    must fit, and the result keeps the types of the first. *)
Definition concat_vertical (a b : DataFrame) : MergeError + DataFrame :=
  if has_Time a then
    if fits a b then inr (with_rows a (rows a ++ rows b)) else inl SchemaError
  else inr b.

Definition is_not_None (v : option Qc) : bool :=
  match v with Some _ => true | None => false end.

(** Lines 36-38: the non-null values first, then as many nulls as were
    removed. *)
Definition compact_values (vals : list (option Qc)) : list (option Qc) :=
  let vals_no_nulls := filter is_not_None vals in
  vals_no_nulls ++ repeat None (List.length vals - List.length vals_no_nulls).

(** [time_df.with_columns(pl.Series(col, vals))] for the two columns. *)
Definition set_Auction_Price_DK1 (r : MergedRow) (v : option Qc) : MergedRow :=
  {| m_forecast := m_forecast r;
     Auction_Price_DK1 := v;
     Auction_Price_DK2 := Auction_Price_DK2 r;
     m_IDA_Group := m_IDA_Group r;
     m_Region := m_Region r;
     m_Auction_Filepath := m_Auction_Filepath r |}.

Definition set_Auction_Price_DK2 (r : MergedRow) (v : option Qc) : MergedRow :=
  {| m_forecast := m_forecast r;
     Auction_Price_DK1 := Auction_Price_DK1 r;
     Auction_Price_DK2 := v;
     m_IDA_Group := m_IDA_Group r;
     m_Region := m_Region r;
     m_Auction_Filepath := m_Auction_Filepath r |}.

Definition with_column (set : MergedRow -> option Qc -> MergedRow)
    (time_df : list MergedRow) (vals : list (option Qc)) : list MergedRow :=
  map (fun rv => set (fst rv) (snd rv)) (combine time_df vals).

(** [pl.Series(col, vals)]: the type is read off the values; a list
    that holds [None] only gives a [Null] column. *)
Definition series_dtype (vals : list (option Qc)) : Dtype :=
  if existsb is_not_None vals then Float64 else Null.

(** Lines 35-39: the loop over the price columns that are not forecast
    columns, for one group.  Each column is replaced by the series built
    from the compacted list, with the type of that series. *)
Definition compact_time_df (time_df : DataFrame) : DataFrame :=
  let l := rows time_df in
  let vals_DK1 := compact_values (map Auction_Price_DK1 l) in
  let l := if has_Auction_Price_DK1 time_df
           then with_column set_Auction_Price_DK1 l vals_DK1
           else l in
  let vals_DK2 := compact_values (map Auction_Price_DK2 l) in
  let l := if has_Auction_Price_DK2 time_df
           then with_column set_Auction_Price_DK2 l vals_DK2
           else l in
  {| has_Time := has_Time time_df;
     has_Auction_Price_DK1 := has_Auction_Price_DK1 time_df;
     has_Auction_Price_DK2 := has_Auction_Price_DK2 time_df;
     dtype_Auction_Price_DK1 :=
       if has_Auction_Price_DK1 time_df then series_dtype vals_DK1
       else dtype_Auction_Price_DK1 time_df;
     dtype_Auction_Price_DK2 :=
       if has_Auction_Price_DK2 time_df then series_dtype vals_DK2
       else dtype_Auction_Price_DK2 time_df;
     rows := l |}.

(** Lines 27-29. *)
Definition concat_all (forecast_auction_mathces : list JoinedFrame) : DataFrame :=
  fold_left concat_diagonal forecast_auction_mathces empty_DataFrame.

(** Lines 30-40: the table after the loop over the distinct times,
    before the rows without any auction price are removed; the first
    group that does not fit ends the loop with the schema error. *)
Definition compacted (forecast_auction_mathces : list JoinedFrame)
    : MergeError + DataFrame :=
  let tmp_df := concat_all forecast_auction_mathces in
  let times := unique (map m_Time (rows tmp_df)) in
  let tmp_df := with_rows tmp_df (sort_by m_Time (rows tmp_df)) in
  fold_left
    (fun merged time =>
       match merged with
       | inl err => inl err
       | inr merged_forecast_auction_df =>
           let time_df := with_rows tmp_df (filter_eq m_Time time (rows tmp_df)) in
           concat_vertical merged_forecast_auction_df (compact_time_df time_df)
       end)
    times (inr empty_DataFrame).

Definition all_auction_values_null (r : MergedRow) : bool :=
  negb (is_not_None (Auction_Price_DK1 r)) && negb (is_not_None (Auction_Price_DK2 r)).

Definition merge_forecast_and_auction_dataframes
    (forecast_auction_mathces : list JoinedFrame) : MergeError + list MergedRow :=
  if negb (has_Time (concat_all forecast_auction_mathces))
  then inl (ColumnNotFound "Time") else
  match compacted forecast_auction_mathces with
  | inl err => inl err
  | inr merged_forecast_auction_df =>
      if negb (has_Auction_Price_DK1 merged_forecast_auction_df)
      then inl (ColumnNotFound "Auction_Price_DK1") else
      if negb (has_Auction_Price_DK2 merged_forecast_auction_df)
      then inl (ColumnNotFound "Auction_Price_DK2") else
      let kept := filter (fun r => negb (all_auction_values_null r))
                         (rows merged_forecast_auction_df) in
      inr (sort_by m_Time kept)
  end.

(** *** Notions used to state the properties of the merger *)

(** The rows of the concatenated table, table after table. *)
Definition all_rows (ms : list JoinedFrame) : list MergedRow :=
  flat_map (fun df => map (widen (auction_price_column df)) (joined_rows df)) ms.

(** Does some table bring the price column of this region? *)
Definition brings_column (reg : Region) (ms : list JoinedFrame) : bool :=
  existsb (fun df => Region_eqb (auction_price_column df) reg) ms.

(** Both price columns compacted, as the loop body does when both exist. *)
Definition compact_rows (l : list MergedRow) : list MergedRow :=
  let l := with_column set_Auction_Price_DK1 l (compact_values (map Auction_Price_DK1 l)) in
  with_column set_Auction_Price_DK2 l (compact_values (map Auction_Price_DK2 l)).

(** The values of a nullable column that are not null, in order. *)
Definition non_null_values (vals : list (option Qc)) : list Qc :=
  flat_map (fun v => match v with Some x => [x] | None => [] end) vals.

(** The rows that survive the final filter. *)
Definition has_auction_price (r : MergedRow) : bool := negb (all_auction_values_null r).

(** The table after the loop, when both price columns exist. *)
Definition merged_rows (ms : list JoinedFrame) : list MergedRow :=
  flat_map (fun t => compact_rows (filter_eq m_Time t (all_rows ms)))
           (unique (map m_Time (all_rows ms))).

(** The group of one time after the loop body, and the loop as a whole. *)
Definition time_group (tmp_df : DataFrame) (time : Z) : DataFrame :=
  compact_time_df (with_rows tmp_df (filter_eq m_Time time (rows tmp_df))).

(** The horizon times of the tables, in the order in which the loop
    takes them. *)
Definition horizon_times (ms : list JoinedFrame) : list Datetime :=
  unique (map m_Time (all_rows ms)).

(** The non-null auction prices of one region found at time [T] across the
    per-entry tables, in list order. *)
Definition auction_prices_at (reg : Region) (T : Datetime) (ms : list JoinedFrame)
    : list Qc :=
  flat_map (fun df =>
    if Region_eqb (auction_price_column df) reg
    then non_null_values
           (map j_Auction_Price
              (filter (fun r => Time (j_forecast r) =? T) (joined_rows df)))
    else []) ms.

(** Some table holds an auction price of the region at the time. *)
Definition priced_at (reg : Region) (ms : list JoinedFrame) (T : Datetime) : bool :=
  negb (List.length (auction_prices_at reg T ms) =? 0)%nat.

(** The groups of the later times can be stacked on the group of the
    first time: in each price column the first time carries a price, or
    no later time does. *)
Definition stacks_column (reg : Region) (ms : list JoinedFrame) : bool :=
  match horizon_times ms with
  | [] => true
  | first :: later =>
      priced_at reg ms first || forallb (fun t => negb (priced_at reg ms t)) later
  end.

Definition stacks (ms : list JoinedFrame) : bool :=
  stacks_column DK1 ms && stacks_column DK2 ms.

End Merger.

(** ** Metrics ([compute_forecast_metrics]) *)

Module Metrics.
Import Merger.

(** A nullable [Float64] column and the polars expressions used on it:
    arithmetic gives null where an operand is null, [mean] skips nulls. *)
Definition Column := list (option Qc).

Definition lift1 (f : Qc -> Qc) (a : Column) : Column := map (option_map f) a.

Definition lift2 (f : Qc -> Qc -> Qc) (a b : Column) : Column :=
  map (fun xy => match xy with
                 | (Some x, Some y) => Some (f x y)
                 | _ => None
                 end) (combine a b).

Definition Qc_abs (x : Qc) : Qc := if Qclt_le_dec x (Q2Qc 0) then (- x)%Qc else x.

Definition sub : Column -> Column -> Column := lift2 Qcminus.
Definition div : Column -> Column -> Column := lift2 Qcdiv.
Definition abs : Column -> Column := lift1 Qc_abs.
Definition pow2 : Column -> Column := lift1 (fun x => (x * x)%Qc).

Definition drop_null_values (a : Column) : list Qc :=
  flat_map (fun v => match v with Some x => [x] | None => [] end) a.

Definition col_mean (a : Column) : option Qc := mean (drop_null_values a).

(** [pl.col(c) == 0]: null where the column is null. *)
Definition eq_zero (a : Column) : list (option bool) :=
  map (option_map (fun x => Qc_eq_bool x (Q2Qc 0))) a.

(** [pl.when(cond).then(lit).otherwise(col)]: a null condition selects
    the [otherwise] branch. *)
Definition when_then_otherwise (cond : list (option bool)) (lit : Qc)
    (otherwise : Column) : Column :=
  map (fun co => match fst co with
                 | Some true => Some lit
                 | _ => snd co
                 end) (combine cond otherwise).

Definition epsilon : Qc := Q2Qc (1 # 10000000000).

Record MetricsRow := {
  MAE : option Qc;
  MSE : option Qc;
  RMSE : option R;
  MAPE : option Qc
}.

Definition metrics_of (forecast_price auction_price : Column) : MetricsRow :=
  let diff := sub forecast_price auction_price in
  {| MAE := col_mean (abs diff);
     MSE := col_mean (pow2 diff);
     RMSE := option_map (fun m : Qc => sqrt (Q2R (this m))) (col_mean (pow2 diff));
     MAPE := col_mean (div (abs diff)
               (when_then_otherwise (eq_zero auction_price) epsilon auction_price)) |}.

Definition compute_forecast_metrics (pl_data : list MergedRow)
    : MetricsRow * MetricsRow :=
  let metrics_dk1 :=
    metrics_of (map (fun r => Some (DK1_forecast_price (m_forecast r))) pl_data)
               (map Auction_Price_DK1 pl_data) in
  let metrics_dk2 :=
    metrics_of (map (fun r => Some (DK2_forecast_price (m_forecast r))) pl_data)
               (map Auction_Price_DK2 pl_data) in
  (metrics_dk1, metrics_dk2).

(** *** The measures as the specification words them *)

(** The observations of one region: forecast and auction price of the rows
    whose auction price is not null. *)
Definition observations (forecast : MergedRow -> Qc) (auction : MergedRow -> option Qc)
    (pl_data : list MergedRow) : list (Qc * Qc) :=
  flat_map (fun r => match auction r with
                     | Some a => [(forecast r, a)]
                     | None => []
                     end) pl_data.

(** The four error measures as the specification words them. *)
Definition absolute_error (fa : Qc * Qc) : Qc := Qc_abs (fst fa - snd fa).
Definition squared_error (fa : Qc * Qc) : Qc :=
  ((fst fa - snd fa) * (fst fa - snd fa))%Qc.
Definition safe_divisor (a : Qc) : Qc :=
  if Qc_eq_dec a (Q2Qc 0) then epsilon else a.
Definition absolute_percentage_error (fa : Qc * Qc) : Qc :=
  (absolute_error fa / safe_divisor (snd fa))%Qc.

(** A metrics row agrees with the four formulas on the observations. *)
Definition meets_formulas (obs : list (Qc * Qc)) (m : MetricsRow) : Prop :=
  MAE m = mean (map absolute_error obs) /\
  MSE m = mean (map squared_error obs) /\
  RMSE m = option_map (fun v : Qc => sqrt (Q2R v)) (MSE m) /\
  (forall mse : Qc, MSE m = Some mse ->
     (sqrt (Q2R mse) * sqrt (Q2R mse) = Q2R mse)%R) /\
  MAPE m = mean (map absolute_percentage_error obs).

End Metrics.

(** ** A small concrete run

    One delivery day, one spreadsheet holding a single hour of four
    quarter prices, one forecast issued at 15:00 on the day before, and
    per-entry tables that meet at the first hour of the delivery day. *)

Module Scenario.
Import Auction Matcher Merger.

Definition delivery_day : Date := 19737.

Definition quarter (p : Z) : ExcelRow :=
  {| Unnamed_0 := Some 0; Type_ := Some "QH"%string; Schedule := Some (Qc_of_Z p) |}.

Definition read_excel (path : string) : list ExcelRow :=
  map quarter [10; 20; 30; 40].

Definition forecast_at (ptime time : Datetime) : ForecastRow :=
  {| PTime := ptime; Time := time;
     DK1_forecast_price := Qc_of_Z 30; DK2_forecast_price := Qc_of_Z 31 |}.

Definition first_hour : Datetime := datetime delivery_day 0 0.

Definition forecast_df : list ForecastRow :=
  [forecast_at (datetime (delivery_day - 1) 15 0) first_hour].

(** The same horizon, but issued at 09:00: no auction group asks for it. *)
Definition forecast_df_wrong_hour : list ForecastRow :=
  [forecast_at (datetime (delivery_day - 1) 9 0) first_hour].

Definition entry (region : Region) (g : IDAGroup) (path : string) (delivery : Date)
    : AuctionEntry :=
  {| filepath := path; entry_Region := region; IDA_Group := g;
     filepath_written_date := delivery - 1; delivery_date := delivery |}.

Definition entry_covered : AuctionEntry :=
  entry DK1 IDA1 "DK1_IDA1_a.xlsx" delivery_day.

(** Five days later: the forecast table knows nothing about that day. *)
Definition entry_uncovered : AuctionEntry :=
  entry DK1 IDA1 "DK1_IDA1_b.xlsx" (delivery_day + 5).

Definition catalog : list AuctionEntry := [entry_covered; entry_uncovered].

Definition table (region : Region) (g : IDAGroup) (path : string) (price : Z)
    : JoinedFrame :=
  {| auction_price_column := region;
     joined_rows :=
       [{| j_forecast := forecast_at (datetime (delivery_day - 1) 15 0) first_hour;
           j_Auction_Price := Some (Qc_of_Z price);
           j_IDA_Group := g; j_Region := region; j_Auction_Filepath := path |}] |}.

Definition table_DK1 : JoinedFrame := table DK1 IDA1 "DK1_IDA1.xlsx" 5.
Definition table_DK2 : JoinedFrame := table DK2 IDA2 "DK2_IDA2.xlsx" 7.
Definition table_DK2_first : JoinedFrame := table DK2 IDA1 "DK2_IDA1.xlsx" 8.

(** A DK1 table over two hours, with the prices 6 and 5, and a DK2 table
    that holds the later hour only, with the price 7. *)
Definition second_hour : Datetime := datetime delivery_day 1 0.

Definition joined_at (region : Region) (g : IDAGroup) (path : string)
    (time : Datetime) (price : Z) : JoinedRow :=
  {| j_forecast := forecast_at (datetime (delivery_day - 1) 15 0) time;
     j_Auction_Price := Some (Qc_of_Z price);
     j_IDA_Group := g; j_Region := region; j_Auction_Filepath := path |}.

Definition table_DK1_two_hours : JoinedFrame :=
  {| auction_price_column := DK1;
     joined_rows := [joined_at DK1 IDA1 "DK1_IDA1.xlsx" first_hour 6;
                     joined_at DK1 IDA1 "DK1_IDA1.xlsx" second_hour 5] |}.

Definition table_DK2_second_hour : JoinedFrame :=
  {| auction_price_column := DK2;
     joined_rows := [joined_at DK2 IDA2 "DK2_IDA2.xlsx" second_hour 7] |}.

(** Three merged rows with DK1 forecasts 1, 2, 3 and auction prices 1, 1, 3. *)
Definition metric_row (forecast auction : Z) : MergedRow :=
  {| m_forecast := {| PTime := 0; Time := first_hour;
                      DK1_forecast_price := Qc_of_Z forecast;
                      DK2_forecast_price := Qc_of_Z forecast |};
     Auction_Price_DK1 := Some (Qc_of_Z auction);
     Auction_Price_DK2 := None;
     m_IDA_Group := IDA1; m_Region := DK1; m_Auction_Filepath := "DK1_IDA1.xlsx" |}.

Definition metric_rows : list MergedRow :=
  [metric_row 1 1; metric_row 2 1; metric_row 3 3].

End Scenario.

(** ** Further notions used to state properties *)

Module Shape.
Import Auction Matcher Merger Metrics.

(** The prices of the [j]-th hour of a spreadsheet: its rows [4j .. 4j+3],
    as many of them as exist. *)
Definition hour_chunk (j : nat) (ps : list (string * Qc)) : list (string * Qc) :=
  firstn 4 (skipn (4 * j) ps).

(** The number of hours a spreadsheet of [n] quarter rows touches. *)
Definition hours_touched (n : nat) : nat := (n + 3) / 4.

(** The hourly row of the [j]-th hour, when that hour has a price. *)
Definition hour_row (g : IDAGroup) (date : Date) (ps : list (string * Qc)) (j : nat)
    : list HourlyRow :=
  agg (bucket (with_start_time g date ps)
              (bucket_key (datetime date (start_hour g + Z.of_nat j) 0))).

(** The order of the catalog columns [delivery_date], [Region], [IDA Group]. *)
Definition catalog_le (a b : AuctionEntry) : Prop :=
  delivery_date a < delivery_date b \/
  (delivery_date a = delivery_date b /\
   (Region_rank (entry_Region a) < Region_rank (entry_Region b) \/
    (Region_rank (entry_Region a) = Region_rank (entry_Region b) /\
     IDAGroup_rank (IDA_Group a) <= IDAGroup_rank (IDA_Group b)))).

(** The columns the compaction never writes. *)
Definition untouched_columns (r : MergedRow)
    : ForecastRow * IDAGroup * Region * string :=
  (m_forecast r, m_IDA_Group r, m_Region r, m_Auction_Filepath r).

(** A CSV line the loader keeps: no cell is empty and none reads [NA]. *)
Definition kept_line (c : CsvRow) : Prop :=
  exists p t a b,
    csv_PTime c = Some p /\ csv_Time c = Some t /\
    cor_pe_RegPrice_DK1 c = Some a /\ cor_pe_RegPrice_DK2 c = Some b /\
    p <> "NA"%string /\ t <> "NA"%string /\ a <> "NA"%string /\ b <> "NA"%string.

(** The columns and the result of one region. *)
Definition region_forecast (reg : Region) (r : MergedRow) : Qc :=
  match reg with
  | DK1 => DK1_forecast_price (m_forecast r)
  | DK2 => DK2_forecast_price (m_forecast r)
  end.

Definition region_auction (reg : Region) (r : MergedRow) : option Qc :=
  match reg with
  | DK1 => Auction_Price_DK1 r
  | DK2 => Auction_Price_DK2 r
  end.

Definition region_observations (reg : Region) (pl_data : list MergedRow)
    : list (Qc * Qc) :=
  observations (region_forecast reg) (region_auction reg) pl_data.

Definition region_metrics (reg : Region) (pl_data : list MergedRow) : MetricsRow :=
  match reg with
  | DK1 => fst (compute_forecast_metrics pl_data)
  | DK2 => snd (compute_forecast_metrics pl_data)
  end.

End Shape.

(** ** The whole comparison ([compute_performance_score]) *)

Module Pipeline.
Import Auction Matcher Merger Metrics.

(** A row of the returned table: the merged row and the two difference
    columns of lines 48-51. *)
Record ScoredRow := {
  s_merged : MergedRow;
  Price_Diff_DK1 : option Qc;
  Price_Diff_DK2 : option Qc
}.

(** The two ways in which the run raises: the [ValueError] of the matcher
    and the errors of the merger. *)
Inductive PipelineError :=
| MatchRaised (err : MatchError)
| MergeRaised (err : MergeError).

(** [pl.col(forecast) - pl.col(auction)]: null where the auction price is
    null. *)
Definition price_diff (forecast : Qc) (auction : option Qc) : option Qc :=
  option_map (fun a => (forecast - a)%Qc) auction.

Definition with_price_diffs (merged_forecast_auction_df : list MergedRow)
    : list ScoredRow :=
  map (fun r =>
         {| s_merged := r;
            Price_Diff_DK1 :=
              price_diff (DK1_forecast_price (m_forecast r)) (Auction_Price_DK1 r);
            Price_Diff_DK2 :=
              price_diff (DK2_forecast_price (m_forecast r)) (Auction_Price_DK2 r) |})
      merged_forecast_auction_df.

Section Run.
Variable read_excel : string -> list ExcelRow.

(** Lines 42-63, called with the two tables themselves.  The result is
    the returned table together with the two metric rows that are printed;
    reordering the columns and writing the files leave the rows as they
    are. *)
Definition compute_performance_score (forecast_df : list ForecastRow)
    (all_auctions_df : list AuctionEntry)
    : PipelineError + list ScoredRow * (MetricsRow * MetricsRow) :=
  match match_auction_with_forecast read_excel forecast_df all_auctions_df with
  | inl err => inl (MatchRaised err)
  | inr forecast_auction_mathces =>
      match merge_forecast_and_auction_dataframes forecast_auction_mathces with
      | inl err => inl (MergeRaised err)
      | inr merged_forecast_auction_df =>
          let merged_forecast_auction_df :=
            with_price_diffs merged_forecast_auction_df in
          inr (merged_forecast_auction_df,
               compute_forecast_metrics (map s_merged merged_forecast_auction_df))
      end
  end.
End Run.

(** *** Notions used to state the properties of the whole run *)

Definition region_price_diff (reg : Region) (r : ScoredRow) : option Qc :=
  match reg with
  | DK1 => Price_Diff_DK1 r
  | DK2 => Price_Diff_DK2 r
  end.

(** Does the list hold an entry of this region? *)
Definition has_region (reg : Region) (es : list AuctionEntry) : bool :=
  existsb (fun e => Region_eqb (entry_Region e) reg) es.

End Pipeline.

(** ** The [str] methods the helpers use

    Paths, column names and extensions are taken to be ASCII strings. *)

Module Text.
Local Open Scope string_scope.

Definition lower_char (c : ascii) : ascii :=
  let n := nat_of_ascii c in
  if ((65 <=? n) && (n <=? 90))%nat then ascii_of_nat (n + 32) else c.

(** [s.lower()]. *)
Fixpoint lower (s : string) : string :=
  match s with
  | EmptyString => EmptyString
  | String c t => String (lower_char c) (lower t)
  end.

(** [s.startswith(p)]. *)
Definition startswith (s p : string) : bool := prefix p s.

(** [sub in s]: some tail of [s] starts with [sub]. *)
Fixpoint contains (sub s : string) : bool :=
  prefix sub s
  || match s with
     | EmptyString => false
     | String _ t => contains sub t
     end.

(** [s.endswith(suffix)]: some tail of [s] is [suffix]. *)
Fixpoint endswith (s suffix : string) : bool :=
  String.eqb s suffix
  || match s with
     | EmptyString => false
     | String _ t => endswith t suffix
     end.

(** [s.endswith(tuple(suffixes))]. *)
Definition endswith_any (s : string) (suffixes : list string) : bool :=
  existsb (endswith s) suffixes.

(** [s[1:]]. *)
Definition drop_first (s : string) : string :=
  match s with
  | EmptyString => EmptyString
  | String _ t => t
  end.

End Text.

(** ** Searching a directory for files ([from_nico_utils/recursive_search.py]) *)

Module Search.
Import Text.
Local Open Scope string_scope.

(** What [os.scandir] yields: a regular file, a directory with its own
    entries, or an entry that is neither. *)
#[local] Unset Elimination Schemes.
Inductive Node :=
| File (name : string)
| Dir (name : string) (entries : list Node)
| Other (name : string).
#[local] Set Elimination Schemes.

(** Induction on a directory tree, entries included. *)
Fixpoint Node_tree_ind (P : Node -> Prop)
    (HFile : forall name, P (File name))
    (HDir : forall name entries, Forall P entries -> P (Dir name entries))
    (HOther : forall name, P (Other name)) (n : Node) : P n :=
  match n with
  | File name => HFile name
  | Dir name entries =>
      HDir name entries
        ((fix all (l : list Node) : Forall P l :=
            match l with
            | [] => Forall_nil P
            | x :: t => Forall_cons x (Node_tree_ind P HFile HDir HOther x) (all t)
            end) entries)
  | Other name => HOther name
  end.

(** [entry.path], that is [os.path.join(directory, entry.name)]. *)
Definition path_join (directory name : string) : string :=
  if startswith name "/" then name
  else if String.eqb directory "" || endswith directory "/" then directory ++ name
  else directory ++ "/" ++ name.

(** One turn of the loop of [recursive_search] (lines 33-37); the inner
    call leaves [recursive] at its default [True]. *)
Fixpoint search_entry (extensions : list string) (recursive : bool)
    (directory : string) (entry : Node) : list string :=
  match entry with
  | Dir name entries =>
      if recursive
      then flat_map (search_entry extensions true (path_join directory name)) entries
      else []
  | File name =>
      if endswith_any (lower name) extensions then [path_join directory name] else []
  | Other _ => []
  end.

Inductive SearchError :=
| NotADirectoryError (path_idx : nat) (path : string)
| ScandirError (path : string)
| ValueError
| IndexError.

(** A key of a [dict] keeps the place of its first insertion and the
    value of its last. *)
Fixpoint dict_set (key value : string) (d : list (string * string))
    : list (string * string) :=
  match d with
  | [] => [(key, value)]
  | (k, v) :: rest =>
      if String.eqb k key then (k, value) :: rest
      else (k, v) :: dict_set key value rest
  end.

Section FileSystem.
(** [os.path.exists]. *)
Variable path_exists : string -> bool.
(** The entries of a directory; [None] when the path is no directory. *)
Variable scandir : string -> option (list Node).
(** The path built from the environment at line 98. *)
Variable image_datasets_path : string -> string.
Variable basename : string -> string.
(** [natsorted(files, key=...)]. *)
Variable natsorted : (string -> string) -> list string -> list string.

Definition isdir (path : string) : bool :=
  match scandir path with Some _ => true | None => false end.

(** Lines 26-39, for the list of directories that [search_files] passes. *)
Definition recursive_search (directory : list string) (extensions : list string)
    (recursive : bool) : SearchError + list string :=
  if (1 <? List.length directory)%nat then inl ValueError else
  match directory with
  | [] => inl IndexError
  | directory :: _ =>
      match scandir directory with
      | None => inl (ScandirError directory)
      | Some entries =>
          inr (flat_map (search_entry extensions recursive directory) entries)
      end
  end.

(** Lines 96-101: the paths are resolved and checked one after the other. *)
Fixpoint check_paths (path_idx : nat) (start_path : list string)
    : SearchError + list string :=
  match start_path with
  | [] => inr []
  | path_val :: rest =>
      let path_val :=
        if negb (path_exists path_val) && contains "Image_Datasets" path_val
        then image_datasets_path path_val else path_val in
      if negb (isdir path_val) then inl (NotADirectoryError path_idx path_val) else
      match check_paths (S path_idx) rest with
      | inl err => inl err
      | inr rest => inr (path_val :: rest)
      end
  end.

(** Lines 106-108. *)
Definition normalise_extensions (accepted_img_extensions : list string) : list string :=
  map lower
    (map (fun ext => if startswith ext "." then drop_first ext else ext)
         accepted_img_extensions).

(** Line 120. *)
Definition unique_basenames (filename_list : list string) : list string :=
  map snd (fold_left (fun d x => dict_set (basename x) x d) filename_list []).

Definition search_files (start_path : list string)
    (accepted_img_extensions : list string)
    (recursive sort_by_basename return_unique_basenames_only sort_files : bool)
    : SearchError + list string :=
  let sort_files := if sort_by_basename then true else sort_files in
  match check_paths 0 start_path with
  | inl err => inl err
  | inr start_path =>
      let accepted_img_extensions := normalise_extensions accepted_img_extensions in
      match recursive_search start_path accepted_img_extensions recursive with
      | inl err => inl err
      | inr filename_list =>
          let filename_list :=
            if return_unique_basenames_only then unique_basenames filename_list
            else filename_list in
          let filename_list :=
            if sort_files then
              let sort_func :=
                if sort_by_basename && negb return_unique_basenames_only
                then basename else (fun x => x) in
              natsorted (fun x => lower (sort_func x)) filename_list
            else filename_list in
          inr filename_list
      end
  end.

End FileSystem.

(** *** Notions used to state the properties of the search *)

(** The regular files below a directory, each with its path and its name. *)
Inductive file_below : string -> list Node -> string -> string -> Prop :=
| file_here (directory : string) (entries : list Node) (name : string) :
    In (File name) entries ->
    file_below directory entries (path_join directory name) name
| file_deeper (directory : string) (entries : list Node) (sub : string)
    (sub_entries : list Node) (path name : string) :
    In (Dir sub sub_entries) entries ->
    file_below (path_join directory sub) sub_entries path name ->
    file_below directory entries path name.

(** The path is the last one of the list with its base name. *)
Definition last_with_basename (basename : string -> string) (files : list string)
    (path : string) : Prop :=
  exists before after,
    files = (before ++ path :: after)%list /\ ~ In (basename path) (map basename after).

(** The name ends, whatever its case, with one of the extensions. *)
Definition accepted (extensions : list string) (name : string) : Prop :=
  exists ext, In ext extensions /\ endswith (lower name) ext = true.

End Search.

(** ** Dates in file names ([from_nico_utils/regex_find_pattern.py]) *)

Module DateParse.
Import Text.

(** The regular expressions of the table are sequences of one-character
    classes: [\d], [[A-Za-z]] and literal characters. *)
Inductive CharClass :=
| digit
| letter
| exactly (c : ascii).

Definition Pattern := list CharClass.

Definition is_digit (c : ascii) : bool :=
  let n := nat_of_ascii c in ((48 <=? n) && (n <=? 57))%nat.

Definition is_letter (c : ascii) : bool :=
  let n := nat_of_ascii c in
  (((65 <=? n) && (n <=? 90)) || ((97 <=? n) && (n <=? 122)))%nat.

Definition in_class (k : CharClass) (c : ascii) : bool :=
  match k with
  | digit => is_digit c
  | letter => is_letter c
  | exactly c' => Ascii.eqb c c'
  end.

(** [\d{n}], [[A-Za-z]{n}] and a literal text. *)
Definition digits (n : nat) : Pattern := repeat digit n.
Definition letters (n : nat) : Pattern := repeat letter n.
Definition lit (s : string) : Pattern := map exactly (list_ascii_of_string s).

(** The text a pattern matches at the start of a string. *)
Fixpoint match_here (p : Pattern) (s : string) : option string :=
  match p with
  | [] => Some EmptyString
  | k :: p' =>
      match s with
      | EmptyString => None
      | String c t =>
          if in_class k c
          then option_map (String c) (match_here p' t)
          else None
      end
  end.

(** [re.findall(pattern, s)]: the matches from left to right, none
    overlapping an earlier one; [skip] characters are still covered by the
    last match. *)
Fixpoint findall_from (p : Pattern) (skip : nat) (s : string) {struct s} : list string :=
  match skip with
  | S k =>
      match s with
      | EmptyString => []
      | String _ t => findall_from p k t
      end
  | O =>
      match match_here p s with
      | Some m =>
          m :: match s with
               | EmptyString => []
               | String _ t => findall_from p (String.length m - 1) t
               end
      | None =>
          match s with
          | EmptyString => []
          | String _ t => findall_from p 0 t
          end
      end
  end.

Definition findall (p : Pattern) (s : string) : list string := findall_from p 0 s.

(** Lines 14-17; the compiled pattern of line 15 is thrown away, so
    [ignore_case] changes nothing. *)
Definition regex_find_pattern (inp_string : string) (pattern : Pattern)
    (get_first : bool) (ignore_case : bool) : option string :=
  match findall pattern inp_string with
  | [] => None
  | m :: rest => Some (if get_first then m else last rest m)
  end.

Definition date_formats2pattern : list (string * Pattern) :=
  [ ("%Y%m%d_%H%M%S"%string, digits 4 ++ digits 2 ++ digits 2 ++ lit "_" ++ digits 2 ++ digits 2 ++ digits 2);
    ("%Y%m%dT%H%M%S"%string, digits 4 ++ digits 2 ++ digits 2 ++ lit "T" ++ digits 2 ++ digits 2 ++ digits 2);
    ("%Y-%m-%dT%H:%M:%S"%string,
       digits 4 ++ lit "-" ++ digits 2 ++ lit "-" ++ digits 2 ++ lit "T"
       ++ digits 2 ++ lit ":" ++ digits 2 ++ lit ":" ++ digits 2);
    ("%Y_%m_%d_%H_%M_%S"%string,
       digits 4 ++ lit "_" ++ digits 2 ++ lit "_" ++ digits 2 ++ lit "_"
       ++ digits 2 ++ lit "_" ++ digits 2 ++ lit "_" ++ digits 2);
    ("%Y-%m-%d %H %M %S"%string,
       digits 4 ++ lit "-" ++ digits 2 ++ lit "-" ++ digits 2 ++ lit " "
       ++ digits 2 ++ lit " " ++ digits 2 ++ lit " " ++ digits 2);
    ("%d%m%y_%H%M%S"%string, digits 2 ++ digits 2 ++ digits 2 ++ lit "_" ++ digits 2 ++ digits 2 ++ digits 2);
    ("%H%M_%d%b%Y"%string, digits 2 ++ digits 2 ++ lit "_" ++ digits 2 ++ letters 3 ++ digits 4);
    ("%H%M%S_%d%b%Y"%string, digits 2 ++ digits 2 ++ digits 2 ++ lit "_" ++ digits 2 ++ letters 3 ++ digits 4);
    ("%Y-%m-%d %H_%M_%S"%string,
       digits 4 ++ lit "-" ++ digits 2 ++ lit "-" ++ digits 2 ++ lit " "
       ++ digits 2 ++ lit "_" ++ digits 2 ++ lit "_" ++ digits 2);
    ("%d.%m.%Y"%string, digits 2 ++ lit "." ++ digits 2 ++ lit "." ++ digits 4) ].

(** [s.replace(old, "")]: the occurrences of [old] are cut out from left
    to right. *)
Fixpoint cut_from (old : string) (skip : nat) (s : string) : string :=
  match s with
  | EmptyString => EmptyString
  | String c t =>
      match skip with
      | S k => cut_from old k t
      | O =>
          if prefix old s then cut_from old (String.length old - 1) t
          else String c (cut_from old 0 t)
      end
  end.

Definition replace_by_nothing (s old : string) : string :=
  if String.eqb old "" then s else cut_from old 0 s.

Definition truthy (s : string) : bool := negb (String.eqb s "").

Inductive DateError := StrptimeValueError (text format : string).

Section Parse.
(** [datetime.strptime(text, format)]; [None] when it raises. *)
Variable strptime : string -> string -> option Datetime.

(** The loop of lines 64-69 over the entries of the table that are left. *)
Fixpoint first_date (inp_string : string) (date_formats : list (string * Pattern))
    : DateError + option Datetime * string :=
  match date_formats with
  | [] => inr (None, inp_string)
  | (start_date_format, start_date_pattern) :: rest =>
      match regex_find_pattern inp_string start_date_pattern true true with
      | Some start_time =>
          if truthy start_time then
            let string_wo_time := replace_by_nothing inp_string start_time in
            match strptime start_time start_date_format with
            | Some start_time => inr (Some start_time, string_wo_time)
            | None => inl (StrptimeValueError start_time start_date_format)
            end
          else first_date inp_string rest
      | None => first_date inp_string rest
      end
  end.

(** Called with the default table, none of whose patterns matches the
    empty text. *)
Definition datetime_from_string (inp_string : string)
    : DateError + option Datetime * string :=
  first_date inp_string date_formats2pattern.

End Parse.

(** *** Notions used to state the properties of the date search *)

(** The text is matched by the pattern, character by character. *)
Definition matches (p : Pattern) (m : string) : Prop :=
  Forall2 (fun k c => in_class k c = true) p (list_ascii_of_string m).

(** The pattern matches somewhere in the string. *)
Definition occurs (p : Pattern) (s : string) : Prop :=
  exists before m after, s = (before ++ m ++ after)%string /\ matches p m.

(** [m] is the leftmost match of the pattern in the string. *)
Definition leftmost (p : Pattern) (s m : string) : Prop :=
  exists before after,
    s = (before ++ m ++ after)%string /\ matches p m /\
    forall before' m' after',
      s = (before' ++ m' ++ after')%string -> matches p m' ->
      (String.length before <= String.length before')%nat.

(** The number of [\d] in a pattern. *)
Definition digit_classes (p : Pattern) : nat :=
  List.length (filter (fun k => match k with digit => true | _ => false end) p).

Fixpoint count_digits (s : string) : nat :=
  match s with
  | EmptyString => 0%nat
  | String c t => ((if is_digit c then 1 else 0) + count_digits t)%nat
  end.

End DateParse.

(** ** The catalog of auction files ([read_auction_files]) *)

Module Catalog.
Import Matcher Text Search DateParse.

(** Lines 34 and 38: region and group are read off the whole path. *)
Definition region_of (x : string) : Region :=
  if contains "DK1" x then DK1 else DK2.

Definition ida_group_of (x : string) : IDAGroup :=
  if contains "IDA1" x then IDA1 else if contains "IDA2" x then IDA2 else IDA3.

(** A row of the table before [drop_nulls]: the two dates are null when
    the path holds no date. *)
Record CatalogRow := {
  c_filepath : string;
  c_Region : Region;
  c_IDA_Group : IDAGroup;
  c_filepath_written_date : option Date;
  c_delivery_date : option Date
}.

Inductive CatalogError :=
| SearchRaised (err : SearchError)
| DateRaised (err : DateError).

(** Lines 48-53. *)
Definition delivery_date_of (ida_group : IDAGroup) (filepath_written_date : option Date)
    : option Date :=
  if IDAGroup_eqb ida_group IDA1 || IDAGroup_eqb ida_group IDA2
  then option_map (fun date => date + 1) filepath_written_date
  else filepath_written_date.

Definition drop_null_rows (rows : list CatalogRow) : list AuctionEntry :=
  flat_map (fun r =>
    match c_filepath_written_date r, c_delivery_date r with
    | Some written, Some delivery =>
        [{| filepath := c_filepath r; entry_Region := c_Region r;
            IDA_Group := c_IDA_Group r; filepath_written_date := written;
            delivery_date := delivery |}]
    | _, _ => []
    end) rows.

Section Reader.
Variable path_exists : string -> bool.
Variable scandir : string -> option (list Node).
Variable image_datasets_path : string -> string.
Variable basename : string -> string.
Variable natsorted : (string -> string) -> list string -> list string.
Variable strptime : string -> string -> option Datetime.

(** Line 44: the date found in every path; the first raise ends the run. *)
Fixpoint written_dates (files : list string) : DateError + list (option Date) :=
  match files with
  | [] => inr []
  | x :: rest =>
      match datetime_from_string strptime x with
      | inl err => inl err
      | inr (date, _) =>
          match written_dates rest with
          | inl err => inl err
          | inr dates => inr (option_map dt_date date :: dates)
          end
      end
  end.

(** Line 27. *)
Definition auction_result_files (aution_data_dir : string) : SearchError + list string :=
  search_files path_exists scandir image_datasets_path basename natsorted
    [aution_data_dir] [".csv"; "xlsx"]%string true false false false.

Definition read_auction_files (aution_data_dir : string)
    : CatalogError + list AuctionEntry :=
  match auction_result_files aution_data_dir with
  | inl err => inl (SearchRaised err)
  | inr auction_result_files =>
      match written_dates auction_result_files with
      | inl err => inl (DateRaised err)
      | inr dates =>
          let auction_results_df :=
            map (fun xd : string * option Date =>
                   let ida_group := ida_group_of (fst xd) in
                   {| c_filepath := fst xd;
                      c_Region := region_of (fst xd);
                      c_IDA_Group := ida_group;
                      c_filepath_written_date := snd xd;
                      c_delivery_date := delivery_date_of ida_group (snd xd) |})
                (combine auction_result_files dates) in
          inr (sort_by delivery_date (drop_null_rows auction_results_df))
      end
  end.

End Reader.

(** *** Notions used to state the properties of the catalog *)

(** The entry a dated path gives rise to. *)
Definition entry_of (x : string) (date : Datetime) : AuctionEntry :=
  {| filepath := x;
     entry_Region := region_of x;
     IDA_Group := ida_group_of x;
     filepath_written_date := dt_date date;
     delivery_date :=
       match ida_group_of x with
       | IDA1 | IDA2 => dt_date date + 1
       | IDA3 => dt_date date
       end |}.

(** The entries of the dated paths, in the order of the paths. *)
Definition dated_entries (strptime : string -> string -> option Datetime)
    (files : list string) : list AuctionEntry :=
  flat_map (fun x => match datetime_from_string strptime x with
                     | inr (Some date, _) => [entry_of x date]
                     | _ => []
                     end) files.

End Catalog.

(** ** Column order of the saved table ([make_df_more_readable]) *)

Module Readable.
Import Text.

(** [sorted(cols, key=lambda x: x.lower())]: a stable sort on the
    lower-cased names. *)
Fixpoint insert_by_lower (x : string) (l : list string) : list string :=
  match l with
  | [] => [x]
  | y :: t =>
      if String.leb (lower x) (lower y) then x :: y :: t
      else y :: insert_by_lower x t
  end.

Definition sorted_by_lower (l : list string) : list string :=
  fold_right insert_by_lower [] l.

(** [col in cols]. *)
Definition is_in (col : string) (cols : list string) : bool :=
  existsb (String.eqb col) cols.

Inductive SelectError :=
| ColumnNotFoundError (name : string)
| DuplicateError.

Fixpoint has_duplicate (names : list string) : bool :=
  match names with
  | [] => false
  | x :: t => is_in x t || has_duplicate t
  end.

Section Frame.
(** The contents of a column. *)
Variable C : Type.

(** A data frame seen as its named columns, from left to right. *)
Definition Table := list (string * C).

Definition columns (df : Table) : list string := map fst df.

Definition get_column (df : Table) (name : string) : option (string * C) :=
  find (fun nc => String.eqb (fst nc) name) df.

(** [df.select(names)]: every name must be a column, and no name may
    come twice. *)
Fixpoint get_columns (df : Table) (names : list string) : SelectError + Table :=
  match names with
  | [] => inr []
  | name :: rest =>
      match get_column df name with
      | None => inl (ColumnNotFoundError name)
      | Some col =>
          match get_columns df rest with
          | inl err => inl err
          | inr cols => inr (col :: cols)
          end
      end
  end.

Definition select (df : Table) (names : list string) : SelectError + Table :=
  match get_columns df names with
  | inl err => inl err
  | inr cols => if has_duplicate names then inl DuplicateError else inr cols
  end.

(** Lines 47-52. *)
Definition make_df_more_readable (pl_data : Table) : SelectError + Table :=
  let filepath_col :=
    sorted_by_lower (filter (fun col => contains "filepath" (lower col)) (columns pl_data)) in
  let price_cols :=
    sorted_by_lower (filter (fun col => contains "price" (lower col)) (columns pl_data)) in
  let time_cols :=
    sorted_by_lower (filter (fun col => contains "time" (lower col)) (columns pl_data)) in
  let other_cols :=
    sorted_by_lower
      (filter (fun col => negb (is_in col price_cols) && negb (is_in col time_cols)
                          && negb (is_in col filepath_col))
              (columns pl_data)) in
  select pl_data (filepath_col ++ time_cols ++ price_cols ++ other_cols).

End Frame.

(** *** Notions used to state the properties of the reordering *)

(** The four groups of column names. *)
Inductive Group := filepath_names | time_names | price_names | other_names.

Definition names_filepath (col : string) : bool := contains "filepath" (lower col).
Definition names_time (col : string) : bool := contains "time" (lower col).
Definition names_price (col : string) : bool := contains "price" (lower col).

Definition in_group (g : Group) (col : string) : bool :=
  match g with
  | filepath_names => names_filepath col
  | time_names => names_time col
  | price_names => names_price col
  | other_names => negb (names_filepath col) && negb (names_time col)
                   && negb (names_price col)
  end.

(** The name falls into two of the three named groups. *)
Definition ambiguous (col : string) : bool :=
  (names_filepath col && names_time col)
  || (names_filepath col && names_price col)
  || (names_time col && names_price col).

(** The selected names, group after group. *)
Definition layout (cols : list string) : list string :=
  sorted_by_lower (filter (in_group filepath_names) cols)
  ++ sorted_by_lower (filter (in_group time_names) cols)
  ++ sorted_by_lower (filter (in_group price_names) cols)
  ++ sorted_by_lower (filter (in_group other_names) cols).

Definition lower_le (a b : string) : Prop := String.leb (lower a) (lower b) = true.

End Readable.

(** ** A second concrete run: both regions, and the files on disk

    The delivery day of the first run with one auction file per region, a
    forecast file of two lines, and a small directory tree. *)

Module FullRun.
Import Auction Matcher Merger Scenario Search.

Definition catalog_both : list AuctionEntry :=
  [entry DK1 IDA1 "DK1_IDA1_a.xlsx" delivery_day;
   entry DK2 IDA1 "DK2_IDA1_a.xlsx" delivery_day].

(** A DK1 file for one day and a DK2 file for the day after, with a
    forecast for the first hour of each of the two days. *)
Definition catalog_days_apart : list AuctionEntry :=
  [entry DK1 IDA1 "DK1_IDA1_a.xlsx" delivery_day;
   entry DK2 IDA1 "DK2_IDA1_b.xlsx" (delivery_day + 1)].

Definition forecast_two_days : list ForecastRow :=
  [forecast_at (datetime (delivery_day - 1) 15 0) first_hour;
   forecast_at (datetime delivery_day 15 0) (datetime (delivery_day + 1) 0 0)].

(** The forecast file: a line that is kept and two lines holding [NA],
    one in each price column, so that every column is read as text. *)
Definition isfile (path : string) : bool := String.eqb path "forecast.csv".

Definition read_csv (path : string) : CsvFrame :=
  {| non_text_columns := [];
     csv_lines :=
       [{| csv_PTime := Some "2024-01-14 15:00:00"%string;
           csv_Time := Some "2024-01-15 00:00:00"%string;
           cor_pe_RegPrice_DK1 := Some "30"%string;
           cor_pe_RegPrice_DK2 := Some "31"%string |};
        {| csv_PTime := Some "2024-01-14 15:00:00"%string;
           csv_Time := Some "2024-01-15 01:00:00"%string;
           cor_pe_RegPrice_DK1 := Some "NA"%string;
           cor_pe_RegPrice_DK2 := Some "31"%string |};
        {| csv_PTime := Some "2024-01-14 15:00:00"%string;
           csv_Time := Some "2024-01-15 02:00:00"%string;
           cor_pe_RegPrice_DK1 := Some "30"%string;
           cor_pe_RegPrice_DK2 := Some "NA"%string |}] |}.

(** The same lines without the two [NA]: the price columns are number
    columns. *)
Definition read_csv_numbers (path : string) : CsvFrame :=
  {| non_text_columns := ["cor_pe_RegPrice.DK1"; "cor_pe_RegPrice.DK2"]%string;
     csv_lines :=
       [{| csv_PTime := Some "2024-01-14 15:00:00"%string;
           csv_Time := Some "2024-01-15 00:00:00"%string;
           cor_pe_RegPrice_DK1 := Some "30"%string;
           cor_pe_RegPrice_DK2 := Some "31"%string |}] |}.

Definition strptime (text : string) : option Datetime :=
  if String.eqb text "2024-01-14 15:00:00" then Some (datetime (delivery_day - 1) 15 0)
  else if String.eqb text "2024-01-15 00:00:00" then Some first_hour
  else None.

Definition cast_float (text : string) : option Qc :=
  if String.eqb text "30" then Some (Qc_of_Z 30)
  else if String.eqb text "31" then Some (Qc_of_Z 31)
  else None.

(** The auction directory: a file of each region, one of them in a
    sub-directory and with an upper-case extension, a text file and an
    entry that is neither file nor directory. *)
Definition auction_dir : string := "auctions".

Definition tree : list Node :=
  [File "DK1_IDA1_14.01.2024.xlsx";
   Dir "DK2" [File "IDA1_14.01.2024.XLSX"];
   File "readme.txt";
   Other "socket"].

Definition path_exists (path : string) : bool := String.eqb path auction_dir.

Definition scandir (path : string) : option (list Node) :=
  if String.eqb path auction_dir then Some tree else None.

Definition image_datasets_path (path : string) : string := path.

Definition basename (path : string) : string := path.

Definition natsorted (key : string -> string) (files : list string) : list string :=
  files.

(** Only the last format of the table is understood, and every text in
    that format is read as the day before the delivery day. *)
Definition strptime_format (text format : string) : option Datetime :=
  if String.eqb format "%d.%m.%Y" then Some (datetime (delivery_day - 1) 0 0)
  else None.

(** The columns of the table the comparison saves, each with a number
    standing for its contents. *)
Definition saved_table : Readable.Table nat :=
  [("PTime"%string, 0%nat); ("Time"%string, 1%nat);
   ("DK1_forecast_price"%string, 2%nat); ("DK2_forecast_price"%string, 3%nat);
   ("Auction_Price_DK1"%string, 4%nat); ("Auction_Price_DK2"%string, 5%nat);
   ("IDA Group"%string, 6%nat); ("Region"%string, 7%nat);
   ("Auction_Filepath"%string, 8%nat);
   ("Price_Diff_DK1"%string, 9%nat); ("Price_Diff_DK2"%string, 10%nat)].

End FullRun.

(** * Properties *)

(** ** Sorting, grouping and aggregation primitives *)

Section SortFacts.
Context {A : Type} (key : A -> Z).

Lemma insert_sorted_perm (x : A) (l : list A) :
  Permutation (insert_sorted key x l) (x :: l).
Proof.
  induction l as [|y t IH]; simpl; [reflexivity|].
  destruct (key x <=? key y); [reflexivity|].
  rewrite IH. apply perm_swap.
Qed.

Lemma sort_by_perm (l : list A) : Permutation (sort_by key l) l.
Proof.
  induction l as [|x t IH]; simpl; [constructor|].
  rewrite insert_sorted_perm. now constructor.
Qed.

Lemma sort_by_In (l : list A) (x : A) : In x (sort_by key l) <-> In x l.
Proof.
  split; apply Permutation_in; [|symmetry]; apply sort_by_perm.
Qed.

Lemma sort_by_length (l : list A) : List.length (sort_by key l) = List.length l.
Proof. apply Permutation_length, sort_by_perm. Qed.

Lemma insert_sorted_sorted (x : A) (l : list A) :
  Sorted (key_le key) l -> Sorted (key_le key) (insert_sorted key x l).
Proof.
  induction 1 as [|y t Hs IH Hd]; simpl.
  - repeat constructor.
  - destruct (key x <=? key y) eqn:E.
    + constructor; [now constructor|]. constructor. now apply Z.leb_le.
    + apply Z.leb_gt in E. constructor; [exact IH|].
      destruct t as [|z t']; simpl.
      * constructor. unfold key_le. lia.
      * destruct (key x <=? key z); constructor; unfold key_le.
        -- lia.
        -- now inversion Hd.
Qed.

Lemma sort_by_sorted (l : list A) : Sorted (key_le key) (sort_by key l).
Proof.
  induction l; simpl; [constructor|]. now apply insert_sorted_sorted.
Qed.

(** A frame already in ascending order is left as it is. *)
Lemma sort_by_sorted_id (l : list A) : Sorted (key_le key) l -> sort_by key l = l.
Proof.
  induction 1 as [|x t Hs IH Hd]; simpl; [reflexivity|].
  rewrite IH. destruct Hd as [|y t' Hxy]; simpl; [reflexivity|].
  unfold key_le in Hxy. apply Z.leb_le in Hxy. now rewrite Hxy.
Qed.

(** Selecting one key value commutes with the sort: rows of equal key
    keep their incoming order. *)
Lemma filter_eq_insert_sorted (v : Z) (x : A) (l : list A) :
  filter_eq key v (insert_sorted key x l) = filter_eq key v (x :: l).
Proof.
  unfold filter_eq. induction l as [|y t IH]; simpl; [reflexivity|].
  destruct (key x <=? key y) eqn:E; simpl; [reflexivity|].
  apply Z.leb_gt in E. rewrite IH. simpl.
  destruct (key x =? v) eqn:Ex, (key y =? v) eqn:Ey; try reflexivity.
  apply Z.eqb_eq in Ex, Ey. lia.
Qed.

Lemma filter_eq_sort_by (v : Z) (l : list A) :
  filter_eq key v (sort_by key l) = filter_eq key v l.
Proof.
  induction l as [|x t IH]; simpl; [reflexivity|].
  rewrite filter_eq_insert_sorted. unfold filter_eq in *. simpl. now rewrite IH.
Qed.

Lemma filter_eq_In (v : Z) (l : list A) (x : A) :
  In x (filter_eq key v l) <-> In x l /\ key x = v.
Proof. unfold filter_eq. rewrite filter_In, Z.eqb_eq. reflexivity. Qed.

Lemma col_min_spec (l : list A) (m : Z) :
  col_min key l = Some m ->
  (exists x, In x l /\ key x = m) /\ (forall x, In x l -> m <= key x).
Proof.
  destruct l as [|x t]; simpl; [discriminate|]. intros H. injection H as <-.
  assert (G : forall (t : list A) (a : Z),
    let r := fold_left (fun m y => Z.min m (key y)) t a in
    (r = a \/ exists y, In y t /\ key y = r) /\
    r <= a /\ forall y, In y t -> r <= key y).
  { clear. induction t as [|y t IH]; intros a; simpl.
    - split; [now left|]. split; [lia|tauto].
    - specialize (IH (Z.min a (key y))). simpl in IH.
      destruct IH as ([E|(z & Hz & E)] & Hle & Hall).
      + split; [|split].
        * destruct (Z.min_spec a (key y)) as [[_ M]|[_ M]].
          -- left. now rewrite E.
          -- right. exists y. split; [now left| now rewrite E].
        * lia.
        * intros z [<-|Hz]; [lia| now apply Hall].
      + split; [|split].
        * right. exists z. split; [now right| exact E].
        * lia.
        * intros w [<-|Hw]; [lia| now apply Hall]. }
  specialize (G t (key x)). simpl in G. destruct G as ([E|(y & Hy & E)] & Hle & Hall).
  - split; [exists x; split; [now left| congruence]|].
    intros y [<-|Hy]; [lia| now apply Hall].
  - split; [exists y; split; [now right| exact E]|].
    intros z [<-|Hz]; [lia| now apply Hall].
Qed.

Lemma col_max_spec (l : list A) (m : Z) :
  col_max key l = Some m ->
  (exists x, In x l /\ key x = m) /\ (forall x, In x l -> key x <= m).
Proof.
  destruct l as [|x t]; simpl; [discriminate|]. intros H. injection H as <-.
  assert (G : forall (t : list A) (a : Z),
    let r := fold_left (fun m y => Z.max m (key y)) t a in
    (r = a \/ exists y, In y t /\ key y = r) /\
    a <= r /\ forall y, In y t -> key y <= r).
  { clear. induction t as [|y t IH]; intros a; simpl.
    - split; [now left|]. split; [lia|tauto].
    - specialize (IH (Z.max a (key y))). simpl in IH.
      destruct IH as ([E|(z & Hz & E)] & Hle & Hall).
      + split; [|split].
        * destruct (Z.max_spec a (key y)) as [[_ M]|[_ M]].
          -- right. exists y. split; [now left| now rewrite E].
          -- left. now rewrite E.
        * lia.
        * intros z [<-|Hz]; [lia| now apply Hall].
      + split; [|split].
        * right. exists z. split; [now right| exact E].
        * lia.
        * intros w [<-|Hw]; [lia| now apply Hall]. }
  specialize (G t (key x)). simpl in G. destruct G as ([E|(y & Hy & E)] & Hle & Hall).
  - split; [exists x; split; [now left| congruence]|].
    intros y [<-|Hy]; [lia| now apply Hall].
  - split; [exists y; split; [now right| exact E]|].
    intros z [<-|Hz]; [lia| now apply Hall].
Qed.

Lemma col_min_nonempty (l : list A) : l <> [] -> exists m, col_min key l = Some m.
Proof. destruct l; [congruence|]. intros _. simpl. eauto. Qed.

End SortFacts.

(** ** The single-auction reader *)

Import Auction.

Section AuctionFacts.

Lemma bucket_key_hour (t1 t2 : Z) :
bucket_key t1 = bucket_key t2 <-> hour_index t1 = hour_index t2.
Proof.
unfold bucket_key, hour_index, dt_date, dt_hour, us_per_day, us_per_hour, us_per_minute.
split.
- intros E. injection E as E1 E2. Z.to_euclidean_division_equations. lia.
- intros E. f_equal; Z.to_euclidean_division_equations; lia.
Qed.

Lemma hour_index_row (g : IDAGroup) (date : Date) (i : nat) (qp : string * Qc) :
hour_index (q_Start_Time (row_at g date i qp))
= date * 24 + start_hour g + Z.of_nat (i / 4).
Proof.
rewrite Nat2Z.inj_div. simpl.
unfold hour_index, datetime, duration_minutes, us_per_day, us_per_hour, us_per_minute.
pose proof (Nat2Z.is_nonneg i). Z.to_euclidean_division_equations. lia.
Qed.

Lemma hour_index_datetime (date : Date) (h : Z) :
hour_index (datetime date h 0) = date * 24 + h.
Proof.
unfold hour_index, datetime, us_per_day, us_per_hour, us_per_minute.
Z.to_euclidean_division_equations. lia.
Qed.

Lemma with_start_time_timed (g : IDAGroup) (date : Date) (rows : list (string * Qc)) :
with_start_time g date rows = timed_from g date 0 rows.
Proof. reflexivity. Qed.

Lemma timed_from_app (g : IDAGroup) (date : Date) (a b : list (string * Qc)) (first : nat) :
timed_from g date first (a ++ b)
= timed_from g date first a ++ timed_from g date (first + List.length a) b.
Proof.
unfold timed_from. revert first. induction a as [|x a IH]; intros first; simpl.
- now rewrite Nat.add_0_r.
- f_equal. rewrite IH. now rewrite Nat.add_succ_r.
Qed.

Lemma timed_from_In (g : IDAGroup) (date : Date) (rows : list (string * Qc))
  (first : nat) (r : QuarterRow) :
In r (timed_from g date first rows) <->
exists i qp, nth_error rows i = Some qp /\ r = row_at g date (first + i) qp.
Proof.
unfold timed_from. revert first. induction rows as [|x t IH]; intros first; simpl.
- split; [tauto|]. intros (i & qp & H & _). destruct i; discriminate.
- rewrite IH. split.
  + intros [<-|(i & qp & H & ->)].
    * exists 0%nat, x. simpl. now rewrite Nat.add_0_r.
    * exists (S i), qp. simpl. split; [exact H|]. f_equal. lia.
  + intros (i & qp & H & ->). destruct i as [|i]; simpl in H.
    * left. injection H as ->. simpl. now rewrite Nat.add_0_r.
    * right. exists i, qp. split; [exact H|]. f_equal. lia.
Qed.

Lemma timed_from_prices (g : IDAGroup) (date : Date) (rows : list (string * Qc)) (first : nat) :
map Area_Price (timed_from g date first rows) = map snd rows.
Proof.
unfold timed_from. revert first. induction rows as [|x t IH]; intros first; simpl;
  [reflexivity|]. now rewrite IH.
Qed.


Lemma in_bucket_true (k : Z * Z) (r : QuarterRow) :
in_bucket k r = true <-> bucket_key (q_Start_Time r) = k.
Proof.
unfold in_bucket. destruct (key_eq_dec _ k); split; congruence.
Qed.

Lemma bucket_In (rows : list QuarterRow) (k : Z * Z) (r : QuarterRow) :
In r (bucket rows k) <-> In r rows /\ bucket_key (q_Start_Time r) = k.
Proof. unfold bucket. now rewrite filter_In, in_bucket_true. Qed.

Lemma bucket_keys_In (rows : list QuarterRow) (k : Z * Z) :
In k (bucket_keys rows) <-> exists r, In r rows /\ bucket_key (q_Start_Time r) = k.
Proof.
unfold bucket_keys. rewrite nodup_In, in_map_iff.
split; intros (r & H1 & H2); exists r; tauto.
Qed.

Lemma read_single_rows (read_excel : string -> list ExcelRow) (path : string)
  (g : IDAGroup) (date : Date) (region : Region) :
hourly_rows (read_single_auction_file read_excel path g date region)
= sort_by Start_Time
    (flat_map (fun k => agg (bucket (quarter_rows read_excel path g date) k))
              (bucket_keys (quarter_rows read_excel path g date))).
Proof.
unfold read_single_auction_file, group_by_date_hour.
simpl. f_equal.
induction (bucket_keys _) as [|k ks IH]; simpl; [reflexivity|]. now rewrite IH.
Qed.

Lemma agg_inv (g : list QuarterRow) (row : HourlyRow) :
In row (agg g) ->
agg g = [row] /\
mean (map Area_Price g) = Some (Area_Price_Hour row) /\
col_min q_Start_Time g = Some (Start_Time row).
Proof.
unfold agg. destruct (mean _) as [p|], (col_min _ g) as [t|]; simpl; try tauto.
intros [<-|[]]. simpl. auto.
Qed.

Lemma agg_nonempty (g : list QuarterRow) :
g <> [] -> exists row, agg g = [row].
Proof.
destruct g as [|r t]; [congruence|]. intros _. unfold agg. simpl. eauto.
Qed.

(** The earliest interval of a non-empty hourly bucket is the [:00] one. *)
Lemma bucket_min_on_hour (g : IDAGroup) (date : Date) (ps : list (string * Qc))
  (k : Z * Z) (t : Datetime) :
col_min q_Start_Time (bucket (with_start_time g date ps) k) = Some t ->
exists j : nat,
  t = datetime date (start_hour g + Z.of_nat j) 0 /\
  (4 * j < List.length ps)%nat /\ k = bucket_key t.
Proof.
intros H. apply col_min_spec in H. destruct H as ((r & Hr & Ht) & Hmin).
apply bucket_In in Hr. destruct Hr as (Hr & Hk).
rewrite with_start_time_timed in *. pose proof Hr as Hr'.
apply timed_from_In in Hr'. destruct Hr' as (i & qp & Hi & ->).
rewrite Nat.add_0_l in *.
assert (Hlen : (i < List.length ps)%nat) by (apply nth_error_Some; congruence).
pose proof (Nat.div_mod_eq i 4) as Hdm.
pose proof (Nat.mod_upper_bound i 4 ltac:(lia)) as Hmod.
destruct (nth_error ps (4 * (i / 4))) as [qp'|] eqn:Hi'.
2:{ apply nth_error_None in Hi'. lia. }
assert (Hin' : In (row_at g date (4 * (i / 4)) qp') (bucket (timed_from g date 0 ps) k)).
{ apply bucket_In. split.
  - apply timed_from_In. exists (4 * (i / 4))%nat, qp'. split; [exact Hi'| reflexivity].
  - rewrite <- Hk. apply bucket_key_hour.
    rewrite !hour_index_row. do 2 f_equal.
    rewrite Nat.mul_comm, Nat.div_mul by lia. reflexivity. }
apply Hmin in Hin'.
assert (Et : t = datetime date (start_hour g + Z.of_nat (i / 4)) 0).
{ subst t. unfold row_at in *. cbn [q_Start_Time] in *.
  unfold datetime, duration_minutes, us_per_day, us_per_hour, us_per_minute in *. lia. }
exists (i / 4)%nat. split; [exact Et|split].
- lia.
- now rewrite <- Ht.
Qed.

Lemma hourly_rows_In (read_excel : string -> list ExcelRow) (path : string)
  (g : IDAGroup) (date : Date) (region : Region) (row : HourlyRow) :
In row (hourly_rows (read_single_auction_file read_excel path g date region)) <->
exists k, In k (bucket_keys (quarter_rows read_excel path g date)) /\
          In row (agg (bucket (quarter_rows read_excel path g date) k)).
Proof. rewrite read_single_rows, sort_by_In, in_flat_map. reflexivity. Qed.

Lemma agg_key (rows : list QuarterRow) (k : Z * Z) (row : HourlyRow) :
In row (agg (bucket rows k)) -> bucket_key (Start_Time row) = k.
Proof.
intros H. apply agg_inv in H. destruct H as (_ & _ & H).
apply col_min_spec in H. destruct H as ((r & Hr & <-) & _).
now apply bucket_In in Hr.
Qed.

Lemma agg_length (g : list QuarterRow) : (List.length (agg g) <= 1)%nat.
Proof.
unfold agg. destruct (mean _), (col_min q_Start_Time g); simpl; lia.
Qed.

Lemma start_times_NoDup_aux (rows : list QuarterRow) (ks : list (Z * Z)) :
NoDup ks ->
NoDup (map Start_Time (flat_map (fun k => agg (bucket rows k)) ks)).
Proof.
induction 1 as [|k ks Hk Hnd IH]; simpl; [constructor|].
rewrite map_app. 
pose proof (agg_length (bucket rows k)) as Hl.
destruct (agg (bucket rows k)) as [|row [|row' rest]] eqn:E; simpl in *; [exact IH| |lia].
constructor; [|exact IH].
intros Hin. apply in_map_iff in Hin. destruct Hin as (row' & Et & Hin).
apply in_flat_map in Hin. destruct Hin as (k' & Hk' & Hin).
apply agg_key in Hin.
assert (Hrow : In row (agg (bucket rows k))) by (rewrite E; now left).
apply agg_key in Hrow. congruence.
Qed.

Lemma start_times_NoDup (read_excel : string -> list ExcelRow) (path : string)
  (g : IDAGroup) (date : Date) (region : Region) :
NoDup (map Start_Time
         (hourly_rows (read_single_auction_file read_excel path g date region))).
Proof.
rewrite read_single_rows.
eapply Permutation_NoDup.
- apply Permutation_map. symmetry. apply sort_by_perm.
- apply start_times_NoDup_aux. apply NoDup_nodup.
Qed.

Lemma start_times_spec (read_excel : string -> list ExcelRow) (path : string)
  (g : IDAGroup) (date : Date) (region : Region) (t : Datetime) :
In t (map Start_Time
        (hourly_rows (read_single_auction_file read_excel path g date region))) <->
exists j : nat,
  (4 * j < List.length (drop_nulls (read_excel path)))%nat /\
  t = datetime date (start_hour g + Z.of_nat j) 0.
Proof.
rewrite in_map_iff. split.
- intros (row & <- & Hrow). apply hourly_rows_In in Hrow.
  destruct Hrow as (k & _ & Hrow). apply agg_inv in Hrow.
  destruct Hrow as (_ & _ & Hmin). apply bucket_min_on_hour in Hmin.
  destruct Hmin as (j & Et & Hj & _). eauto.
- intros (j & Hj & ->).
  destruct (nth_error (drop_nulls (read_excel path)) (4 * j)) as [qp|] eqn:E.
  2:{ apply nth_error_None in E. lia. }
  set (r := row_at g date (4 * j) qp).
  assert (Hr : In r (quarter_rows read_excel path g date)).
  { unfold quarter_rows. rewrite with_start_time_timed. apply timed_from_In.
    exists (4 * j)%nat, qp. auto. }
  set (k := bucket_key (q_Start_Time r)).
  assert (Hb : In r (bucket (quarter_rows read_excel path g date) k))
    by (apply bucket_In; auto).
  destruct (agg_nonempty (bucket (quarter_rows read_excel path g date) k)) as (row & Hrow).
  { intros Hn. rewrite Hn in Hb. destruct Hb. }
  assert (Hin : In row (agg (bucket (quarter_rows read_excel path g date) k)))
    by (rewrite Hrow; now left).
  exists row. split.
  + pose proof Hin as Hin'. apply agg_inv in Hin'. destruct Hin' as (_ & _ & Hmin).
    apply bucket_min_on_hour in Hmin. destruct Hmin as (j' & Et & _ & Hk).
    rewrite Et. f_equal. f_equal.
    assert (Hh : hour_index (q_Start_Time r) = hour_index (Start_Time row))
      by (apply bucket_key_hour; exact Hk).
    rewrite Et, hour_index_datetime in Hh. unfold r in Hh.
    rewrite hour_index_row in Hh.
    rewrite Nat.mul_comm, Nat.div_mul in Hh by lia. lia.
  + apply hourly_rows_In. exists k. split; [|exact Hin].
    apply bucket_keys_In. exists r. auto.
Qed.

Lemma datetime_on_the_hour (date : Date) (h : Z) : on_the_hour (datetime date h 0).
Proof.
unfold on_the_hour, datetime, us_per_day, us_per_hour, us_per_minute.
Z.to_euclidean_division_equations. lia.
Qed.

(** C10.  Every [Start_Time] that [read_single_auction_file] returns lies on
    an hour boundary: the quarter-hour sequence is laid over the rows that
    survive [drop_nulls], starting at hour 0 of the delivery date (hour 12
    for IDA3), and the earliest interval of every hourly bucket is the
    [:00] one, [j] hours after the start for some [j] with [4 * j] below
    the number of surviving rows. *)
Theorem start_time_on_the_hour (read_excel : string -> list ExcelRow) (path : string)
  (g : IDAGroup) (date : Date) (region : Region) (row : Auction.HourlyRow) :
In row (hourly_rows (read_single_auction_file read_excel path g date region)) ->
on_the_hour (Start_Time row) /\
dt_date (datetime date (start_hour g) 0) = date /\
(exists j : nat,
   (4 * j < List.length (drop_nulls (read_excel path)))%nat /\
   Start_Time row = datetime date (start_hour g + Z.of_nat j) 0) /\
start_hour g = (if IDAGroup_eqb g IDA3 then 12 else 0).
Proof.
intros Hrow.
assert (Ht : In (Start_Time row)
               (map Start_Time
                  (hourly_rows (read_single_auction_file read_excel path g date region))))
  by now apply in_map.
apply start_times_spec in Ht. destruct Ht as (j & Hj & Et).
split; [rewrite Et; apply datetime_on_the_hour|]. split.
- unfold dt_date, datetime, us_per_day, us_per_hour, us_per_minute.
  destruct g; simpl; Z.to_euclidean_division_equations; lia.
- split; [eauto|]. now destruct g.
Qed.

Lemma in_hour_bucket (date : Date) (hour : Z) (t : Datetime) :
0 <= hour < 24 ->
in_hour date hour t = true <-> bucket_key t = bucket_key (datetime date hour 0).
Proof.
intros Hh. unfold in_hour. rewrite andb_true_iff, !Z.eqb_eq.
assert (E : bucket_key (datetime date hour 0) = (date, hour)).
{ unfold bucket_key, dt_date, dt_hour, datetime, us_per_day, us_per_hour, us_per_minute.
  f_equal; Z.to_euclidean_division_equations; lia. }
rewrite E. unfold bucket_key. split; [intros [-> ->]; reflexivity|].
intros H. now injection H.
Qed.

Lemma in_bucket_row (g : IDAGroup) (date : Date) (j : Z) (i : nat) (qp : string * Qc) :
in_bucket (bucket_key (datetime date (start_hour g + j) 0)) (row_at g date i qp) = true
<-> Z.of_nat (i / 4) = j.
Proof.
rewrite in_bucket_true, bucket_key_hour, hour_index_row, hour_index_datetime. lia.
Qed.

Lemma filter_nil_iff {A : Type} (f : A -> bool) (l : list A) :
(forall x, In x l -> f x = false) -> filter f l = [].
Proof.
induction l as [|x t IH]; simpl; [reflexivity|]. intros H.
rewrite (H x) by now left. apply IH. intros y Hy. apply H. now right.
Qed.

Lemma filter_all {A : Type} (f : A -> bool) (l : list A) :
(forall x, In x l -> f x = true) -> filter f l = l.
Proof.
induction l as [|x t IH]; simpl; [reflexivity|]. intros H.
rewrite (H x) by now left. f_equal. apply IH. intros y Hy. apply H. now right.
Qed.

Lemma bucket_timed_none (g : IDAGroup) (date : Date) (j : Z) (first : nat)
  (ps : list (string * Qc)) :
(forall i, (first <= i < first + List.length ps)%nat -> Z.of_nat (i / 4) <> j) ->
bucket (timed_from g date first ps) (bucket_key (datetime date (start_hour g + j) 0)) = [].
Proof.
intros H. apply filter_nil_iff. intros r Hr.
apply timed_from_In in Hr. destruct Hr as (i & qp & Hi & ->).
apply not_true_is_false. rewrite in_bucket_row. apply H.
assert (i < List.length ps)%nat by (apply nth_error_Some; congruence). lia.
Qed.

Lemma bucket_timed_all (g : IDAGroup) (date : Date) (j : Z) (first : nat)
  (ps : list (string * Qc)) :
(forall i, (first <= i < first + List.length ps)%nat -> Z.of_nat (i / 4) = j) ->
bucket (timed_from g date first ps) (bucket_key (datetime date (start_hour g + j) 0))
= timed_from g date first ps.
Proof.
intros H. apply filter_all. intros r Hr.
apply timed_from_In in Hr. destruct Hr as (i & qp & Hi & ->).
rewrite in_bucket_row. apply H.
assert (i < List.length ps)%nat by (apply nth_error_Some; congruence). lia.
Qed.

Lemma filter_Permutation {A : Type} (f : A -> bool) (l l' : list A) :
Permutation l l' -> Permutation (filter f l) (filter f l').
Proof.
induction 1 as [|x l l' _ IH|x y l|l l' l'' _ IH1 _ IH2]; simpl.
- constructor.
- destruct (f x); [now constructor| exact IH].
- destruct (f x), (f y); try reflexivity. apply perm_swap.
- now transitivity (filter f l').
Qed.

Lemma filter_flat_map_key {K A : Type} (p : A -> bool) (f : K -> list A)
  (ks : list K) (k0 : K) :
NoDup ks -> In k0 ks ->
(forall x, In x (f k0) -> p x = true) ->
(forall k x, In k ks -> k <> k0 -> In x (f k) -> p x = false) ->
filter p (flat_map f ks) = f k0.
Proof.
induction 1 as [|k ks Hk Hnd IH]; simpl; [tauto|].
intros [->|Hin] Hyes Hno.
- rewrite filter_app, (filter_all p (f k0)) by exact Hyes.
  rewrite filter_nil_iff; [apply app_nil_r|].
  intros x Hx. apply in_flat_map in Hx. destruct Hx as (k & Hk' & Hx).
  apply (Hno k); auto. congruence.
- rewrite filter_app, IH; auto.
  + rewrite filter_nil_iff; [reflexivity|]. intros x Hx.
    apply (Hno k); auto. congruence.
  + intros k' x Hk' Hne. apply Hno; auto.
Qed.

Lemma mean_10_20_30_40 :
mean [Qc_of_Z 10; Qc_of_Z 20; Qc_of_Z 30; Qc_of_Z 40] = Some (Qc_of_Z 25).
Proof. unfold mean. f_equal. apply Qc_is_canon. reflexivity. Qed.

(** C7.  Each hourly row of [read_single_auction_file] carries the mean of
    the prices of its [(date, hour)] bucket and the earliest interval start
    of that bucket; in particular, when the surviving rows hold the four
    consecutive prices 10, 20, 30, 40 in the quarters of hour [H] of the
    delivery date, the output has exactly one row in hour [H], with price 25
    and [Start_Time] [H:00:00]. *)
Theorem hourly_aggregation (read_excel : string -> list ExcelRow) (path : string)
  (g : IDAGroup) (date : Date) (region : Region) :
let out := hourly_rows (read_single_auction_file read_excel path g date region) in
let quarters := quarter_rows read_excel path g date in
(forall row, In row out ->
   let b := bucket quarters (bucket_key (Start_Time row)) in
   mean (map Area_Price b) = Some (Area_Price_Hour row) /\
   col_min q_Start_Time b = Some (Start_Time row)) /\
(forall (pre four post : list (string * Qc)) (k : nat),
   drop_nulls (read_excel path) = pre ++ four ++ post ->
   List.length pre = (4 * k)%nat ->
   map snd four = [Qc_of_Z 10; Qc_of_Z 20; Qc_of_Z 30; Qc_of_Z 40] ->
   start_hour g + Z.of_nat k < 24 ->
   filter (fun row => in_hour date (start_hour g + Z.of_nat k) (Start_Time row)) out
   = [{| Start_Time := datetime date (start_hour g + Z.of_nat k) 0;
         Area_Price_Hour := Qc_of_Z 25 |}]).
Proof.
intros out quarters. split.
- intros row Hrow b. apply hourly_rows_In in Hrow. destruct Hrow as (k & _ & Hrow).
  pose proof (agg_key _ _ _ Hrow) as Hk. subst b. fold quarters in Hrow.
  rewrite Hk. apply agg_inv in Hrow. tauto.
- intros pre four post k Hrows Hpre Hfour Hlt.
  set (H := start_hour g + Z.of_nat k) in *.
  set (K := bucket_key (datetime date H 0)).
  assert (Hrange : 0 <= H < 24) by (subst H; destruct g; unfold start_hour in *; lia).
  assert (Hlen4 : List.length four = 4%nat).
  { rewrite <- (length_map snd), Hfour. reflexivity. }
  (* the bucket of hour H holds exactly the four rows *)
  assert (Hb : bucket quarters K = timed_from g date (4 * k) four).
  { unfold quarters, quarter_rows. rewrite with_start_time_timed, Hrows.
    rewrite !timed_from_app. unfold bucket. rewrite !filter_app.
    fold (bucket (timed_from g date 0 pre) K).
    fold (bucket (timed_from g date (0 + List.length pre) four) K).
    fold (bucket (timed_from g date (0 + List.length pre + List.length four) post) K).
    unfold K, H. rewrite bucket_timed_none, bucket_timed_all, bucket_timed_none.
    - rewrite app_nil_r, Hpre. reflexivity.
    - intros i Hi. rewrite Hpre, Hlen4 in Hi.
      assert (k + 1 <= i / 4)%nat; [|lia].
      apply Nat.div_le_lower_bound; lia.
    - intros i Hi. rewrite Hpre, Hlen4 in Hi. f_equal.
      symmetry. apply Nat.div_unique with (r := (i - 4 * k)%nat); lia.
    - intros i Hi. rewrite Hpre in Hi.
      assert (i / 4 < k)%nat; [|lia].
      apply Nat.Div0.div_lt_upper_bound; lia. }
  assert (Hagg : agg (bucket quarters K)
                 = [{| Start_Time := datetime date H 0; Area_Price_Hour := Qc_of_Z 25 |}]).
  { rewrite Hb. unfold agg. rewrite timed_from_prices, Hfour, mean_10_20_30_40.
    destruct four as [|a [|b [|c [|d [|e rest]]]]]; try discriminate.
    unfold timed_from, col_min. simpl. do 2 f_equal.
    unfold H, datetime, duration_minutes, us_per_day, us_per_hour, us_per_minute. lia. }
  assert (HK : In K (bucket_keys quarters)).
  { apply bucket_keys_In.
    destruct (bucket quarters K) as [|r rest] eqn:E; [discriminate|].
    assert (Hr : In r (bucket quarters K)) by (rewrite E; now left).
    apply bucket_In in Hr. exists r. exact Hr. }
  apply Permutation_length_1_inv.
  rewrite <- Hagg.
  rewrite <- (filter_flat_map_key
                (fun row => in_hour date H (Start_Time row))
                (fun k => agg (bucket quarters k)) (bucket_keys quarters) K).
  + unfold out. rewrite read_single_rows. fold quarters.
    symmetry. apply filter_Permutation, sort_by_perm.
  + apply NoDup_nodup.
  + exact HK.
  + intros row Hrow. apply in_hour_bucket; [exact Hrange|].
    now apply agg_key in Hrow.
  + intros k' row _ Hne Hrow. apply not_true_is_false. intros Hp.
    apply in_hour_bucket in Hp; [|exact Hrange]. apply agg_key in Hrow.
    unfold K in Hne. congruence.
Qed.

End AuctionFacts.

(** ** The forecast loader *)

Section ForecastFacts.

Lemma nodup_length_le {A : Type} (dec : forall x y : A, {x = y} + {x <> y}) (l : list A) :
  (List.length (nodup dec l) <= List.length l)%nat.
Proof.
  induction l as [|x t IH]; simpl; [lia|].
  destruct (in_dec dec x t); simpl; lia.
Qed.

Lemma nodup_length_eq {A : Type} (dec : forall x y : A, {x = y} + {x <> y}) (l : list A) :
  List.length (nodup dec l) = List.length l <-> NoDup l.
Proof.
  split.
  - induction l as [|x t IH]; simpl; [constructor|].
    pose proof (nodup_length_le dec t) as Hle.
    destruct (in_dec dec x t) as [Hin|Hnin]; simpl; intros H; [lia|].
    constructor; [exact Hnin|]. apply IH. lia.
  - intros H. now rewrite nodup_fixed_point.
Qed.

Lemma check_unique_spec (df : list ForecastRow) :
  check_unique_time_ptime_combinations df = true <-> NoDup (map time_ptime df).
Proof.
  unfold check_unique_time_ptime_combinations.
  rewrite Nat.eqb_eq, <- (length_map time_ptime df). apply nodup_length_eq.
Qed.

(** C8.  [check_unique_time_ptime_combinations] answers true exactly when no
    two rows share their [(Time, PTime)] pair.  On an existing file whose
    lines are cleaned and converted - the cleaning returns only when every
    column was read as text, the comparison with [NA] raising otherwise -
    [read_forecast_df] with the validation enabled raises the uniqueness
    error exactly when the check is false on the cleaned table and returns
    that table otherwise; so a table it returns never holds a duplicate
    pair. *)
Theorem unique_time_ptime_validation :
  (forall df : list ForecastRow,
     check_unique_time_ptime_combinations df = true <->
     NoDup (map time_ptime df)) /\
  (forall isfile read_csv strptime cast_float path lines parsed,
     isfile path = true ->
     clean (read_csv path) = inr lines ->
     convert_all strptime cast_float lines = Some parsed ->
     let cleaned := sort_by PTime parsed in
     read_forecast_df isfile read_csv strptime cast_float (Some path) true
     = if check_unique_time_ptime_combinations cleaned
       then inr cleaned else inl NotUnique) /\
  (forall isfile read_csv strptime cast_float forecast_path df,
     read_forecast_df isfile read_csv strptime cast_float forecast_path true = inr df ->
     NoDup (map time_ptime df)).
Proof.
  split; [exact check_unique_spec|]. split.
  - intros isfile read_csv strptime cast_float path lines parsed Hf Hc Hp cleaned.
    unfold read_forecast_df. rewrite Hf, Hc, Hp. simpl. fold cleaned.
    now destruct (check_unique_time_ptime_combinations cleaned).
  - intros isfile read_csv strptime cast_float [path|] df; simpl; [|discriminate].
    destruct (isfile path); simpl; [|discriminate].
    destruct (clean (read_csv path)) as [err|lines]; [discriminate|].
    destruct (convert_all _ _ _) as [parsed|]; [|discriminate].
    destruct (check_unique_time_ptime_combinations (sort_by PTime parsed)) eqn:E;
      simpl; [|discriminate].
    intros H. injection H as <-. now apply check_unique_spec.
Qed.

End ForecastFacts.

(** ** The matcher *)

Import Matcher.

Section MatcherFacts.

(** The integer key orders the catalog as the three columns do. *)
Lemma catalog_key_lexicographic (a b : AuctionEntry) :
  catalog_key a <= catalog_key b <->
  delivery_date a < delivery_date b \/
  (delivery_date a = delivery_date b /\
   (Region_rank (entry_Region a) < Region_rank (entry_Region b) \/
    (Region_rank (entry_Region a) = Region_rank (entry_Region b) /\
     IDAGroup_rank (IDA_Group a) <= IDAGroup_rank (IDA_Group b)))).
Proof.
  unfold catalog_key.
  destruct (entry_Region a), (entry_Region b), (IDA_Group a), (IDA_Group b);
    simpl; lia.
Qed.

Lemma in_hour_interval (date : Date) (hour : Z) (t : Datetime) :
  0 <= hour < 24 ->
  in_hour date hour t = true <->
  datetime date hour 0 <= t < datetime date (hour + 1) 0.
Proof.
  intros Hh. unfold in_hour. rewrite andb_true_iff, !Z.eqb_eq.
  unfold dt_date, dt_hour, datetime, us_per_day, us_per_hour, us_per_minute.
  split.
  - intros [H1 H2]. Z.to_euclidean_division_equations. lia.
  - intros H. split; Z.to_euclidean_division_equations; lia.
Qed.

Lemma ptime_hour_needed_range (g : IDAGroup) : 0 <= ptime_hour_needed g < 24.
Proof. destruct g; unfold ptime_hour_needed; simpl; lia. Qed.

Lemma filter_filter {A : Type} (f g : A -> bool) (l : list A) :
  filter f (filter g l) = filter (fun x => g x && f x) l.
Proof.
  induction l as [|x t IH]; simpl; [reflexivity|].
  destruct (g x); simpl; [destruct (f x)|]; now rewrite IH.
Qed.

Lemma forecasts_for_auction_filter (forecast_df : list ForecastRow) (e : AuctionEntry) :
  forecasts_for_auction forecast_df e = sort_by Time (filter (issued_for e) forecast_df).
Proof.
  unfold forecasts_for_auction. f_equal. rewrite filter_filter.
  apply filter_ext. intros r. unfold issued_for, in_hour, minus_days.
  destruct (dt_date (PTime r) =? delivery_date e),
           (dt_date (PTime r) =? delivery_date e - 1),
           (dt_hour (PTime r) =? ptime_hour_needed (IDA_Group e)); reflexivity.
Qed.

(** C5.  The forecasts selected for a catalog entry, before the narrowing to
    the auction's time window, are exactly the forecast rows issued on the
    delivery date or on the day before it, at hour 15 for IDA1, 22 for IDA2
    and 10 for IDA3 -- with their multiplicities, and nothing else. *)
Theorem issuance_hour_rule (forecast_df : list ForecastRow) (e : AuctionEntry) :
  let h := ptime_hour_needed (IDA_Group e) in
  let d := delivery_date e in
  h = match IDA_Group e with IDA1 => 15 | IDA2 => 22 | IDA3 => 10 end /\
  Permutation (forecasts_for_auction forecast_df e)
              (filter (issued_for e) forecast_df) /\
  (forall r, In r (forecasts_for_auction forecast_df e) <->
     In r forecast_df /\
     ((dt_date (PTime r) = d \/ dt_date (PTime r) = d - 1) /\ dt_hour (PTime r) = h)) /\
  (forall r, In r (forecasts_for_auction forecast_df e) ->
     datetime d h 0 <= PTime r < datetime d (h + 1) 0 \/
     datetime (d - 1) h 0 <= PTime r < datetime (d - 1) (h + 1) 0).
Proof.
  intros h d.
  assert (Hin : forall r, In r (forecasts_for_auction forecast_df e) <->
     In r forecast_df /\
     ((dt_date (PTime r) = d \/ dt_date (PTime r) = d - 1) /\ dt_hour (PTime r) = h)).
  { intros r. rewrite forecasts_for_auction_filter, sort_by_In, filter_In.
    unfold issued_for, in_hour. fold h d.
    rewrite orb_true_iff, !andb_true_iff, !Z.eqb_eq. tauto. }
  split; [now destruct (IDA_Group e)|]. split; [|split].
  - rewrite forecasts_for_auction_filter. apply sort_by_perm.
  - exact Hin.
  - intros r Hr. apply Hin in Hr. destruct Hr as (_ & [Hd|Hd] & Hh); [left|right];
      apply in_hour_interval; try apply ptime_hour_needed_range;
      unfold in_hour; fold h d; rewrite andb_true_iff, !Z.eqb_eq; auto.
Qed.

Lemma filter_key_NoDup {A : Type} (key : A -> Z) (v : Z) (l : list A) :
  NoDup (map key l) ->
  filter_eq key v l = [] \/ exists a, filter_eq key v l = [a].
Proof.
  unfold filter_eq. induction l as [|x t IH]; simpl; [now left|].
  intros Hnd. inversion Hnd as [|? ? Hx Ht]; subst.
  destruct (key x =? v) eqn:E.
  - right. exists x. f_equal. apply filter_nil_iff. intros y Hy.
    apply Z.eqb_eq in E. apply Z.eqb_neq. intros Ey. apply Hx.
    apply in_map_iff. exists y. split; [lia| exact Hy].
  - now apply IH.
Qed.

Lemma NoDup_map_filter {A B : Type} (key : A -> B) (f : A -> bool) (l : list A) :
  NoDup (map key l) -> NoDup (map key (filter f l)).
Proof.
  induction l as [|x t IH]; simpl; [auto|].
  intros Hnd. inversion Hnd as [|? ? Hx Ht]; subst.
  destruct (f x); simpl; [|now apply IH].
  constructor; [|now apply IH].
  intros Hin. apply Hx. apply in_map_iff in Hin. destruct Hin as (y & Ey & Hy).
  apply in_map_iff. exists y. apply filter_In in Hy. tauto.
Qed.

Lemma left_join_cons (l : ForecastRow) (t : list ForecastRow) (right : list HourlyRow) :
  left_join (l :: t) right
  = match filter_eq Start_Time (Time l) right with
    | [] => [(l, None)]
    | a :: ms => map (fun a => (l, Some (Area_Price_Hour a))) (a :: ms)
    end ++ left_join t right.
Proof. reflexivity. Qed.

Lemma left_join_map (left : list ForecastRow) (right : list HourlyRow) :
  NoDup (map Start_Time right) ->
  left_join left right = map (fun l => (l, joined_price right l)) left.
Proof.
  intros Hnd. induction left as [|l t IH]; [reflexivity|].
  rewrite left_join_cons, IH. clear IH. unfold joined_price. simpl.
  destruct (filter_key_NoDup Start_Time (Time l) right Hnd) as [E|[a E]];
    rewrite E; reflexivity.
Qed.

Lemma joined_price_found (right : list HourlyRow) (l : ForecastRow) (a : HourlyRow) :
  NoDup (map Start_Time right) -> In a right -> Start_Time a = Time l ->
  joined_price right l = Some (Area_Price_Hour a).
Proof.
  intros Hnd Ha Et. unfold joined_price.
  assert (Hin : In a (filter_eq Start_Time (Time l) right))
    by (apply filter_eq_In; auto).
  destruct (filter_key_NoDup Start_Time (Time l) right Hnd) as [E|[a' E]];
    rewrite E in *; [destruct Hin|].
  destruct Hin as [->|[]]. reflexivity.
Qed.

Lemma joined_price_missing (right : list HourlyRow) (l : ForecastRow) :
  (forall a, In a right -> Start_Time a <> Time l) ->
  joined_price right l = None.
Proof.
  intros H. unfold joined_price.
  destruct (filter_eq Start_Time (Time l) right) as [|a rest] eqn:E; [reflexivity|].
  assert (Hin : In a (filter_eq Start_Time (Time l) right)) by (rewrite E; now left).
  apply filter_eq_In in Hin. destruct Hin as [Ha Et]. now apply H in Ha.
Qed.

Lemma auction_df_relevant_In (auction_df : list HourlyRow)
    (relevant : list ForecastRow) (l : ForecastRow) (a : HourlyRow) :
  In l relevant -> In a auction_df -> Start_Time a = Time l ->
  In a (auction_df_relevant auction_df relevant).
Proof.
  intros Hl Ha Et. unfold auction_df_relevant. apply filter_In. split; [exact Ha|].
  destruct (col_min_nonempty Time relevant) as [m Hm].
  { intros ->. destruct Hl. }
  destruct relevant as [|x t] eqn:E; [destruct Hl|]. rewrite <- E in *.
  assert (exists M, col_max Time relevant = Some M) as [M HM]
    by (rewrite E; simpl; eauto).
  rewrite Hm, HM. simpl.
  apply col_min_spec in Hm. apply col_max_spec in HM.
  destruct Hm as [_ Hm], HM as [_ HM]. specialize (Hm l Hl). specialize (HM l Hl).
  apply andb_true_iff. split; apply Z.leb_le; lia.
Qed.

(** C6.  When the matcher succeeds on an entry, the joined table holds the
    narrowed forecast rows one for one and in order; a row carries the
    hourly auction price whose [Start_Time] equals its [Time], and null when
    there is none; no row is duplicated, the hourly start times being
    pairwise distinct. *)
Theorem left_join_keeps_every_forecast_row (read_excel : string -> list ExcelRow)
    (forecast_df : list ForecastRow) (e : AuctionEntry) (joined : JoinedFrame) :
  match_entry read_excel forecast_df e = inr joined ->
  let auction_df :=
    hourly_rows (read_single_auction_file read_excel (filepath e) (IDA_Group e)
                   (delivery_date e) (entry_Region e)) in
  let relevant :=
    relevant_forecasts auction_df (forecasts_for_auction forecast_df e) in
  NoDup (map Start_Time auction_df) /\
  map j_forecast (joined_rows joined) = relevant /\
  auction_price_column joined = entry_Region e /\
  (forall row, In row (joined_rows joined) ->
     (forall a, In a auction_df -> Start_Time a = Time (j_forecast row) ->
        j_Auction_Price row = Some (Area_Price_Hour a)) /\
     ((forall a, In a auction_df -> Start_Time a <> Time (j_forecast row)) ->
        j_Auction_Price row = None) /\
     j_IDA_Group row = IDA_Group e /\
     j_Region row = entry_Region e /\
     j_Auction_Filepath row = filepath e).
Proof.
  intros Hm auction_df relevant.
  assert (Hnd : NoDup (map Start_Time auction_df)) by apply start_times_NoDup.
  unfold match_entry in Hm. fold auction_df in Hm.
  destruct (List.length (forecasts_for_auction forecast_df e) =? 0)%nat; [discriminate|].
  fold relevant in Hm.
  destruct (List.length relevant =? 0)%nat; [discriminate|].
  injection Hm as <-. simpl.
  assert (Hnd' : NoDup (map Start_Time (auction_df_relevant auction_df relevant)))
    by (apply NoDup_map_filter, Hnd).
  rewrite (left_join_map _ _ Hnd'), map_map. simpl.
  split; [exact Hnd|]. split; [|split; [reflexivity|]].
  - rewrite map_map. simpl. apply map_id.
  - intros row Hrow. rewrite map_map in Hrow.
    apply in_map_iff in Hrow. destruct Hrow as (l & <- & Hl). simpl.
    split; [|split; [|auto]].
    + intros a Ha Et. apply joined_price_found; auto.
      now apply auction_df_relevant_In with (l := l).
    + intros Hno. apply joined_price_missing. intros a Ha.
      apply Hno. unfold auction_df_relevant in Ha. now apply filter_In in Ha.
Qed.

Lemma entries_to_process_In (forecast_df : list ForecastRow)
    (catalog : list AuctionEntry) (e : AuctionEntry) :
  In e (entries_to_process forecast_df catalog) <->
  In e catalog /\ has_forecast_horizon forecast_df e.
Proof.
  unfold entries_to_process, has_forecast_horizon.
  rewrite sort_by_In, filter_In, existsb_exists.
  split; intros [He H]; (split; [exact He|]).
  - destruct H as (d & Hd & Ed). apply in_map_iff in Hd.
    destruct Hd as (r & <- & Hr). apply Z.eqb_eq in Ed. eauto.
  - destruct H as (r & Hr & Ed). exists (dt_date (Time r)). split.
    + apply in_map_iff. eauto.
    + apply Z.eqb_eq. auto.
Qed.

Lemma match_entry_no_forecasts (read_excel : string -> list ExcelRow)
    (forecast_df : list ForecastRow) (e : AuctionEntry) :
  forecasts_for_auction forecast_df e = [] ->
  match_entry read_excel forecast_df e = inl (NoForecasts e).
Proof. intros H. unfold match_entry. now rewrite H. Qed.

Lemma match_entry_error_entry (read_excel : string -> list ExcelRow)
    (forecast_df : list ForecastRow) (e : AuctionEntry) (err : MatchError) :
  match_entry read_excel forecast_df e = inl err -> error_entry err = e.
Proof.
  unfold match_entry.
  destruct (List.length (forecasts_for_auction forecast_df e) =? 0)%nat;
    [intros H; now injection H as <-|].
  destruct (List.length _ =? 0)%nat; [intros H; now injection H as <-| discriminate].
Qed.

Lemma match_loop_aborts (read_excel : string -> list ExcelRow)
    (forecast_df : list ForecastRow) (entries : list AuctionEntry)
    (e : AuctionEntry) (err0 : MatchError) (acc : list JoinedFrame) :
  In e entries -> match_entry read_excel forecast_df e = inl err0 ->
  exists err, match_loop read_excel forecast_df entries acc = inl err /\
              In (error_entry err) entries.
Proof.
  revert acc. induction entries as [|x t IH]; intros acc Hin He; [destruct Hin|].
  simpl. destruct (match_entry read_excel forecast_df x) as [err|jf] eqn:Ex.
  - exists err. split; [reflexivity|]. left. symmetry.
    now apply match_entry_error_entry in Ex.
  - destruct Hin as [->|Hin]; [congruence|].
    destruct (IH (acc ++ [jf]) Hin He) as (err & Hl & Herr).
    exists err. split; [exact Hl| now right].
Qed.

Lemma match_loop_first_failure (read_excel : string -> list ExcelRow)
    (forecast_df : list ForecastRow) (pre post : list AuctionEntry)
    (e : AuctionEntry) (err : MatchError) (acc : list JoinedFrame) :
  Forall (fun e' => exists jf, match_entry read_excel forecast_df e' = inr jf) pre ->
  match_entry read_excel forecast_df e = inl err ->
  match_loop read_excel forecast_df (pre ++ e :: post) acc = inl err.
Proof.
  intros Hpre He. revert acc. induction Hpre as [|x t [jf Hx] _ IH]; intros acc; simpl.
  - now rewrite He.
  - rewrite Hx. apply IH.
Qed.

(** C3, amended.  If a catalog entry whose delivery date is the date of some
    forecast horizon has no forecast at its issuance hour, the run raises
    and returns no table; the error carries the first offending entry in
    processing order, which is this entry when all entries before it
    succeed.  (An entry whose delivery date matches no forecast horizon is
    removed before the loop and raises nothing.) *)
Theorem missing_forecast_aborts_unless_prefiltered
    (read_excel : string -> list ExcelRow)
    (forecast_df : list ForecastRow) (all_auctions_df : list AuctionEntry)
    (e : AuctionEntry) :
  In e all_auctions_df ->
  has_forecast_horizon forecast_df e ->
  forecasts_for_auction forecast_df e = [] ->
  exists err,
    match_auction_with_forecast read_excel forecast_df all_auctions_df = inl err /\
    In (error_entry err) all_auctions_df /\
    (forall pre post,
       entries_to_process forecast_df all_auctions_df = pre ++ e :: post ->
       Forall (fun e' => exists jf, match_entry read_excel forecast_df e' = inr jf) pre ->
       err = NoForecasts e).
Proof.
  intros Hin Hh Hnone.
  pose proof (match_entry_no_forecasts read_excel _ _ Hnone) as He.
  assert (Hp : In e (entries_to_process forecast_df all_auctions_df))
    by (apply entries_to_process_In; auto).
  destruct (match_loop_aborts read_excel forecast_df _ e _ [] Hp He) as (err & Hl & Herr).
  exists err. unfold match_auction_with_forecast. split; [exact Hl|]. split.
  - now apply entries_to_process_In in Herr.
  - intros pre post Hsplit Hpre. rewrite Hsplit in Hl.
    rewrite (match_loop_first_failure read_excel forecast_df pre post e _ [] Hpre He) in Hl.
    congruence.
Qed.

(** An entry the pre-filter removes never reaches the loop. *)
Lemma prefiltered_entry_skipped (read_excel : string -> list ExcelRow)
    (forecast_df : list ForecastRow) (all_auctions_df : list AuctionEntry)
    (e : AuctionEntry) :
  ~ has_forecast_horizon forecast_df e ->
  ~ In e (entries_to_process forecast_df all_auctions_df).
Proof. intros Hn Hin. apply entries_to_process_In in Hin. tauto. Qed.

End MatcherFacts.

(** ** The merger *)

Import Merger.

Section MergerFacts.

Lemma concat_all_fold (ms : list JoinedFrame) (acc : DataFrame) :
  let df := fold_left concat_diagonal ms acc in
  rows df = rows acc ++ all_rows ms /\
  has_Time df = (has_Time acc || negb (Nat.eqb (List.length ms) 0)) /\
  has_Auction_Price_DK1 df = (has_Auction_Price_DK1 acc || brings_column DK1 ms) /\
  has_Auction_Price_DK2 df = (has_Auction_Price_DK2 acc || brings_column DK2 ms).
Proof.
  revert acc. induction ms as [|m ms IH]; intros acc; simpl.
  - now rewrite app_nil_r, !orb_false_r.
  - destruct (IH (concat_diagonal acc m)) as (Hr & Ht & H1 & H2).
    simpl in *. rewrite Hr, Ht, H1, H2, <- app_assoc, !orb_assoc.
    rewrite !orb_true_r. auto.
Qed.

Lemma concat_all_rows (ms : list JoinedFrame) : rows (concat_all ms) = all_rows ms.
Proof. unfold concat_all. now destruct (concat_all_fold ms empty_DataFrame) as (-> & _). Qed.

Lemma concat_all_has_Time (ms : list JoinedFrame) :
  has_Time (concat_all ms) = negb (Nat.eqb (List.length ms) 0).
Proof. unfold concat_all. now destruct (concat_all_fold ms empty_DataFrame) as (_ & -> & _). Qed.

Lemma concat_all_has_DK1 (ms : list JoinedFrame) :
  has_Auction_Price_DK1 (concat_all ms) = brings_column DK1 ms.
Proof.
  unfold concat_all. now destruct (concat_all_fold ms empty_DataFrame) as (_ & _ & -> & _).
Qed.

Lemma concat_all_has_DK2 (ms : list JoinedFrame) :
  has_Auction_Price_DK2 (concat_all ms) = brings_column DK2 ms.
Proof.
  unfold concat_all. now destruct (concat_all_fold ms empty_DataFrame) as (_ & _ & _ & ->).
Qed.

Lemma flat_map_ext_in {A B : Type} (f g : A -> list B) (l : list A) :
  (forall x, In x l -> f x = g x) -> flat_map f l = flat_map g l.
Proof.
  induction l as [|x t IH]; simpl; [reflexivity|]. intros H.
  rewrite (H x) by now left. f_equal. apply IH. intros y Hy. apply H. now right.
Qed.

Lemma filter_not_None (vals : list (option Qc)) :
  filter is_not_None vals = map Some (non_null_values vals).
Proof.
  induction vals as [|[x|] t IH]; simpl; [reflexivity| |exact IH]. now rewrite IH.
Qed.

Lemma non_null_values_length (vals : list (option Qc)) :
  (List.length (non_null_values vals) <= List.length vals)%nat.
Proof. induction vals as [|[x|] t IH]; simpl; lia. Qed.

Lemma compact_values_shape (vals : list (option Qc)) :
  compact_values vals
  = map Some (non_null_values vals)
    ++ repeat None (List.length vals - List.length (non_null_values vals)).
Proof. unfold compact_values. now rewrite filter_not_None, length_map. Qed.

Lemma compact_values_length (vals : list (option Qc)) :
  List.length (compact_values vals) = List.length vals.
Proof.
  rewrite compact_values_shape, length_app, length_map, repeat_length.
  pose proof (non_null_values_length vals). lia.
Qed.

Lemma non_null_values_app (a b : list (option Qc)) :
  non_null_values (a ++ b) = non_null_values a ++ non_null_values b.
Proof. unfold non_null_values. apply flat_map_app. Qed.

Lemma non_null_values_Some (a : list Qc) : non_null_values (map Some a) = a.
Proof. induction a as [|x t IH]; simpl; [reflexivity|]. now rewrite IH. Qed.

Lemma non_null_values_None (n : nat) : non_null_values (repeat None n) = [].
Proof. induction n; simpl; auto. Qed.

(** Compaction moves values and loses none. *)
Lemma non_null_values_compact (vals : list (option Qc)) :
  non_null_values (compact_values vals) = non_null_values vals.
Proof.
  rewrite compact_values_shape, non_null_values_app, non_null_values_Some,
    non_null_values_None. apply app_nil_r.
Qed.

Lemma with_column_map {B : Type} (set : MergedRow -> option Qc -> MergedRow)
    (f : MergedRow -> B) (l : list MergedRow) (vals : list (option Qc)) :
  (forall r v, f (set r v) = f r) ->
  List.length vals = List.length l ->
  map f (with_column set l vals) = map f l.
Proof.
  intros Hf. unfold with_column. revert vals.
  induction l as [|r t IH]; intros [|v vs] Hl; simpl in *; try discriminate; [reflexivity|].
  rewrite Hf. f_equal. apply IH. lia.
Qed.

Lemma with_column_set (set : MergedRow -> option Qc -> MergedRow)
    (get : MergedRow -> option Qc) (l : list MergedRow) (vals : list (option Qc)) :
  (forall r v, get (set r v) = v) ->
  List.length vals = List.length l ->
  map get (with_column set l vals) = vals.
Proof.
  intros Hf. unfold with_column. revert vals.
  induction l as [|r t IH]; intros [|v vs] Hl; simpl in *; try discriminate; [reflexivity|].
  rewrite Hf. f_equal. apply IH. lia.
Qed.

Lemma compact_rows_DK1 (l : list MergedRow) :
  map Auction_Price_DK1 (compact_rows l) = compact_values (map Auction_Price_DK1 l).
Proof.
  unfold compact_rows.
  rewrite (with_column_map set_Auction_Price_DK2 Auction_Price_DK1); [|reflexivity|].
  - apply with_column_set; [reflexivity|]. now rewrite compact_values_length, length_map.
  - rewrite compact_values_length, !length_map. reflexivity.
Qed.

Lemma compact_rows_DK2 (l : list MergedRow) :
  map Auction_Price_DK2 (compact_rows l) = compact_values (map Auction_Price_DK2 l).
Proof.
  unfold compact_rows.
  rewrite with_column_set; [|reflexivity|].
  - f_equal. apply with_column_map; [reflexivity|].
    now rewrite compact_values_length, length_map.
  - rewrite compact_values_length, !length_map. reflexivity.
Qed.

Lemma compact_rows_map {B : Type} (f : MergedRow -> B) (l : list MergedRow) :
  (forall r v, f (set_Auction_Price_DK1 r v) = f r) ->
  (forall r v, f (set_Auction_Price_DK2 r v) = f r) ->
  map f (compact_rows l) = map f l.
Proof.
  intros H1 H2. unfold compact_rows.
  rewrite (with_column_map set_Auction_Price_DK2 f); [|exact H2|].
  - apply with_column_map; [exact H1|]. now rewrite compact_values_length, length_map.
  - rewrite compact_values_length, !length_map. reflexivity.
Qed.

Lemma compact_rows_Time (l : list MergedRow) :
  map m_Time (compact_rows l) = map m_Time l.
Proof. apply compact_rows_map; reflexivity. Qed.

Lemma compact_rows_length (l : list MergedRow) :
  List.length (compact_rows l) = List.length l.
Proof. rewrite <- (length_map m_Time), compact_rows_Time. apply length_map. Qed.

(** In a frame whose two price columns are compacted, the rows that keep
    an auction price are the leading ones. *)
Lemma leading_rows_survive (l : list MergedRow) (a1 a2 : list Qc) (k1 k2 : nat) :
  map Auction_Price_DK1 l = map Some a1 ++ repeat None k1 ->
  map Auction_Price_DK2 l = map Some a2 ++ repeat None k2 ->
  filter has_auction_price l
  = firstn (Nat.max (List.length a1) (List.length a2)) l.
Proof.
  revert a1 a2 k1 k2. induction l as [|r t IH]; intros a1 a2 k1 k2 H1 H2.
  - now rewrite firstn_nil.
  - unfold has_auction_price, all_auction_values_null in *. simpl in H1, H2 |- *.
    destruct a1 as [|x1 a1], a2 as [|x2 a2]; simpl in H1, H2;
      try (destruct k1 as [|k1]; [discriminate|]; simpl in H1);
      try (destruct k2 as [|k2]; [discriminate|]; simpl in H2);
      injection H1 as E1 H1; injection H2 as E2 H2; rewrite E1, E2; simpl.
    + apply (IH [] [] k1 k2); assumption.
    + f_equal. apply (IH [] a2 k1 k2); assumption.
    + f_equal. rewrite (IH a1 [] k1 k2) by assumption. now rewrite Nat.max_0_r.
    + f_equal. apply (IH a1 a2 k1 k2); assumption.
Qed.

Lemma compact_rows_survivors (l : list MergedRow) :
  filter has_auction_price (compact_rows l)
  = firstn (Nat.max (List.length (non_null_values (map Auction_Price_DK1 l)))
                    (List.length (non_null_values (map Auction_Price_DK2 l))))
           (compact_rows l).
Proof.
  eapply leading_rows_survive.
  - rewrite compact_rows_DK1. apply compact_values_shape.
  - rewrite compact_rows_DK2. apply compact_values_shape.
Qed.

Lemma has_auction_price_or (r : MergedRow) :
  has_auction_price r
  = is_not_None (Auction_Price_DK1 r) || is_not_None (Auction_Price_DK2 r).
Proof.
  unfold has_auction_price, all_auction_values_null.
  now destruct (Auction_Price_DK1 r), (Auction_Price_DK2 r).
Qed.

Lemma survivors_keep_DK1 (l : list MergedRow) :
  non_null_values (map Auction_Price_DK1 (filter has_auction_price l))
  = non_null_values (map Auction_Price_DK1 l).
Proof.
  induction l as [|r t IH]; simpl; [reflexivity|].
  rewrite has_auction_price_or.
  destruct (Auction_Price_DK1 r) eqn:E1, (Auction_Price_DK2 r) eqn:E2; simpl;
    rewrite ?E1, ?E2; simpl; now rewrite IH.
Qed.

Lemma survivors_keep_DK2 (l : list MergedRow) :
  non_null_values (map Auction_Price_DK2 (filter has_auction_price l))
  = non_null_values (map Auction_Price_DK2 l).
Proof.
  induction l as [|r t IH]; simpl; [reflexivity|].
  rewrite has_auction_price_or.
  destruct (Auction_Price_DK1 r) eqn:E1, (Auction_Price_DK2 r) eqn:E2; simpl;
    rewrite ?E1, ?E2; simpl; now rewrite IH.
Qed.

Lemma filter_eq_all {A : Type} (key : A -> Z) (v : Z) (l : list A) :
  filter_eq key v (filter_eq key v l) = filter_eq key v l.
Proof.
  apply filter_all. intros x Hx. apply filter_eq_In in Hx. now apply Z.eqb_eq.
Qed.

Lemma filter_comm {A : Type} (f g : A -> bool) (l : list A) :
  filter f (filter g l) = filter g (filter f l).
Proof.
  induction l as [|x t IH]; simpl; [reflexivity|].
  destruct (f x) eqn:Ef, (g x) eqn:Eg; simpl; rewrite ?Ef, ?Eg, IH; reflexivity.
Qed.

Lemma compact_rows_at (T t : Z) (l : list MergedRow) :
  filter_eq m_Time T (compact_rows (filter_eq m_Time t l))
  = if T =? t then compact_rows (filter_eq m_Time t l) else [].
Proof.
  assert (Hall : forall r, In r (compact_rows (filter_eq m_Time t l)) -> m_Time r = t).
  { intros r Hr. apply (in_map m_Time) in Hr. rewrite compact_rows_Time in Hr.
    apply in_map_iff in Hr. destruct Hr as (r' & <- & Hr').
    now apply filter_eq_In in Hr'. }
  destruct (T =? t) eqn:E.
  - apply Z.eqb_eq in E. subst T. apply filter_all. intros r Hr.
    apply Z.eqb_eq. auto.
  - apply Z.eqb_neq in E. apply filter_nil_iff. intros r Hr.
    apply Z.eqb_neq. rewrite (Hall r Hr). auto.
Qed.

Lemma prices_at_table (reg : Region) (T : Datetime) (df : JoinedFrame) :
  non_null_values
    (map (fun r => match reg with
                   | DK1 => Auction_Price_DK1 r
                   | DK2 => Auction_Price_DK2 r
                   end)
         (filter_eq m_Time T (map (widen (auction_price_column df)) (joined_rows df))))
  = if Region_eqb (auction_price_column df) reg
    then non_null_values
           (map j_Auction_Price
              (filter (fun r => Time (j_forecast r) =? T) (joined_rows df)))
    else [].
Proof.
  unfold filter_eq. induction (joined_rows df) as [|r t IH]; simpl.
  - now destruct (Region_eqb _ _).
  - unfold m_Time at 1. simpl. destruct (Time (j_forecast r) =? T); simpl; [|exact IH].
    rewrite IH. destruct (auction_price_column df), reg; simpl; try reflexivity;
      now destruct (j_Auction_Price r).
Qed.

Lemma filter_eq_app {A : Type} (key : A -> Z) (v : Z) (a b : list A) :
  filter_eq key v (a ++ b) = filter_eq key v a ++ filter_eq key v b.
Proof. apply filter_app. Qed.

Lemma prices_at_DK1 (T : Datetime) (ms : list JoinedFrame) :
  non_null_values (map Auction_Price_DK1 (filter_eq m_Time T (all_rows ms)))
  = auction_prices_at DK1 T ms.
Proof.
  induction ms as [|df ms IH]; simpl; [reflexivity|].
  rewrite filter_eq_app, map_app, non_null_values_app, IH. f_equal.
  apply (prices_at_table DK1).
Qed.

Lemma prices_at_DK2 (T : Datetime) (ms : list JoinedFrame) :
  non_null_values (map Auction_Price_DK2 (filter_eq m_Time T (all_rows ms)))
  = auction_prices_at DK2 T ms.
Proof.
  induction ms as [|df ms IH]; simpl; [reflexivity|].
  rewrite filter_eq_app, map_app, non_null_values_app, IH. f_equal.
  apply (prices_at_table DK2).
Qed.

Lemma prices_bring_column (reg : Region) (T : Datetime) (ms : list JoinedFrame) :
  auction_prices_at reg T ms <> [] -> brings_column reg ms = true.
Proof.
  induction ms as [|df ms IH]; simpl; [congruence|].
  destruct (Region_eqb (auction_price_column df) reg); simpl; auto.
Qed.

Lemma count_occ_filter_eq {A : Type} (key : A -> Z) (v : Z) (l : list A) :
  count_occ Z.eq_dec (map key l) v = List.length (filter_eq key v l).
Proof.
  unfold filter_eq. induction l as [|x t IH]; simpl; [reflexivity|].
  destruct (Z.eq_dec (key x) v) as [E|E].
  - apply Z.eqb_eq in E. rewrite E. simpl. now rewrite IH.
  - apply Z.eqb_neq in E. now rewrite E.
Qed.

Lemma sorted_perm_eq (l l' : list Z) :
  Sorted Z.le l -> Sorted Z.le l' -> Permutation l l' -> l = l'.
Proof.
  intros Hs Hs'.
  apply Sorted_StronglySorted in Hs; [|exact Z.le_trans].
  apply Sorted_StronglySorted in Hs'; [|exact Z.le_trans].
  revert l' Hs'. induction Hs as [|x t Ht IH Hx]; intros l' Hs' Hp.
  - now apply Permutation_nil in Hp.
  - destruct Hs' as [|y t' Ht' Hy].
    + symmetry in Hp. now apply Permutation_nil in Hp.
    + assert (E : x = y).
      { assert (Hin : In y (x :: t)) by (apply Permutation_in with (y :: t');
          [now symmetry| now left]).
        assert (Hin' : In x (y :: t')) by (apply Permutation_in with (x :: t);
          [assumption| now left]).
        rewrite Forall_forall in Hx, Hy.
        destruct Hin as [->|Hin]; [reflexivity|].
        destruct Hin' as [->|Hin']; [reflexivity|].
        apply Hx in Hin. apply Hy in Hin'. lia. }
      subst y. f_equal. apply IH; [exact Ht'|]. now apply Permutation_cons_inv in Hp.
Qed.

Lemma sorted_map_key {A : Type} (key : A -> Z) (l : list A) :
  Sorted (key_le key) l -> Sorted Z.le (map key l).
Proof.
  induction 1 as [|x t Hs IH Hd]; simpl; constructor; [exact IH|].
  destruct Hd; simpl; constructor. assumption.
Qed.

Lemma unique_In (l : list Z) (x : Z) : In x (unique l) <-> In x l.
Proof. unfold unique. rewrite sort_by_In. apply nodup_In. Qed.

Lemma unique_NoDup (l : list Z) : NoDup (unique l).
Proof.
  unfold unique. eapply Permutation_NoDup; [symmetry; apply sort_by_perm|].
  apply NoDup_nodup.
Qed.

Lemma unique_sorted (l : list Z) : Sorted Z.le (unique l).
Proof.
  unfold unique.
  pose proof (sort_by_sorted (fun v : Z => v) (nodup Z.eq_dec l)) as H.
  induction H as [|x t Hs IH Hd]; constructor; [exact IH|].
  destruct Hd; constructor. assumption.
Qed.

Lemma unique_perm (l l' : list Z) : Permutation l l' -> unique l = unique l'.
Proof.
  intros Hp. apply sorted_perm_eq; try apply unique_sorted.
  apply NoDup_Permutation; try apply unique_NoDup.
  intros x. rewrite !unique_In. split; apply Permutation_in; [exact Hp| now symmetry].
Qed.

Lemma unique_times_empty (l : list MergedRow) :
  (List.length (unique (map m_Time l)) =? 0)%nat = (List.length l =? 0)%nat.
Proof.
  destruct l as [|r t]; [reflexivity|].
  destruct (unique _) eqn:Eu; [|reflexivity].
  assert (Hin : In (m_Time r) (unique (map m_Time (r :: t))))
    by (apply unique_In; now left).
  rewrite Eu in Hin. destruct Hin.
Qed.

(** *** The loop over the time groups *)

Lemma stack_raised (tmp_df : DataFrame) (times : list Z) (err : MergeError) :
  fold_left (fun merged time =>
               match merged with
               | inl err => inl err
               | inr merged => concat_vertical merged (time_group tmp_df time)
               end) times (inl err)
  = inl err.
Proof. induction times as [|t ts IH]; simpl; [reflexivity| exact IH]. Qed.

Lemma stack_groups (tmp_df : DataFrame) (times : list Z) (acc : DataFrame) :
  has_Time acc = true ->
  fold_left (fun merged time =>
               match merged with
               | inl err => inl err
               | inr merged => concat_vertical merged (time_group tmp_df time)
               end) times (inr acc)
  = if forallb (fun t => fits acc (time_group tmp_df t)) times
    then inr (with_rows acc
                (rows acc ++ flat_map (fun t => rows (time_group tmp_df t)) times))
    else inl SchemaError.
Proof.
  revert acc. induction times as [|t ts IH]; intros acc Hacc; cbn [fold_left forallb flat_map].
  - rewrite app_nil_r. now destruct acc.
  - unfold concat_vertical at 2. rewrite Hacc.
    destruct (fits acc (time_group tmp_df t)) eqn:Ef; cbn [andb].
    + rewrite IH by exact Hacc.
      change (forallb (fun t0 => fits (with_rows acc (rows acc ++ rows (time_group tmp_df t)))
                                   (time_group tmp_df t0)) ts)
        with (forallb (fun t0 => fits acc (time_group tmp_df t0)) ts).
      destruct (forallb _ ts); [|reflexivity].
      unfold with_rows. cbn [rows has_Time has_Auction_Price_DK1 has_Auction_Price_DK2
                              dtype_Auction_Price_DK1 dtype_Auction_Price_DK2].
      now rewrite app_assoc.
    + apply stack_raised.
Qed.

Lemma stack_groups_from_empty (tmp_df : DataFrame) (times : list Z) :
  has_Time tmp_df = true ->
  fold_left (fun merged time =>
               match merged with
               | inl err => inl err
               | inr merged => concat_vertical merged (time_group tmp_df time)
               end) times (inr empty_DataFrame)
  = match times with
    | [] => inr empty_DataFrame
    | first :: later =>
        if forallb (fun t => fits (time_group tmp_df first) (time_group tmp_df t)) later
        then inr (with_rows (time_group tmp_df first)
                    (flat_map (fun t => rows (time_group tmp_df t)) times))
        else inl SchemaError
    end.
Proof.
  intros Ht. destruct times as [|t ts]; [reflexivity|].
  cbn [fold_left].
  change (concat_vertical empty_DataFrame (time_group tmp_df t))
    with (@inr MergeError DataFrame (time_group tmp_df t)).
  rewrite stack_groups by exact Ht. reflexivity.
Qed.

Lemma time_group_rows (tmp_df : DataFrame) (t : Z) :
  has_Auction_Price_DK1 tmp_df = true -> has_Auction_Price_DK2 tmp_df = true ->
  rows (time_group tmp_df t) = compact_rows (filter_eq m_Time t (rows tmp_df)).
Proof.
  intros H1 H2. unfold time_group, compact_time_df. simpl. now rewrite H1, H2.
Qed.

Lemma series_dtype_spec (vals : list (option Qc)) :
  series_dtype vals
  = if (List.length (non_null_values vals) =? 0)%nat then Null else Float64.
Proof.
  unfold series_dtype. induction vals as [|[x|] t IH]; simpl; [reflexivity..|exact IH].
Qed.

Lemma series_dtype_compact (vals : list (option Qc)) :
  series_dtype (compact_values vals) = series_dtype vals.
Proof. now rewrite !series_dtype_spec, non_null_values_compact. Qed.

Lemma prices_without_column (reg : Region) (T : Datetime) (ms : list JoinedFrame) :
  brings_column reg ms = false -> auction_prices_at reg T ms = [].
Proof.
  intros H. destruct (auction_prices_at reg T ms) eqn:E; [reflexivity|].
  assert (Hb : brings_column reg ms = true)
    by (apply (prices_bring_column reg T); rewrite E; discriminate).
  congruence.
Qed.

(** The types of the two price columns of a group, read off the prices
    the tables hold at its time. *)
Lemma time_group_dtypes (ms : list JoinedFrame) (t : Z) :
  let tmp_df := with_rows (concat_all ms) (sort_by m_Time (rows (concat_all ms))) in
  (brings_column DK1 ms = true ->
   dtype_Auction_Price_DK1 (time_group tmp_df t)
   = if priced_at DK1 ms t then Float64 else Null) /\
  (brings_column DK2 ms = true ->
   dtype_Auction_Price_DK2 (time_group tmp_df t)
   = if priced_at DK2 ms t then Float64 else Null).
Proof.
  cbv zeta. unfold time_group, compact_time_df, priced_at.
  cbn [rows with_rows has_Auction_Price_DK1 has_Auction_Price_DK2
       dtype_Auction_Price_DK1 dtype_Auction_Price_DK2].
  rewrite concat_all_has_DK1, concat_all_has_DK2, concat_all_rows, filter_eq_sort_by.
  split.
  - intros ->. rewrite series_dtype_compact, series_dtype_spec, prices_at_DK1.
    now destruct (_ =? _)%nat.
  - intros ->. rewrite series_dtype_compact, series_dtype_spec.
    assert (E : map Auction_Price_DK2
                  (if brings_column DK1 ms
                   then with_column set_Auction_Price_DK1 (filter_eq m_Time t (all_rows ms))
                          (compact_values
                             (map Auction_Price_DK1 (filter_eq m_Time t (all_rows ms))))
                   else filter_eq m_Time t (all_rows ms))
                = map Auction_Price_DK2 (filter_eq m_Time t (all_rows ms))).
    { destruct (brings_column DK1 ms); [|reflexivity].
      apply with_column_map; [reflexivity|].
      now rewrite compact_values_length, length_map. }
    rewrite E, prices_at_DK2. now destruct (_ =? _)%nat.
Qed.

Lemma time_group_fits (ms : list JoinedFrame) (first t : Z) :
  let tmp_df := with_rows (concat_all ms) (sort_by m_Time (rows (concat_all ms))) in
  fits (time_group tmp_df first) (time_group tmp_df t)
  = ((priced_at DK1 ms first || negb (priced_at DK1 ms t))
     && (priced_at DK2 ms first || negb (priced_at DK2 ms t))).
Proof.
  cbv zeta. unfold fits.
  assert (F1 : has_Auction_Price_DK1
                 (time_group (with_rows (concat_all ms)
                                (sort_by m_Time (rows (concat_all ms)))) first)
               = brings_column DK1 ms)
    by (cbn; apply concat_all_has_DK1).
  assert (F2 : has_Auction_Price_DK2
                 (time_group (with_rows (concat_all ms)
                                (sort_by m_Time (rows (concat_all ms)))) first)
               = brings_column DK2 ms)
    by (cbn; apply concat_all_has_DK2).
  rewrite F1, F2.
  destruct (time_group_dtypes ms first) as [D1 D2].
  destruct (time_group_dtypes ms t) as [D1' D2']. cbv zeta in D1, D2, D1', D2'.
  f_equal.
  - destruct (brings_column DK1 ms) eqn:B.
    + rewrite D1, D1' by reflexivity.
      now destruct (priced_at DK1 ms first), (priced_at DK1 ms t).
    + unfold priced_at. now rewrite !(prices_without_column DK1 _ ms B).
  - destruct (brings_column DK2 ms) eqn:B.
    + rewrite D2, D2' by reflexivity.
      now destruct (priced_at DK2 ms first), (priced_at DK2 ms t).
    + unfold priced_at. now rewrite !(prices_without_column DK2 _ ms B).
Qed.

Lemma forallb_ext {A : Type} (f g : A -> bool) (l : list A) :
  (forall x, f x = g x) -> forallb f l = forallb g l.
Proof.
  intros H. induction l as [|x t IH]; simpl; [reflexivity|]. now rewrite H, IH.
Qed.

Lemma forallb_orb_const {A : Type} (a : bool) (f : A -> bool) (l : list A) :
  forallb (fun x => a || f x) l = a || forallb f l.
Proof.
  induction l as [|x t IH]; simpl; [now rewrite orb_true_r|].
  rewrite IH. now destruct a, (f x).
Qed.

Lemma forallb_andb {A : Type} (f g : A -> bool) (l : list A) :
  forallb (fun x => f x && g x) l = forallb f l && forallb g l.
Proof.
  induction l as [|x t IH]; simpl; [reflexivity|].
  rewrite IH. destruct (f x), (g x), (forallb f t), (forallb g t); reflexivity.
Qed.

(** What the loop leaves: the schema error when the groups do not stack,
    and otherwise the groups one after the other. *)
Lemma compacted_spec (ms : list JoinedFrame) :
  has_Time (concat_all ms) = true ->
  let tmp_df := with_rows (concat_all ms) (sort_by m_Time (rows (concat_all ms))) in
  if stacks ms then
    exists df,
      compacted ms = inr df /\
      rows df = flat_map (fun t => rows (time_group tmp_df t)) (horizon_times ms) /\
      has_Auction_Price_DK1 df
      = (negb (Nat.eqb (List.length (all_rows ms)) 0) && brings_column DK1 ms) /\
      has_Auction_Price_DK2 df
      = (negb (Nat.eqb (List.length (all_rows ms)) 0) && brings_column DK2 ms)
  else compacted ms = inl SchemaError.
Proof.
  intros Ht tmp_df.
  assert (Hc : compacted ms
               = fold_left (fun merged time =>
                              match merged with
                              | inl err => inl err
                              | inr merged => concat_vertical merged (time_group tmp_df time)
                              end) (horizon_times ms) (inr empty_DataFrame)).
  { unfold compacted, horizon_times. rewrite <- concat_all_rows. reflexivity. }
  rewrite Hc, stack_groups_from_empty by exact Ht.
  pose proof (unique_times_empty (all_rows ms)) as Hu. fold (horizon_times ms) in Hu.
  unfold stacks, stacks_column.
  destruct (horizon_times ms) as [|first later] eqn:Eh.
  - cbn [andb]. exists empty_DataFrame. simpl in Hu. rewrite <- Hu. simpl. auto.
  - assert (Hf : forallb (fun t => fits (time_group tmp_df first) (time_group tmp_df t)) later
                 = ((priced_at DK1 ms first
                     || forallb (fun t => negb (priced_at DK1 ms t)) later)
                    && (priced_at DK2 ms first
                        || forallb (fun t => negb (priced_at DK2 ms t)) later))).
    { rewrite <- !forallb_orb_const, <- forallb_andb. apply forallb_ext.
      intros t. apply time_group_fits. }
    rewrite Hf. destruct (_ && _); [|reflexivity].
    eexists. split; [reflexivity|]. split; [reflexivity|].
    simpl in Hu. rewrite <- Hu. cbn.
    now rewrite concat_all_has_DK1, concat_all_has_DK2.
Qed.

Lemma horizon_groups (ms : list JoinedFrame) :
  brings_column DK1 ms = true -> brings_column DK2 ms = true ->
  flat_map (fun t => rows (time_group
                             (with_rows (concat_all ms)
                                (sort_by m_Time (rows (concat_all ms)))) t))
           (horizon_times ms)
  = merged_rows ms.
Proof.
  intros H1 H2. unfold merged_rows. fold (horizon_times ms).
  apply flat_map_ext_in. intros t _. rewrite time_group_rows.
  - cbn [rows with_rows]. now rewrite concat_all_rows, filter_eq_sort_by.
  - cbn. now rewrite concat_all_has_DK1.
  - cbn. now rewrite concat_all_has_DK2.
Qed.

Lemma brings_column_nonempty (reg : Region) (ms : list JoinedFrame) :
  brings_column reg ms = true -> has_Time (concat_all ms) = true.
Proof. rewrite concat_all_has_Time. now destruct ms. Qed.

(** The merger, case by case: the errors in the order in which they are
    met, and the table it returns. *)
Lemma merge_decided (ms : list JoinedFrame) :
  merge_forecast_and_auction_dataframes ms
  = if (List.length ms =? 0)%nat then inl (ColumnNotFound "Time")
    else if negb (stacks ms) then inl SchemaError
    else if negb (negb (List.length (all_rows ms) =? 0)%nat && brings_column DK1 ms)
    then inl (ColumnNotFound "Auction_Price_DK1")
    else if negb (negb (List.length (all_rows ms) =? 0)%nat && brings_column DK2 ms)
    then inl (ColumnNotFound "Auction_Price_DK2")
    else inr (sort_by m_Time (filter has_auction_price (merged_rows ms))).
Proof.
  unfold merge_forecast_and_auction_dataframes. rewrite concat_all_has_Time.
  destruct (List.length ms =? 0)%nat eqn:El; [reflexivity|]. cbn [negb].
  assert (Ht : has_Time (concat_all ms) = true)
    by (rewrite concat_all_has_Time, El; reflexivity).
  pose proof (compacted_spec ms Ht) as Hc. cbv zeta in Hc.
  destruct (stacks ms); cbn [negb].
  - destruct Hc as (df & -> & Hr & -> & ->).
    destruct (negb (List.length (all_rows ms) =? 0)%nat && brings_column DK1 ms)
      eqn:E1; cbn [negb]; [|reflexivity].
    destruct (negb (List.length (all_rows ms) =? 0)%nat && brings_column DK2 ms)
      eqn:E2; cbn [negb]; [|reflexivity].
    apply andb_true_iff in E1, E2. destruct E1 as [_ E1], E2 as [_ E2].
    rewrite Hr, (horizon_groups ms E1 E2). reflexivity.
  - now rewrite Hc.
Qed.

(** What the merger returns, and when it returns at all. *)
Lemma merge_returns (ms : list JoinedFrame) :
  brings_column DK1 ms = true -> brings_column DK2 ms = true -> all_rows ms <> [] ->
  stacks ms = true ->
  merge_forecast_and_auction_dataframes ms
  = inr (sort_by m_Time (filter has_auction_price (merged_rows ms))).
Proof.
  intros H1 H2 Hne Hs. rewrite merge_decided, Hs, H1, H2.
  destruct ms as [|m ms]; [discriminate H1|].
  destruct (all_rows (m :: ms)) eqn:E; [congruence|]. reflexivity.
Qed.

Lemma merge_returns_inv (ms : list JoinedFrame) (out : list MergedRow) :
  merge_forecast_and_auction_dataframes ms = inr out ->
  brings_column DK1 ms = true /\ brings_column DK2 ms = true /\ all_rows ms <> [] /\
  out = sort_by m_Time (filter has_auction_price (merged_rows ms)).
Proof.
  rewrite merge_decided.
  destruct (List.length ms =? 0)%nat; [discriminate|].
  destruct (stacks ms); cbn [negb]; [|discriminate].
  destruct (negb (List.length (all_rows ms) =? 0)%nat) eqn:El; cbn [andb negb];
    [|discriminate].
  destruct (brings_column DK1 ms); cbn [negb]; [|discriminate].
  destruct (brings_column DK2 ms); cbn [negb]; [|discriminate].
  intros H. injection H as <-. repeat split; try reflexivity.
  intros E. rewrite E in El. discriminate.
Qed.

Lemma merge_returns_stacks (ms : list JoinedFrame) (out : list MergedRow) :
  merge_forecast_and_auction_dataframes ms = inr out -> stacks ms = true.
Proof.
  rewrite merge_decided.
  destruct (List.length ms =? 0)%nat; [discriminate|].
  destruct (stacks ms); [reflexivity| discriminate].
Qed.

(** The table the loop leaves, when the merger returns. *)
Lemma merge_returns_compacted (ms : list JoinedFrame) (out : list MergedRow) :
  merge_forecast_and_auction_dataframes ms = inr out ->
  exists merged,
    compacted ms = inr merged /\
    out = sort_by m_Time (filter (fun r => negb (all_auction_values_null r))
                                 (rows merged)).
Proof.
  unfold merge_forecast_and_auction_dataframes.
  destruct (has_Time (concat_all ms)); [|discriminate]. cbn [negb].
  destruct (compacted ms) as [err|merged]; [discriminate|].
  destruct (has_Auction_Price_DK1 merged); [|discriminate].
  destruct (has_Auction_Price_DK2 merged); [|discriminate].
  cbn [negb]. intros H. injection H as <-. eauto.
Qed.

(** The rows of one horizon time in the output: the group of that time,
    compacted, without its rows that lost both prices. *)
Lemma output_rows_at (ms : list JoinedFrame) (out : list MergedRow) (T : Z) :
  merge_forecast_and_auction_dataframes ms = inr out ->
  filter_eq m_Time T out
  = filter has_auction_price (compact_rows (filter_eq m_Time T (all_rows ms))).
Proof.
  intros H. apply merge_returns_inv in H. destruct H as (_ & _ & _ & ->).
  rewrite filter_eq_sort_by. unfold filter_eq at 1. rewrite filter_comm.
  fold (filter_eq m_Time T (merged_rows ms)). f_equal.
  unfold merged_rows.
  destruct (in_dec Z.eq_dec T (unique (map m_Time (all_rows ms)))) as [Hin|Hnin].
  - unfold filter_eq at 1.
    apply (filter_flat_map_key (fun r => m_Time r =? T)
             (fun t => compact_rows (filter_eq m_Time t (all_rows ms)))).
    + apply unique_NoDup.
    + exact Hin.
    + intros r Hr. pose proof (compact_rows_at T T (all_rows ms)) as E.
      rewrite Z.eqb_refl in E. rewrite <- E in Hr. apply filter_eq_In in Hr.
      apply Z.eqb_eq. tauto.
    + intros t r _ Hne Hr. apply Z.eqb_neq. intros Et.
      pose proof (compact_rows_at T t (all_rows ms)) as E.
      assert (Hf : In r (filter_eq m_Time T (compact_rows (filter_eq m_Time t (all_rows ms)))))
        by (apply filter_eq_In; auto).
      rewrite E in Hf. destruct (T =? t) eqn:ETt; [|destruct Hf].
      apply Z.eqb_eq in ETt. congruence.
  - assert (E : filter_eq m_Time T (all_rows ms) = []).
    { apply filter_nil_iff. intros r Hr. apply Z.eqb_neq. intros Et. apply Hnin.
      apply unique_In, in_map_iff. eauto. }
    rewrite E. unfold filter_eq at 1. apply filter_nil_iff. intros r Hr.
    apply in_flat_map in Hr. destruct Hr as (t & Ht & Hr).
    apply Z.eqb_neq. intros Et.
    assert (Hf : In r (filter_eq m_Time T (compact_rows (filter_eq m_Time t (all_rows ms)))))
      by (apply filter_eq_In; auto).
    rewrite compact_rows_at in Hf. destruct (T =? t) eqn:ETt; [|destruct Hf].
    apply Z.eqb_eq in ETt. subst t. contradiction.
Qed.

(** C2.  Every row of a table the merger returns has a non-null value in
    [Auction_Price_DK1] or [Auction_Price_DK2]: of the rows left by the
    compaction loop, those with both prices null are absent from the output
    and those with at least one price are present. *)
Theorem rows_without_auction_price_dropped (ms : list JoinedFrame)
    (out : list MergedRow) :
  merge_forecast_and_auction_dataframes ms = inr out ->
  exists merged,
    compacted ms = inr merged /\
    (forall r, In r out ->
       Auction_Price_DK1 r <> None \/ Auction_Price_DK2 r <> None) /\
    (forall r, In r out -> In r (rows merged)) /\
    (forall r, In r (rows merged) ->
       Auction_Price_DK1 r = None -> Auction_Price_DK2 r = None -> ~ In r out) /\
    (forall r, In r (rows merged) ->
       Auction_Price_DK1 r <> None \/ Auction_Price_DK2 r <> None -> In r out).
Proof.
  intros H. destruct (merge_returns_compacted ms out H) as (merged & Hc & ->).
  exists merged. split; [exact Hc|].
  assert (Hin : forall r, In r (sort_by m_Time
                   (filter (fun r => negb (all_auction_values_null r))
                           (rows merged))) <->
                 In r (rows merged) /\
                 (Auction_Price_DK1 r <> None \/ Auction_Price_DK2 r <> None)).
  { intros r. rewrite sort_by_In, filter_In. unfold all_auction_values_null.
    destruct (Auction_Price_DK1 r), (Auction_Price_DK2 r); simpl;
      intuition (congruence || discriminate). }
  repeat split.
  - intros r Hr. now apply Hin in Hr.
  - intros r Hr. now apply Hin in Hr.
  - intros r _ E1 E2 Hr. apply Hin in Hr. destruct Hr as [_ [Hn|Hn]]; congruence.
  - intros r Hr Hn. apply Hin. auto.
Qed.

(** The merger keeps, at every horizon time, exactly the non-null prices
    of each region that the tables hold there. *)
Lemma output_prices_DK1 (ms : list JoinedFrame) (out : list MergedRow) (T : Z) :
  merge_forecast_and_auction_dataframes ms = inr out ->
  non_null_values (map Auction_Price_DK1 (filter_eq m_Time T out))
  = auction_prices_at DK1 T ms.
Proof.
  intros H. rewrite (output_rows_at ms out T H), survivors_keep_DK1,
    compact_rows_DK1, non_null_values_compact. apply prices_at_DK1.
Qed.

Lemma output_prices_DK2 (ms : list JoinedFrame) (out : list MergedRow) (T : Z) :
  merge_forecast_and_auction_dataframes ms = inr out ->
  non_null_values (map Auction_Price_DK2 (filter_eq m_Time T out))
  = auction_prices_at DK2 T ms.
Proof.
  intros H. rewrite (output_rows_at ms out T H), survivors_keep_DK2,
    compact_rows_DK2, non_null_values_compact. apply prices_at_DK2.
Qed.

Lemma output_count_at (ms : list JoinedFrame) (out : list MergedRow) (T : Z) :
  merge_forecast_and_auction_dataframes ms = inr out ->
  List.length (filter_eq m_Time T out)
  = Nat.max (List.length (auction_prices_at DK1 T ms))
            (List.length (auction_prices_at DK2 T ms)).
Proof.
  intros H. rewrite (output_rows_at ms out T H), compact_rows_survivors.
  rewrite prices_at_DK1, prices_at_DK2, length_firstn, compact_rows_length.
  pose proof (non_null_values_length
                (map Auction_Price_DK1 (filter_eq m_Time T (all_rows ms)))) as L1.
  pose proof (non_null_values_length
                (map Auction_Price_DK2 (filter_eq m_Time T (all_rows ms)))) as L2.
  rewrite prices_at_DK1 in L1. rewrite prices_at_DK2 in L2.
  rewrite length_map in L1, L2. lia.
Qed.


Lemma all_rows_perm (ms ms' : list JoinedFrame) :
  Permutation ms ms' -> Permutation (all_rows ms) (all_rows ms').
Proof. intros H. unfold all_rows. now apply Permutation_flat_map. Qed.

Lemma auction_prices_at_perm (reg : Region) (T : Datetime) (ms ms' : list JoinedFrame) :
  Permutation ms ms' ->
  Permutation (auction_prices_at reg T ms) (auction_prices_at reg T ms').
Proof. intros H. unfold auction_prices_at. now apply Permutation_flat_map. Qed.

Lemma brings_column_perm (reg : Region) (ms ms' : list JoinedFrame) :
  Permutation ms ms' -> brings_column reg ms = brings_column reg ms'.
Proof.
  intros H. unfold brings_column.
  destruct (existsb _ ms') eqn:E'.
  - apply existsb_exists in E'. destruct E' as (df & Hin & Hdf).
    apply existsb_exists. exists df. split; [|exact Hdf].
    apply Permutation_in with ms'; [now symmetry| exact Hin].
  - destruct (existsb _ ms) eqn:E; [|reflexivity].
    apply existsb_exists in E. destruct E as (df & Hin & Hdf).
    rewrite <- E'. symmetry. apply existsb_exists. exists df. split; [|exact Hdf].
    apply Permutation_in with ms; assumption.
Qed.

Lemma horizon_times_perm (ms ms' : list JoinedFrame) :
  Permutation ms ms' -> horizon_times ms = horizon_times ms'.
Proof.
  intros Hp. unfold horizon_times. apply unique_perm, Permutation_map.
  now apply all_rows_perm.
Qed.

Lemma priced_at_perm (reg : Region) (ms ms' : list JoinedFrame) (T : Datetime) :
  Permutation ms ms' -> priced_at reg ms T = priced_at reg ms' T.
Proof.
  intros Hp. unfold priced_at.
  now rewrite (Permutation_length (auction_prices_at_perm reg T ms ms' Hp)).
Qed.

Lemma stacks_perm (ms ms' : list JoinedFrame) :
  Permutation ms ms' -> stacks ms = stacks ms'.
Proof.
  intros Hp. unfold stacks, stacks_column.
  rewrite <- (horizon_times_perm ms ms' Hp).
  destruct (horizon_times ms) as [|first later]; [reflexivity|].
  rewrite !(priced_at_perm _ ms ms' first Hp).
  f_equal; f_equal; apply forallb_ext; intros t;
    now rewrite (priced_at_perm _ ms ms' t Hp).
Qed.

(** Which error the merger raises does not depend on the order of the tables. *)
Lemma merge_error_perm (ms ms' : list JoinedFrame) (err : MergeError) :
  Permutation ms ms' ->
  merge_forecast_and_auction_dataframes ms = inl err ->
  merge_forecast_and_auction_dataframes ms' = inl err.
Proof.
  intros Hp. rewrite !merge_decided.
  rewrite <- (Permutation_length Hp), <- (stacks_perm ms ms' Hp).
  rewrite <- (brings_column_perm DK1 ms ms' Hp), <- (brings_column_perm DK2 ms ms' Hp).
  rewrite <- (Permutation_length (all_rows_perm ms ms' Hp)).
  destruct (List.length ms =? 0)%nat; [auto|].
  destruct (negb (stacks ms)); [auto|].
  destruct (negb (negb (List.length (all_rows ms) =? 0)%nat && brings_column DK1 ms));
    [auto|].
  destruct (negb (negb (List.length (all_rows ms) =? 0)%nat && brings_column DK2 ms));
    [auto| discriminate].
Qed.

Lemma merge_output_sorted (ms : list JoinedFrame) (out : list MergedRow) :
  merge_forecast_and_auction_dataframes ms = inr out ->
  Sorted Z.le (map m_Time out).
Proof.
  intros H. apply merge_returns_inv in H. destruct H as (_ & _ & _ & ->).
  apply sorted_map_key, sort_by_sorted.
Qed.

(** C4, amended.  On a permutation of the list of tables the merger raises
    the same error - a missing column or the schema error of the vertical
    concatenation - or returns a table with the same [Time] column and, at
    every horizon time, the same non-null prices of each region up to their
    order; which prices share a row, and the forecast and tag columns of the
    rows, depend on the order of the list. *)
Theorem merge_order_changes_pairing_only (ms ms' : list JoinedFrame) :
  Permutation ms ms' ->
  match merge_forecast_and_auction_dataframes ms,
        merge_forecast_and_auction_dataframes ms' with
  | inr out, inr out' =>
      map m_Time out' = map m_Time out /\
      (forall T,
         Permutation
           (non_null_values (map Auction_Price_DK1 (filter_eq m_Time T out')))
           (non_null_values (map Auction_Price_DK1 (filter_eq m_Time T out))) /\
         Permutation
           (non_null_values (map Auction_Price_DK2 (filter_eq m_Time T out')))
           (non_null_values (map Auction_Price_DK2 (filter_eq m_Time T out))))
  | inl err, inl err' => err' = err
  | _, _ => False
  end.
Proof.
  intros Hp.
  destruct (merge_forecast_and_auction_dataframes ms) as [err|out] eqn:Hm.
  - now rewrite (merge_error_perm ms ms' err Hp Hm).
  - destruct (merge_forecast_and_auction_dataframes ms') as [err'|out'] eqn:Hm'.
    + symmetry in Hp. rewrite (merge_error_perm ms' ms err' Hp Hm') in Hm. discriminate.
    + split.
      * apply sorted_perm_eq; try (eapply merge_output_sorted; eassumption).
        apply (Permutation_count_occ Z.eq_dec). intros T.
        rewrite !count_occ_filter_eq.
        rewrite (output_count_at ms' out' T Hm'), (output_count_at ms out T Hm).
        now rewrite (Permutation_length (auction_prices_at_perm DK1 T ms ms' Hp)),
                    (Permutation_length (auction_prices_at_perm DK2 T ms ms' Hp)).
      * intros T.
        rewrite (output_prices_DK1 ms' out' T Hm'), (output_prices_DK1 ms out T Hm).
        rewrite (output_prices_DK2 ms' out' T Hm'), (output_prices_DK2 ms out T Hm).
        split; symmetry; now apply auction_prices_at_perm.
Qed.

End MergerFacts.

(** ** The metrics *)

Import Metrics.

Section MetricsFacts.
Variable forecast : MergedRow -> Qc.
Variable auction : MergedRow -> option Qc.

Let forecast_col (pl_data : list MergedRow) : Column :=
  map (fun r => Some (forecast r)) pl_data.
Let auction_col (pl_data : list MergedRow) : Column := map auction pl_data.

Lemma diff_values (g : Qc -> Qc) (pl_data : list MergedRow) :
  drop_null_values (lift1 g (sub (forecast_col pl_data) (auction_col pl_data)))
  = map (fun fa => g (fst fa - snd fa)%Qc) (observations forecast auction pl_data).
Proof.
  unfold forecast_col, auction_col, sub, lift1, lift2, observations.
  induction pl_data as [|r t IH]; simpl; [reflexivity|].
  destruct (auction r); simpl; now rewrite IH.
Qed.

Lemma safe_divisor_column (pl_data : list MergedRow) :
  when_then_otherwise (eq_zero (auction_col pl_data)) epsilon (auction_col pl_data)
  = map (option_map safe_divisor) (auction_col pl_data).
Proof.
  unfold auction_col, when_then_otherwise, eq_zero.
  induction pl_data as [|r t IH]; simpl; [reflexivity|]. rewrite IH. f_equal.
  destruct (auction r) as [a|]; simpl; [|reflexivity].
  unfold safe_divisor, Qc_eq_bool. now destruct (Qc_eq_dec a (Q2Qc 0)).
Qed.

Lemma ape_values (pl_data : list MergedRow) :
  drop_null_values
    (div (abs (sub (forecast_col pl_data) (auction_col pl_data)))
         (when_then_otherwise (eq_zero (auction_col pl_data)) epsilon
                              (auction_col pl_data)))
  = map absolute_percentage_error (observations forecast auction pl_data).
Proof.
  rewrite safe_divisor_column.
  unfold forecast_col, auction_col, div, abs, sub, lift1, lift2, observations.
  induction pl_data as [|r t IH]; simpl; [reflexivity|].
  destruct (auction r); simpl; now rewrite IH.
Qed.

Lemma epsilon_nonzero : epsilon <> Q2Qc 0.
Proof. intros E. apply (f_equal this) in E. discriminate E. Qed.

Lemma safe_divisor_nonzero (a : Qc) : safe_divisor a <> Q2Qc 0.
Proof.
  unfold safe_divisor. destruct (Qc_eq_dec a (Q2Qc 0)); [apply epsilon_nonzero| assumption].
Qed.

Lemma metrics_of_spec (pl_data : list MergedRow) :
  let m := metrics_of (forecast_col pl_data) (auction_col pl_data) in
  let obs := observations forecast auction pl_data in
  MAE m = mean (map absolute_error obs) /\
  MSE m = mean (map squared_error obs) /\
  RMSE m = option_map (fun v : Qc => sqrt (Q2R v)) (mean (map squared_error obs)) /\
  MAPE m = mean (map absolute_percentage_error obs) /\
  Forall (fun d => d <> Some (Q2Qc 0))
         (when_then_otherwise (eq_zero (auction_col pl_data)) epsilon
                              (auction_col pl_data)).
Proof.
  intros m obs. unfold m, metrics_of, col_mean. simpl.
  rewrite ape_values. unfold abs, pow2. rewrite !diff_values.
  repeat split.
  rewrite safe_divisor_column. apply Forall_forall. intros d Hd.
  apply in_map_iff in Hd. destruct Hd as ([a|] & <- & _); simpl; [|discriminate].
  intros E. injection E as E. now apply safe_divisor_nonzero in E.
Qed.

End MetricsFacts.

Lemma Q2R_Qc_plus (x y : Qc) : Q2R (this (x + y)%Qc) = (Q2R x + Q2R y)%R.
Proof.
  rewrite <- Q2R_plus. apply Qeq_eqR.
  change (this (x + y)%Qc) with (Qred (x + y)). apply Qred_correct.
Qed.

Lemma Q2R_Qc_mult (x y : Qc) : Q2R (this (x * y)%Qc) = (Q2R x * Q2R y)%R.
Proof.
  rewrite <- Q2R_mult. apply Qeq_eqR.
  change (this (x * y)%Qc) with (Qred (x * y)). apply Qred_correct.
Qed.

Lemma sum_Qc_cons (x : Qc) (l : list Qc) : sum_Qc (x :: l) = (x + sum_Qc l)%Qc.
Proof. reflexivity. Qed.

Lemma sum_squares_nonneg (obs : list (Qc * Qc)) :
  (0 <= Q2R (this (sum_Qc (map squared_error obs))))%R.
Proof.
  induction obs as [|fa t IH].
  - unfold Q2R. simpl. lra.
  - rewrite map_cons, sum_Qc_cons, Q2R_Qc_plus.
    unfold squared_error at 1. rewrite Q2R_Qc_mult.
    pose proof (Rle_0_sqr (Q2R (fst fa - snd fa)%Qc)) as Hs. unfold Rsqr in Hs. lra.
Qed.

Lemma mean_Some (l : list Qc) (m : Qc) :
  mean l = Some m ->
  l <> [] /\ m = (sum_Qc l / Q2Qc (inject_Z (Z.of_nat (List.length l))))%Qc.
Proof.
  destruct l as [|x t]; [discriminate|]. intros H.
  split; [discriminate|]. unfold mean in H. now injection H as <-.
Qed.

Lemma mean_squares_nonneg (obs : list (Qc * Qc)) (mse : Qc) :
  mean (map squared_error obs) = Some mse -> (0 <= Q2R mse)%R.
Proof.
  intros H. apply mean_Some in H. destruct H as [Hne ->].
  unfold Qcdiv. rewrite Q2R_Qc_mult.
  apply Rmult_le_pos; [apply sum_squares_nonneg|].
  set (n := Z.of_nat (List.length (map squared_error obs))).
  assert (Hn : (0 < n)%Z).
  { unfold n. destruct (map squared_error obs); [congruence|]. simpl. lia. }
  assert (Hq : (0 < / inject_Z n)%Q).
  { apply Qinv_lt_0_compat. unfold Qlt. simpl. lia. }
  replace 0%R with (Q2R 0) by (unfold Q2R; simpl; lra).
  apply Qle_Rle. apply Qlt_le_weak.
  assert (Ei : this (/ Q2Qc (inject_Z n))%Qc == / inject_Z n).
  { change (this (/ Q2Qc (inject_Z n))%Qc) with (Qred (/ Qred (inject_Z n))).
    rewrite Qred_correct. apply Qinv_comp. apply Qred_correct. }
  rewrite Ei. exact Hq.
Qed.

(** C9.  [compute_forecast_metrics] returns, for each region, the mean
    absolute error, the mean squared error, its square root and the mean
    absolute percentage error of the rows that carry an auction price of the
    region; the percentage divides by the auction price, by [epsilon]
    (1e-10) when that price is zero, and the divisor is never zero. *)
Theorem forecast_metrics_formulas (pl_data : list MergedRow) :
  meets_formulas
    (observations (fun r => DK1_forecast_price (m_forecast r)) Auction_Price_DK1 pl_data)
    (fst (compute_forecast_metrics pl_data)) /\
  meets_formulas
    (observations (fun r => DK2_forecast_price (m_forecast r)) Auction_Price_DK2 pl_data)
    (snd (compute_forecast_metrics pl_data)) /\
  (forall a : Qc,
     (a = Q2Qc 0 -> safe_divisor a = epsilon) /\
     (a <> Q2Qc 0 -> safe_divisor a = a) /\
     safe_divisor a <> Q2Qc 0) /\
  this epsilon = (1 # 10000000000)%Q.
Proof.
  unfold compute_forecast_metrics. simpl fst. simpl snd.
  pose proof (metrics_of_spec (fun r => DK1_forecast_price (m_forecast r))
                Auction_Price_DK1 pl_data) as H1.
  pose proof (metrics_of_spec (fun r => DK2_forecast_price (m_forecast r))
                Auction_Price_DK2 pl_data) as H2.
  cbn zeta in H1, H2.
  destruct H1 as (A1 & B1 & C1 & D1 & _), H2 as (A2 & B2 & C2 & D2 & _).
  split; [|split; [|split]].
  - unfold meets_formulas. rewrite B1 at 1. repeat split; auto.
    intros mse Hm. apply sqrt_sqrt. apply mean_squares_nonneg with (obs :=
      observations (fun r => DK1_forecast_price (m_forecast r)) Auction_Price_DK1 pl_data).
    congruence.
  - unfold meets_formulas. rewrite B2 at 1. repeat split; auto.
    intros mse Hm. apply sqrt_sqrt. apply mean_squares_nonneg with (obs :=
      observations (fun r => DK2_forecast_price (m_forecast r)) Auction_Price_DK2 pl_data).
    congruence.
  - intros a. unfold safe_divisor at 1 2.
    destruct (Qc_eq_dec a (Q2Qc 0)); repeat split; try congruence;
      apply safe_divisor_nonzero.
  - reflexivity.
Qed.

(** ** The theorems on the concrete run *)

Import Scenario.



(** C1, the schema error.  A DK1 table holds the prices 6 and 5 at two
    hours and a DK2 table holds the price 7 at the later hour: at the later
    hour each region has one price, but the group of the earlier hour has a
    DK2 column without a price, and stacking the later group on it raises. *)
Lemma merge_raises_on_late_region :
  let ms := [table_DK1_two_hours; table_DK2_second_hour] in
  auction_prices_at DK1 second_hour ms = [Qc_of_Z 5] /\
  auction_prices_at DK2 second_hour ms = [Qc_of_Z 7] /\
  horizon_times ms = [first_hour; second_hour] /\
  stacks ms = false /\
  merge_forecast_and_auction_dataframes ms = inl SchemaError /\
  merge_forecast_and_auction_dataframes (rev ms) = inl SchemaError.
Proof.
  cbv zeta. repeat split; vm_compute; reflexivity.
Qed.

(** C2, witness: the merge of the three tables. *)
Lemma rows_without_auction_price_dropped_witness :
  exists out,
    merge_forecast_and_auction_dataframes [table_DK1; table_DK2_first; table_DK2]
    = inr out /\
    (forall r, In r out ->
       Auction_Price_DK1 r <> None \/ Auction_Price_DK2 r <> None).
Proof.
  destruct (merge_forecast_and_auction_dataframes
              [table_DK1; table_DK2_first; table_DK2]) as [e|out] eqn:E;
    [vm_compute in E; discriminate E|].
  exists out. split; [reflexivity|].
  destruct (rows_without_auction_price_dropped _ out E) as (merged & _ & H & _).
  exact H.
Defined.

(** C3, counterexample.  The entry for the later day has no forecast at all
    at its issuance hour, yet the run returns the table of the other entry
    and raises nothing: the entry was removed before the loop. *)
Lemma uncovered_entry_is_skipped_silently :
  In entry_uncovered catalog /\
  forecasts_for_auction forecast_df entry_uncovered = [] /\
  exists joined,
    match_auction_with_forecast read_excel forecast_df catalog = inr [joined] /\
    map j_Auction_Filepath (joined_rows joined) = [filepath entry_covered].
Proof.
  split; [right; now left|]. split; [reflexivity|].
  eexists. split; [vm_compute; reflexivity| reflexivity].
Qed.

(** C3, witness: the covered day, with a forecast issued at the wrong hour. *)
Lemma missing_forecast_aborts_witness :
  In entry_covered catalog /\
  has_forecast_horizon forecast_df_wrong_hour entry_covered /\
  forecasts_for_auction forecast_df_wrong_hour entry_covered = [] /\
  exists err,
    match_auction_with_forecast read_excel forecast_df_wrong_hour catalog = inl err /\
    In (error_entry err) catalog.
Proof.
  assert (Hin : In entry_covered catalog) by now left.
  assert (Hh : has_forecast_horizon forecast_df_wrong_hour entry_covered).
  { eexists. split; [now left| reflexivity]. }
  assert (Hn : forecasts_for_auction forecast_df_wrong_hour entry_covered = [])
    by reflexivity.
  split; [exact Hin|]. split; [exact Hh|]. split; [exact Hn|].
  destruct (missing_forecast_aborts_unless_prefiltered
              read_excel forecast_df_wrong_hour catalog entry_covered Hin Hh Hn)
    as (err & He & Hc & _).
  exists err. split; assumption.
Defined.

(** C4, counterexample.  Swapping the two tables changes the row that is
    kept: it carries the tags of whichever table came first. *)
Lemma merge_depends_on_table_order :
  Permutation [table_DK1; table_DK2] [table_DK2; table_DK1] /\
  exists out out',
    merge_forecast_and_auction_dataframes [table_DK1; table_DK2] = inr out /\
    merge_forecast_and_auction_dataframes [table_DK2; table_DK1] = inr out' /\
    map m_Region out = [DK1] /\ map m_Region out' = [DK2] /\
    ~ (forall r, In r out <-> In r out').
Proof.
  split; [apply perm_swap|].
  eexists. eexists. split; [vm_compute; reflexivity|].
  split; [vm_compute; reflexivity|]. split; [reflexivity|]. split; [reflexivity|].
  intros H. match goal with H : forall r, In r [?a] <-> _ |- _ =>
    destruct (proj1 (H a) (or_introl eq_refl)) as [E|[]] end.
  apply (f_equal m_Region) in E. discriminate E.
Qed.

(** C4, witness: the same swap. *)
Lemma merge_order_changes_pairing_only_witness :
  Permutation [table_DK1; table_DK2] [table_DK2; table_DK1] /\
  exists out out',
    merge_forecast_and_auction_dataframes [table_DK1; table_DK2] = inr out /\
    merge_forecast_and_auction_dataframes [table_DK2; table_DK1] = inr out' /\
    map m_Time out' = map m_Time out.
Proof.
  split; [apply perm_swap|].
  pose proof (merge_order_changes_pairing_only
                [table_DK1; table_DK2] [table_DK2; table_DK1]
                (perm_swap table_DK2 table_DK1 [])) as H.
  destruct (merge_forecast_and_auction_dataframes [table_DK1; table_DK2])
    as [e|out] eqn:E; [discriminate E|].
  destruct (merge_forecast_and_auction_dataframes [table_DK2; table_DK1])
    as [e'|out'] eqn:E'; [discriminate E'|].
  exists out, out'. split; [reflexivity|]. split; [reflexivity|]. exact (proj1 H).
Defined.

(** C6, witness: the covered entry joins its one forecast row with the one
    hourly price. *)
Lemma left_join_keeps_every_forecast_row_witness :
  exists joined,
    match_entry read_excel forecast_df entry_covered = inr joined /\
    map j_forecast (joined_rows joined)
    = relevant_forecasts
        (hourly_rows (read_single_auction_file read_excel (filepath entry_covered)
                        (IDA_Group entry_covered) (delivery_date entry_covered)
                        (entry_Region entry_covered)))
        (forecasts_for_auction forecast_df entry_covered).
Proof.
  destruct (match_entry read_excel forecast_df entry_covered) as [e|joined] eqn:E;
    [vm_compute in E; discriminate E|].
  exists joined. split; [reflexivity|].
  exact (proj1 (proj2 (left_join_keeps_every_forecast_row
                         read_excel forecast_df entry_covered joined E))).
Defined.

(** C7, witness: the spreadsheet of the run holds the four prices 10, 20,
    30, 40 in hour 0 of the delivery day. *)
Lemma hourly_aggregation_witness :
  filter (fun row => in_hour delivery_day 0 (Start_Time row))
         (hourly_rows (read_single_auction_file read_excel "DK1_IDA1_a.xlsx"
                         IDA1 delivery_day DK1))
  = [{| Start_Time := datetime delivery_day 0 0; Area_Price_Hour := Qc_of_Z 25 |}].
Proof.
  refine (proj2 (hourly_aggregation read_excel "DK1_IDA1_a.xlsx" IDA1 delivery_day DK1)
                [] (drop_nulls (read_excel "DK1_IDA1_a.xlsx")) [] 0%nat _ _ _ _).
  - reflexivity.
  - reflexivity.
  - reflexivity.
  - reflexivity.
Defined.

(** C8, witness: the forecast table of the run has distinct keys, the
    same table stacked on itself fails the check, and the table the loader
    returns for the forecast file, whose columns are all text, has distinct
    keys. *)
Lemma unique_time_ptime_validation_witness :
  NoDup (map time_ptime forecast_df) /\
  check_unique_time_ptime_combinations (forecast_df ++ forecast_df) = false /\
  exists df,
    read_forecast_df FullRun.isfile FullRun.read_csv FullRun.strptime
      FullRun.cast_float (Some "forecast.csv"%string) true = inr df /\
    NoDup (map time_ptime df).
Proof.
  split; [|split].
  - apply (proj1 (proj1 unique_time_ptime_validation forecast_df)). reflexivity.
  - reflexivity.
  - destruct (read_forecast_df FullRun.isfile FullRun.read_csv FullRun.strptime
                FullRun.cast_float (Some "forecast.csv"%string) true)
      as [err|df] eqn:E; [vm_compute in E; discriminate E|].
    exists df. split; [reflexivity|].
    exact (proj2 (proj2 unique_time_ptime_validation) _ _ _ _ _ df E).
Defined.

(** The same file without its two lines with [NA]: the price columns are
    read as numbers, and the loader raises at the comparison with [NA]. *)
Lemma loader_raises_on_number_columns :
  read_forecast_df FullRun.isfile FullRun.read_csv_numbers FullRun.strptime
    FullRun.cast_float (Some "forecast.csv"%string) true
  = inl ComputeError.
Proof. reflexivity. Qed.

(** C10, witness: the third auction group starts at noon. *)
Lemma start_time_on_the_hour_witness :
  exists row,
    In row (hourly_rows (read_single_auction_file read_excel "DK1_IDA3.xlsx"
                           IDA3 delivery_day DK1)) /\
    Start_Time row = datetime delivery_day 12 0 /\
    on_the_hour (Start_Time row).
Proof.
  destruct (hourly_rows (read_single_auction_file read_excel "DK1_IDA3.xlsx"
                           IDA3 delivery_day DK1)) as [|row rest] eqn:E;
    [vm_compute in E; discriminate E|].
  assert (Hin : In row (hourly_rows (read_single_auction_file read_excel
                          "DK1_IDA3.xlsx" IDA3 delivery_day DK1)))
    by (rewrite E; now left).
  exists row. split; [now left|]. split.
  - vm_compute in E. injection E as E _. rewrite <- E. reflexivity.
  - exact (proj1 (start_time_on_the_hour read_excel "DK1_IDA3.xlsx"
                    IDA3 delivery_day DK1 row Hin)).
Defined.

(** The worked example of the specification: forecasts 1, 2, 3 against
    auction prices 1, 1, 3 give MAE = MSE = MAPE = 1/3. *)
Example metrics_worked_example :
  let m := fst (compute_forecast_metrics metric_rows) in
  option_map this (MAE m) = Some (1 # 3)%Q /\
  option_map this (MSE m) = Some (1 # 3)%Q /\
  option_map this (MAPE m) = Some (1 # 3)%Q.
Proof. cbv zeta. repeat split; lazy; reflexivity. Qed.

(** * Further properties

    Properties of the same functions beyond the ones above, and of the
    helpers around them: the catalog of auction files, the search for files,
    the dates in file names, the column order of the saved table and the
    whole comparison. *)

Import Shape.

(** ** The shape of the table the single-auction reader returns *)

Section ReaderShape.

Lemma timed_from_min (g : IDAGroup) (date : Date) (first : nat)
    (ps : list (string * Qc)) :
  ps <> [] ->
  col_min q_Start_Time (timed_from g date first ps)
  = Some (datetime date (start_hour g) 0 + Z.of_nat first * duration_minutes 15).
Proof.
  intros Hne.
  destruct (col_min_nonempty q_Start_Time (timed_from g date first ps)) as [m Hm].
  { destruct ps; [congruence|]. discriminate. }
  rewrite Hm. f_equal. apply col_min_spec in Hm.
  destruct Hm as ((r & Hr & <-) & Hmin).
  apply timed_from_In in Hr. destruct Hr as (i & qp & Hi & ->).
  destruct ps as [|qp0 rest]; [congruence|].
  assert (H0 : In (row_at g date first qp0) (timed_from g date first (qp0 :: rest))).
  { apply timed_from_In. exists 0%nat, qp0. split; [reflexivity|].
    now rewrite Nat.add_0_r. }
  apply Hmin in H0. unfold row_at in *. cbn [q_Start_Time] in *.
  unfold duration_minutes, us_per_minute in *. lia.
Qed.

Lemma hour_chunk_split (j : nat) (ps : list (string * Qc)) :
  ps = firstn (4 * j) ps ++ hour_chunk j ps ++ skipn 4 (skipn (4 * j) ps).
Proof.
  unfold hour_chunk. now rewrite (firstn_skipn 4), (firstn_skipn (4 * j)).
Qed.

Lemma hour_chunk_nonempty (j : nat) (ps : list (string * Qc)) :
  (4 * j < List.length ps)%nat -> hour_chunk j ps <> [].
Proof.
  intros H E. apply (f_equal (@List.length _)) in E. unfold hour_chunk in E.
  rewrite length_firstn, length_skipn in E. cbn [List.length] in E. lia.
Qed.

(** The bucket of the [j]-th hour is the [j]-th chunk of four rows. *)
Lemma bucket_is_chunk (g : IDAGroup) (date : Date) (j : nat) (ps : list (string * Qc)) :
  (4 * j < List.length ps)%nat ->
  bucket (with_start_time g date ps)
         (bucket_key (datetime date (start_hour g + Z.of_nat j) 0))
  = timed_from g date (4 * j) (hour_chunk j ps).
Proof.
  intros Hj. rewrite with_start_time_timed.
  rewrite (hour_chunk_split j ps) at 1.
  assert (Hl1 : List.length (firstn (4 * j) ps) = (4 * j)%nat)
    by (rewrite length_firstn; lia).
  assert (Hl2 : (List.length (hour_chunk j ps) <= 4)%nat)
    by (unfold hour_chunk; rewrite length_firstn; lia).
  rewrite !timed_from_app. unfold bucket. rewrite !filter_app.
  fold (bucket (timed_from g date 0 (firstn (4 * j) ps))
          (bucket_key (datetime date (start_hour g + Z.of_nat j) 0))).
  fold (bucket (timed_from g date (0 + List.length (firstn (4 * j) ps)) (hour_chunk j ps))
          (bucket_key (datetime date (start_hour g + Z.of_nat j) 0))).
  fold (bucket (timed_from g date
                  (0 + List.length (firstn (4 * j) ps) + List.length (hour_chunk j ps))
                  (skipn 4 (skipn (4 * j) ps)))
          (bucket_key (datetime date (start_hour g + Z.of_nat j) 0))).
  rewrite bucket_timed_none, bucket_timed_all, bucket_timed_none.
  - rewrite app_nil_r, Hl1. reflexivity.
  - intros i Hi. rewrite Hl1 in Hi.
    assert (Hfull : List.length (hour_chunk j ps) = 4%nat).
    { unfold hour_chunk in *. rewrite length_firstn, length_skipn in *.
      rewrite length_skipn, length_skipn in Hi. lia. }
    rewrite Hfull in Hi.
    assert (j + 1 <= i / 4)%nat; [|lia].
    apply Nat.div_le_lower_bound; lia.
  - intros i Hi. rewrite Hl1 in Hi. f_equal.
    symmetry. apply Nat.div_unique with (r := (i - 4 * j)%nat); lia.
  - intros i Hi. rewrite Hl1 in Hi.
    assert (i / 4 < j)%nat; [|lia].
    apply Nat.Div0.div_lt_upper_bound; lia.
Qed.

Lemma agg_chunk (g : IDAGroup) (date : Date) (j : nat) (ps : list (string * Qc)) :
  (4 * j < List.length ps)%nat ->
  exists p,
    mean (map snd (hour_chunk j ps)) = Some p /\
    agg (bucket (with_start_time g date ps)
                (bucket_key (datetime date (start_hour g + Z.of_nat j) 0)))
    = [{| Start_Time := datetime date (start_hour g + Z.of_nat j) 0;
          Area_Price_Hour := p |}].
Proof.
  intros Hj. rewrite bucket_is_chunk by exact Hj.
  pose proof (hour_chunk_nonempty j ps Hj) as Hne.
  unfold agg. rewrite timed_from_prices, timed_from_min by exact Hne.
  destruct (mean (map snd (hour_chunk j ps))) as [p|] eqn:E.
  - exists p. split; [reflexivity|]. do 2 f_equal.
    unfold datetime, duration_minutes, us_per_day, us_per_hour, us_per_minute. lia.
  - destruct (hour_chunk j ps); [congruence| discriminate].
Qed.

Lemma hours_touched_lt (j n : nat) : (j < hours_touched n)%nat <-> (4 * j < n)%nat.
Proof.
  unfold hours_touched.
  pose proof (Nat.div_mod_eq (n + 3) 4). pose proof (Nat.mod_upper_bound (n + 3) 4).
  lia.
Qed.

(** Two ascending frames with the same rows and no repeated key are equal. *)
Lemma sorted_distinct_perm_eq {A : Type} (key : A -> Z) (l l' : list A) :
  Sorted (key_le key) l -> Sorted (key_le key) l' ->
  NoDup (map key l) -> Permutation l l' -> l = l'.
Proof.
  assert (Htrans : Relations_1.Transitive (key_le key))
    by (intros x y z; unfold key_le; lia).
  intros Hs Hs'.
  apply Sorted_StronglySorted in Hs; [|exact Htrans].
  apply Sorted_StronglySorted in Hs'; [|exact Htrans].
  revert l' Hs'. induction Hs as [|x t Ht IH Hx]; intros l' Hs' Hnd Hp.
  - now apply Permutation_nil in Hp.
  - destruct Hs' as [|y t' Ht' Hy].
    + symmetry in Hp. now apply Permutation_nil in Hp.
    + assert (E : x = y).
      { assert (Hin : In y (x :: t))
          by (apply Permutation_in with (y :: t'); [now symmetry| now left]).
        assert (Hin' : In x (y :: t'))
          by (apply Permutation_in with (x :: t); [assumption| now left]).
        rewrite Forall_forall in Hx, Hy.
        destruct Hin as [->|Hin]; [reflexivity|].
        destruct Hin' as [->|Hin']; [reflexivity|].
        pose proof (Hx y Hin) as H1. pose proof (Hy x Hin') as H2.
        unfold key_le in H1, H2. simpl in Hnd. inversion Hnd as [|? ? Hn _]; subst.
        exfalso. apply Hn. replace (key x) with (key y) by lia. now apply in_map. }
      subst y. f_equal. simpl in Hnd. inversion Hnd; subst.
      apply IH; [exact Ht'| assumption| now apply Permutation_cons_inv in Hp].
Qed.

Lemma NoDup_of_map {A B : Type} (f : A -> B) (l : list A) :
  NoDup (map f l) -> NoDup l.
Proof.
  induction l as [|x t IH]; simpl; [constructor|].
  intros H. inversion H as [|? ? Hx Ht]; subst. constructor; [|now apply IH].
  intros Hin. apply Hx. now apply in_map.
Qed.

Lemma hour_rows_start_times (g : IDAGroup) (date : Date) (ps : list (string * Qc))
    (js : list nat) :
  (forall j, In j js -> (4 * j < List.length ps)%nat) ->
  map Start_Time (flat_map (hour_row g date ps) js)
  = map (fun j => datetime date (start_hour g + Z.of_nat j) 0) js.
Proof.
  induction js as [|j js IH]; intros H; simpl; [reflexivity|].
  destruct (agg_chunk g date j ps (H j (or_introl eq_refl))) as (p & _ & E).
  unfold hour_row at 1. rewrite E. simpl. f_equal. apply IH.
  intros j' Hj'. apply H. now right.
Qed.

Lemma hour_rows_prices (g : IDAGroup) (date : Date) (ps : list (string * Qc))
    (js : list nat) :
  (forall j, In j js -> (4 * j < List.length ps)%nat) ->
  map (fun r => Some (Area_Price_Hour r)) (flat_map (hour_row g date ps) js)
  = map (fun j => mean (map snd (hour_chunk j ps))) js.
Proof.
  induction js as [|j js IH]; intros H; simpl; [reflexivity|].
  destruct (agg_chunk g date j ps (H j (or_introl eq_refl))) as (p & Hp & E).
  unfold hour_row at 1. rewrite E, Hp. simpl. f_equal. apply IH.
  intros j' Hj'. apply H. now right.
Qed.

Lemma datetime_hour_lt (date : Date) (h h' : Z) :
  h < h' -> datetime date h 0 < datetime date h' 0.
Proof. unfold datetime, us_per_day, us_per_hour, us_per_minute. lia. Qed.

Lemma hours_sorted (date : Date) (h : Z) (first n : nat) :
  Sorted Z.le (map (fun j => datetime date (h + Z.of_nat j) 0) (seq first n)).
Proof.
  revert first. induction n as [|n IH]; intros first; cbn [seq map]; constructor;
    [apply IH|].
  destruct n; cbn [seq map]; constructor.
  pose proof (datetime_hour_lt date (h + Z.of_nat first) (h + Z.of_nat (S first))). lia.
Qed.

Lemma hours_NoDup (date : Date) (h : Z) (first n : nat) :
  NoDup (map (fun j => datetime date (h + Z.of_nat j) 0) (seq first n)).
Proof.
  revert first. induction n as [|n IH]; intros first; cbn [seq map]; constructor;
    [|apply IH].
  intros Hin. apply in_map_iff in Hin. destruct Hin as (j & E & Hj).
  apply in_seq in Hj.
  pose proof (datetime_hour_lt date (h + Z.of_nat first) (h + Z.of_nat j)). lia.
Qed.

Lemma sorted_of_map_key {A : Type} (key : A -> Z) (l : list A) :
  Sorted Z.le (map key l) -> Sorted (key_le key) l.
Proof.
  induction l as [|x t IH]; simpl; intros H; constructor.
  - apply IH. now inversion H.
  - inversion H as [|? ? _ Hd]; subst. destruct t; simpl in *; constructor.
    now inversion Hd.
Qed.

(** The reader returns the hours of the spreadsheet one after the other. *)
Lemma read_single_is_hour_rows (read_excel : string -> list ExcelRow) (path : string)
    (g : IDAGroup) (date : Date) (region : Region) :
  let ps := drop_nulls (read_excel path) in
  hourly_rows (read_single_auction_file read_excel path g date region)
  = flat_map (hour_row g date ps) (seq 0 (hours_touched (List.length ps))).
Proof.
  intros ps. rewrite read_single_rows. unfold quarter_rows. fold ps.
  set (js := seq 0 (hours_touched (List.length ps))).
  assert (Hjs : forall j, In j js -> (4 * j < List.length ps)%nat).
  { intros j Hj. apply in_seq in Hj. apply hours_touched_lt. lia. }
  assert (HT : map Start_Time (flat_map (hour_row g date ps) js)
               = map (fun j => datetime date (start_hour g + Z.of_nat j) 0) js)
    by (apply hour_rows_start_times, Hjs).
  apply sorted_distinct_perm_eq with (key := Start_Time).
  - apply sort_by_sorted.
  - apply (sorted_of_map_key Start_Time).
    pose proof (hours_sorted date (start_hour g) 0 (hours_touched (List.length ps))) as Hs.
    fold js in Hs. rewrite <- HT in Hs. exact Hs.
  - eapply Permutation_NoDup; [apply Permutation_map; symmetry; apply sort_by_perm|].
    apply start_times_NoDup_aux, NoDup_nodup.
  - rewrite sort_by_perm. apply NoDup_Permutation.
    + eapply NoDup_of_map. apply start_times_NoDup_aux, NoDup_nodup.
    + apply NoDup_of_map with (f := Start_Time).
      pose proof (hours_NoDup date (start_hour g) 0 (hours_touched (List.length ps))) as Hn.
      fold js in Hn. rewrite <- HT in Hn. exact Hn.
    + intros row. rewrite !in_flat_map. split.
      * intros (k & Hk & Hrow). pose proof Hrow as Hmin.
        apply agg_inv in Hmin. destruct Hmin as (_ & _ & Hmin).
        apply bucket_min_on_hour in Hmin. destruct Hmin as (j & Et & Hj & Ek).
        exists j. split; [apply in_seq; apply hours_touched_lt in Hj; lia|].
        unfold hour_row. now rewrite <- Et, <- Ek.
      * intros (j & Hj & Hrow). apply Hjs in Hj.
        exists (bucket_key (datetime date (start_hour g + Z.of_nat j) 0)).
        split; [|exact Hrow].
        apply bucket_keys_In.
        destruct (bucket (with_start_time g date ps)
                    (bucket_key (datetime date (start_hour g + Z.of_nat j) 0)))
          as [|r rest] eqn:E.
        -- rewrite bucket_is_chunk in E by exact Hj.
           pose proof (hour_chunk_nonempty j ps Hj) as Hne.
           destruct (hour_chunk j ps); [congruence| discriminate].
        -- assert (Hr : In r (bucket (with_start_time g date ps)
                     (bucket_key (datetime date (start_hour g + Z.of_nat j) 0))))
             by (rewrite E; now left).
           apply bucket_In in Hr. exists r. exact Hr.
Qed.

(** The start times of the hourly rows the reader returns. *)
Lemma reader_start_times (read_excel : string -> list ExcelRow) (path : string)
    (g : IDAGroup) (date : Date) (region : Region) :
  map Start_Time (hourly_rows (read_single_auction_file read_excel path g date region))
  = map (fun j => datetime date (start_hour g + Z.of_nat j) 0)
        (seq 0 (hours_touched (List.length (drop_nulls (read_excel path))))).
Proof.
  rewrite read_single_is_hour_rows. apply hour_rows_start_times.
  intros j Hj. apply in_seq in Hj. apply hours_touched_lt. lia.
Qed.

(** X1.  [read_single_auction_file] returns one row for every hour the
    spreadsheet touches: with [n] quarter rows left by [drop_nulls] these are
    the [ceil(n / 4)] consecutive hours that start at the first hour of the
    group (00:00, and 12:00 for IDA3) on the given date, in this order; the
    price of the [j]-th row is the mean of the quarter rows [4j .. 4j+3], as
    many of them as exist, and the price column is named after the region. *)
Theorem reader_returns_consecutive_hours (read_excel : string -> list ExcelRow)
    (path : string) (g : IDAGroup) (date : Date) (region : Region) :
  let ps := drop_nulls (read_excel path) in
  let out := hourly_rows (read_single_auction_file read_excel path g date region) in
  let hours := seq 0 (hours_touched (List.length ps)) in
  map Start_Time out
  = map (fun j => datetime date (start_hour g + Z.of_nat j) 0) hours /\
  map (fun r => Some (Area_Price_Hour r)) out
  = map (fun j => mean (map snd (hour_chunk j ps))) hours /\
  price_column (read_single_auction_file read_excel path g date region) = region.
Proof.
  intros ps out hours. unfold out. rewrite read_single_is_hour_rows. fold ps.
  assert (Hjs : forall j, In j hours -> (4 * j < List.length ps)%nat).
  { intros j Hj. apply in_seq in Hj. apply hours_touched_lt. lia. }
  split; [now apply hour_rows_start_times|]. split; [now apply hour_rows_prices|].
  reflexivity.
Qed.

End ReaderShape.

(** ** The matcher: what is processed, and when it raises *)

Section MatcherShape.
Variable read_excel : string -> list ExcelRow.

(** The first and the last hour of an auction file. *)
Lemma auction_window (path : string) (g : IDAGroup) (date : Date) (region : Region) :
  let n := List.length (drop_nulls (read_excel path)) in
  let out := hourly_rows (read_single_auction_file read_excel path g date region) in
  (n = 0%nat -> out = []) /\
  ((0 < n)%nat ->
   col_min Start_Time out = Some (datetime date (start_hour g) 0) /\
   col_max Start_Time out
   = Some (datetime date (start_hour g + Z.of_nat (hours_touched n) - 1) 0)).
Proof.
  intros n out.
  pose proof (reader_start_times read_excel path g date region) as HT.
  fold n out in HT.
  split.
  - intros E. rewrite E in HT. simpl in HT. now destruct out.
  - intros Hn.
    assert (Hm : (0 < hours_touched n)%nat) by (apply hours_touched_lt; lia).
    assert (Hmem : forall t, In t (map Start_Time out) <->
              exists j, (j < hours_touched n)%nat /\
                        t = datetime date (start_hour g + Z.of_nat j) 0).
    { intros t. rewrite HT, in_map_iff. split.
      - intros (j & <- & Hj). apply in_seq in Hj. exists j. split; [lia| reflexivity].
      - intros (j & Hj & ->). exists j. split; [reflexivity|]. apply in_seq. lia. }
    assert (Hne : out <> []).
    { intros E. rewrite E in HT. destruct (hours_touched n); [lia| discriminate]. }
    split.
    + destruct (col_min_nonempty Start_Time out Hne) as [m Em]. rewrite Em. f_equal.
      apply col_min_spec in Em. destruct Em as ((r & Hr & <-) & Hmin).
      assert (H0 : In (datetime date (start_hour g) 0) (map Start_Time out)).
      { apply Hmem. exists 0%nat. split; [lia|]. now rewrite Z.add_0_r. }
      apply in_map_iff in H0. destruct H0 as (r0 & E0 & Hr0). apply Hmin in Hr0.
      assert (Hin : In (Start_Time r) (map Start_Time out)) by now apply in_map.
      apply Hmem in Hin. destruct Hin as (j & Hj & Ej).
      rewrite Ej in *. rewrite E0 in Hr0.
      unfold datetime, us_per_day, us_per_hour, us_per_minute in *. lia.
    + destruct out as [|x t] eqn:Eo; [congruence|]. rewrite <- Eo in *.
      assert (exists M, col_max Start_Time out = Some M) as [M EM]
        by (rewrite Eo; simpl; eauto).
      rewrite EM. f_equal.
      apply col_max_spec in EM. destruct EM as ((r & Hr & <-) & Hmax).
      assert (H0 : In (datetime date (start_hour g + Z.of_nat (hours_touched n) - 1) 0)
                      (map Start_Time out)).
      { apply Hmem. exists (hours_touched n - 1)%nat. split; [lia|].
        f_equal. lia. }
      apply in_map_iff in H0. destruct H0 as (r0 & E0 & Hr0). apply Hmax in Hr0.
      assert (Hin : In (Start_Time r) (map Start_Time out)) by now apply in_map.
      apply Hmem in Hin. destruct Hin as (j & Hj & Ej).
      rewrite Ej in *. rewrite E0 in Hr0.
      unfold datetime, us_per_day, us_per_hour, us_per_minute in *. lia.
Qed.

Lemma relevant_forecasts_window (e : AuctionEntry)
    (fs : list ForecastRow) (r : ForecastRow) :
  let n := List.length (drop_nulls (read_excel (filepath e))) in
  let auction_df :=
    hourly_rows (read_single_auction_file read_excel (filepath e) (IDA_Group e)
                   (delivery_date e) (entry_Region e)) in
  In r (relevant_forecasts auction_df fs) <->
  In r fs /\
  datetime (delivery_date e) (start_hour (IDA_Group e)) 0 <= Time r
  <= datetime (delivery_date e)
       (start_hour (IDA_Group e) + Z.of_nat (hours_touched n) - 1) 0.
Proof.
  intros n auction_df. unfold relevant_forecasts. rewrite filter_In.
  destruct (auction_window (filepath e) (IDA_Group e) (delivery_date e) (entry_Region e))
    as (H0 & Hpos).
  fold n auction_df in H0, Hpos.
  destruct (Nat.eq_dec n 0) as [E|E].
  - rewrite (H0 E). simpl. rewrite E. unfold hours_touched. simpl.
    split; [intros [_ F]; discriminate F|].
    intros [_ F]. exfalso.
    unfold datetime, us_per_day, us_per_hour, us_per_minute in F. lia.
  - destruct Hpos as (-> & ->); [lia|]. simpl.
    rewrite andb_true_iff, !Z.leb_le. tauto.
Qed.

(** X2.  For a catalog entry that has forecasts at its issuance hour,
    the matcher raises "No relevant forecasts found" exactly when none of
    these forecasts has its horizon between the first and the last hour of
    the auction file (both included); a file without any complete row has
    no hour at all and always ends the run in this way. *)
Theorem no_overlap_is_fatal (forecast_df : list ForecastRow) (e : AuctionEntry) :
  let n := List.length (drop_nulls (read_excel (filepath e))) in
  let first_hour := datetime (delivery_date e) (start_hour (IDA_Group e)) 0 in
  let last_hour :=
    datetime (delivery_date e)
      (start_hour (IDA_Group e) + Z.of_nat (hours_touched n) - 1) 0 in
  forecasts_for_auction forecast_df e <> [] ->
  (match_entry read_excel forecast_df e = inl (NoRelevantForecasts e) <->
   forall r, In r (forecasts_for_auction forecast_df e) ->
             ~ first_hour <= Time r <= last_hour) /\
  (n = 0%nat -> match_entry read_excel forecast_df e = inl (NoRelevantForecasts e)).
Proof.
  intros n first_hour last_hour Hfs.
  set (auction_df :=
    hourly_rows (read_single_auction_file read_excel (filepath e) (IDA_Group e)
                   (delivery_date e) (entry_Region e))).
  set (rel := relevant_forecasts auction_df (forecasts_for_auction forecast_df e)).
  assert (Hout : match_entry read_excel forecast_df e
                 = inl (NoRelevantForecasts e) <-> rel = []).
  { assert (Hlen : (List.length (forecasts_for_auction forecast_df e) =? 0)%nat = false)
      by (destruct (forecasts_for_auction forecast_df e); [congruence| reflexivity]).
    unfold match_entry. rewrite Hlen. fold auction_df. fold rel.
    destruct rel as [|x l]; simpl; split; intros H;
      try reflexivity; discriminate H. }
  assert (Hrel : rel = [] <->
     forall r, In r (forecasts_for_auction forecast_df e) ->
               ~ first_hour <= Time r <= last_hour).
  { split.
    - intros E r Hr Hw.
      assert (Hin : In r rel)
        by (apply (relevant_forecasts_window e); auto).
      rewrite E in Hin. destruct Hin.
    - intros H. destruct rel as [|x l] eqn:E; [reflexivity|].
      assert (Hin : In x rel) by (rewrite E; now left).
      apply (relevant_forecasts_window e) in Hin.
      destruct Hin as [Hx Hw]. now apply H in Hx. }
  split; [now rewrite Hout|].
  intros En. apply Hout, Hrel. intros r _ Hw.
  unfold first_hour, last_hour in Hw. fold n in Hw. rewrite En in Hw.
  unfold hours_touched in Hw. simpl in Hw.
  unfold datetime, us_per_day, us_per_hour, us_per_minute in Hw. lia.
Qed.

Lemma left_join_nonempty (left : list ForecastRow) (right : list HourlyRow) :
  left <> [] -> left_join left right <> [].
Proof.
  destruct left as [|l t]; [congruence|]. intros _. rewrite left_join_cons.
  destruct (filter_eq Start_Time (Time l) right); discriminate.
Qed.

Lemma match_entry_table (forecast_df : list ForecastRow) (e : AuctionEntry)
    (t : JoinedFrame) :
  match_entry read_excel forecast_df e = inr t ->
  joined_rows t <> [] /\ auction_price_column t = entry_Region e /\
  Forall (fun row => j_Region row = entry_Region e /\
                     j_IDA_Group row = IDA_Group e /\
                     j_Auction_Filepath row = filepath e) (joined_rows t).
Proof.
  unfold match_entry.
  destruct (List.length (forecasts_for_auction forecast_df e) =? 0)%nat; [discriminate|].
  destruct (relevant_forecasts _ _) as [|x l] eqn:E; [discriminate|].
  cbn [List.length Nat.eqb]. intros H. injection H as <-.
  cbn [joined_rows auction_price_column]. split; [|split; [reflexivity|]].
  - intros En. apply map_eq_nil in En.
    refine (left_join_nonempty (x :: l) _ _ En). discriminate.
  - apply Forall_forall. intros row Hrow. apply in_map_iff in Hrow.
    destruct Hrow as (fp & <- & _). cbn [j_Region j_IDA_Group j_Auction_Filepath]. auto.
Qed.

Lemma match_loop_spec (forecast_df : list ForecastRow) (es : list AuctionEntry)
    (acc tables : list JoinedFrame) :
  match_loop read_excel forecast_df es acc = inr tables <->
  exists ts, tables = acc ++ ts /\
             Forall2 (fun e t => match_entry read_excel forecast_df e = inr t) es ts.
Proof.
  revert acc. induction es as [|e es IH]; intros acc; simpl.
  - split.
    + intros H. injection H as <-. exists []. split; [now rewrite app_nil_r| constructor].
    + intros (ts & -> & H). inversion H. now rewrite app_nil_r.
  - destruct (match_entry read_excel forecast_df e) as [err|t] eqn:E.
    + split; [discriminate|]. intros (ts & _ & H). inversion H; subst. congruence.
    + rewrite IH. split.
      * intros (ts & -> & H). exists (t :: ts). split; [now rewrite <- app_assoc|].
        now constructor.
      * intros (ts & -> & H). inversion H as [|? t' ? ts' Ht Hts]; subst.
        exists ts'. split; [|exact Hts].
        rewrite <- app_assoc. simpl. congruence.
Qed.

Lemma tables_shape (forecast_df : list ForecastRow) (es : list AuctionEntry)
    (ts : list JoinedFrame) :
  Forall2 (fun e t => match_entry read_excel forecast_df e = inr t) es ts ->
  List.length ts = List.length es /\
  Forall (fun t => joined_rows t <> []) ts /\
  map auction_price_column ts = map entry_Region es.
Proof.
  induction 1 as [|e t es ts Het _ IH]; simpl; [repeat split; constructor|].
  destruct IH as (Hl & Hf & Hc). apply match_entry_table in Het.
  destruct Het as (Hne & Hcol & _).
  split; [now rewrite Hl|]. split; [now constructor|]. now rewrite Hcol, Hc.
Qed.

(** X3.  [match_auction_with_forecast] returns a list exactly when
    every processed entry is matched, and then the list holds one table per
    processed entry, in processing order; no table is empty, and the price
    column of each table is the one of its entry's region. *)
Theorem one_table_per_processed_entry (forecast_df : list ForecastRow)
    (all_auctions_df : list AuctionEntry) (tables : list JoinedFrame) :
  (match_auction_with_forecast read_excel forecast_df all_auctions_df = inr tables <->
   Forall2 (fun e t => match_entry read_excel forecast_df e = inr t)
           (entries_to_process forecast_df all_auctions_df) tables) /\
  (match_auction_with_forecast read_excel forecast_df all_auctions_df = inr tables ->
   List.length tables = List.length (entries_to_process forecast_df all_auctions_df) /\
   Forall (fun t => joined_rows t <> []) tables /\
   map auction_price_column tables
   = map entry_Region (entries_to_process forecast_df all_auctions_df)).
Proof.
  assert (Hiff : match_auction_with_forecast read_excel forecast_df all_auctions_df
                 = inr tables <->
     Forall2 (fun e t => match_entry read_excel forecast_df e = inr t)
             (entries_to_process forecast_df all_auctions_df) tables).
  { unfold match_auction_with_forecast. rewrite match_loop_spec. simpl. split.
    - now intros (ts & -> & H).
    - intros H. eauto. }
  split; [exact Hiff|]. intros H. apply Hiff in H. now apply (tables_shape forecast_df).
Qed.

End MatcherShape.

(** X4.  The entries the matcher processes are the catalog entries
    whose delivery date is the date of some forecast horizon, and no other
    entry; they are ordered by delivery date, then region, then group, and
    are never more than the catalog holds. *)
Theorem processing_order (forecast_df : list ForecastRow)
    (all_auctions_df : list AuctionEntry) :
  Sorted catalog_le (entries_to_process forecast_df all_auctions_df) /\
  (forall e, In e (entries_to_process forecast_df all_auctions_df) <->
             In e all_auctions_df /\ has_forecast_horizon forecast_df e) /\
  (List.length (entries_to_process forecast_df all_auctions_df)
   <= List.length all_auctions_df)%nat.
Proof.
  split; [|split].
  - unfold entries_to_process.
    pose proof (sort_by_sorted catalog_key
      (filter (fun e => existsb (Z.eqb (delivery_date e))
                          (map (fun r => dt_date (Time r)) forecast_df))
              all_auctions_df)) as H.
    induction H as [|x t _ IH Hd]; constructor; [exact IH|].
    destruct Hd; constructor. now apply catalog_key_lexicographic.
  - intros e. apply entries_to_process_In.
  - unfold entries_to_process. rewrite sort_by_length. apply filter_length_le.
Qed.

(** ** The merger: errors, order and what is kept *)

Section MergerShape.

(** The ways in which the merger raises. *)
Lemma merge_raises_schema (ms : list JoinedFrame) :
  ms <> [] -> stacks ms = false ->
  merge_forecast_and_auction_dataframes ms = inl SchemaError.
Proof.
  intros Hne Hs. rewrite merge_decided, Hs.
  destruct ms; [congruence| reflexivity].
Qed.

Lemma merge_raises_DK1 (ms : list JoinedFrame) :
  ms <> [] -> stacks ms = true ->
  all_rows ms = [] \/ brings_column DK1 ms = false ->
  merge_forecast_and_auction_dataframes ms = inl (ColumnNotFound "Auction_Price_DK1").
Proof.
  intros Hne Hs Hor. rewrite merge_decided, Hs.
  destruct ms as [|m ms]; [congruence|]. cbn [List.length Nat.eqb negb].
  destruct Hor as [E|E]; rewrite E; [reflexivity|].
  now rewrite andb_false_r.
Qed.

Lemma merge_raises_DK2 (ms : list JoinedFrame) :
  all_rows ms <> [] -> stacks ms = true ->
  brings_column DK1 ms = true -> brings_column DK2 ms = false ->
  merge_forecast_and_auction_dataframes ms = inl (ColumnNotFound "Auction_Price_DK2").
Proof.
  intros Hne Hs H1 H2. rewrite merge_decided, Hs, H1, H2.
  destruct ms as [|m ms]; [discriminate H1|].
  destruct (all_rows (m :: ms)); [congruence| reflexivity].
Qed.

Lemma priced_at_false (reg : Region) (ms : list JoinedFrame) (T : Datetime) :
  priced_at reg ms T = false <-> auction_prices_at reg T ms = [].
Proof.
  unfold priced_at. destruct (auction_prices_at reg T ms); simpl; split; congruence.
Qed.

Lemma forallb_false_exists {A : Type} (f : A -> bool) (l : list A) :
  forallb f l = false -> exists x, In x l /\ f x = false.
Proof.
  induction l as [|x t IH]; simpl; [discriminate|].
  destruct (f x) eqn:E; simpl.
  - intros H. destruct (IH H) as (y & Hy & Hf). eauto.
  - eauto.
Qed.

(** The groups do not stack in the column of a region when some later
    horizon time carries a price of the region and the first one none. *)
Lemma stacks_column_false (reg : Region) (ms : list JoinedFrame) :
  stacks_column reg ms = false <->
  exists first later t,
    horizon_times ms = first :: later /\ In t later /\
    auction_prices_at reg first ms = [] /\ auction_prices_at reg t ms <> [].
Proof.
  unfold stacks_column. destruct (horizon_times ms) as [|first later].
  - split; [discriminate|]. intros (f & l & t & H & _). discriminate H.
  - rewrite orb_false_iff. split.
    + intros [Hf Hl]. apply priced_at_false in Hf.
      apply forallb_false_exists in Hl. destruct Hl as (t & Hin & Ht).
      exists first, later, t. repeat split; auto.
      intros E. apply priced_at_false in E. rewrite E in Ht. discriminate Ht.
    + intros (f & l & t & H & Hin & Hf & Ht). injection H as <- <-.
      split; [now apply priced_at_false|].
      apply not_true_iff_false. intros Hall.
      rewrite forallb_forall in Hall. specialize (Hall t Hin).
      apply negb_true_iff, priced_at_false in Hall. contradiction.
Qed.

(** X5.  [merge_forecast_and_auction_dataframes] raises on the empty
    list (no column [Time]).  On a list that is not empty it raises the
    schema error of the vertical concatenation when the time groups do not
    stack, that is when, for one of the regions, the earliest horizon time
    carries no auction price of the region and a later horizon time carries
    one.  When the groups stack, it raises on tables without any row or
    without a DK1 table (no column [Auction_Price_DK1]) and on tables
    without a DK2 table (no column [Auction_Price_DK2]); it returns a table
    exactly when the list holds a DK1 table, a DK2 table and at least one
    row, and the groups stack. *)
Theorem merge_raises_or_returns (ms : list JoinedFrame) :
  (ms = [] ->
   merge_forecast_and_auction_dataframes ms = inl (ColumnNotFound "Time")) /\
  (ms <> [] -> stacks ms = false ->
   merge_forecast_and_auction_dataframes ms = inl SchemaError) /\
  (ms <> [] -> stacks ms = true ->
   all_rows ms = [] \/ brings_column DK1 ms = false ->
   merge_forecast_and_auction_dataframes ms
   = inl (ColumnNotFound "Auction_Price_DK1")) /\
  (all_rows ms <> [] -> stacks ms = true ->
   brings_column DK1 ms = true -> brings_column DK2 ms = false ->
   merge_forecast_and_auction_dataframes ms
   = inl (ColumnNotFound "Auction_Price_DK2")) /\
  ((exists out, merge_forecast_and_auction_dataframes ms = inr out) <->
   brings_column DK1 ms = true /\ brings_column DK2 ms = true /\
   all_rows ms <> [] /\ stacks ms = true) /\
  (stacks ms = false <->
   exists reg first later t,
     horizon_times ms = first :: later /\ In t later /\
     auction_prices_at reg first ms = [] /\ auction_prices_at reg t ms <> []).
Proof.
  split; [intros ->; reflexivity|]. split; [apply merge_raises_schema|].
  split; [apply merge_raises_DK1|]. split; [apply merge_raises_DK2|]. split.
  - split.
    + intros (out & H). pose proof (merge_returns_stacks ms out H) as Hs.
      apply merge_returns_inv in H. tauto.
    + intros (H1 & H2 & Hne & Hs). rewrite (merge_returns ms H1 H2 Hne Hs). eauto.
  - unfold stacks. rewrite andb_false_iff, !stacks_column_false. split.
    + intros [(f & l & t & H)|(f & l & t & H)]; [exists DK1| exists DK2]; eauto.
    + intros ([|] & f & l & t & H); [left| right]; eauto.
Qed.

(** X6.  The merged table is ordered by [Time], and at every horizon
    time it holds as many rows as the larger of the two numbers of non-null
    auction prices, DK1 and DK2, that the tables hold at that time. *)
Theorem merge_output_order_and_counts (ms : list JoinedFrame) (out : list MergedRow) :
  merge_forecast_and_auction_dataframes ms = inr out ->
  Sorted Z.le (map m_Time out) /\
  forall T,
    List.length (filter_eq m_Time T out)
    = Nat.max (List.length (auction_prices_at DK1 T ms))
              (List.length (auction_prices_at DK2 T ms)).
Proof.
  intros H. split; [now apply merge_output_sorted with ms|].
  intros T. now apply output_count_at.
Qed.

(** X7.  The merger neither loses nor invents an auction price: at
    every horizon time the non-null DK1 prices of the merged table are the
    non-null DK1 prices of the tables at that time, in the order of the
    tables, and likewise for DK2. *)
Theorem merge_keeps_every_price (ms : list JoinedFrame) (out : list MergedRow) :
  merge_forecast_and_auction_dataframes ms = inr out ->
  forall T,
    non_null_values (map Auction_Price_DK1 (filter_eq m_Time T out))
    = auction_prices_at DK1 T ms /\
    non_null_values (map Auction_Price_DK2 (filter_eq m_Time T out))
    = auction_prices_at DK2 T ms.
Proof.
  intros H T. split; [now apply output_prices_DK1| now apply output_prices_DK2].
Qed.

(** X8.  The forecast columns and the tags (group, region, file path)
    of the merged rows at a horizon time are those of the first rows of
    that time in the concatenated tables: the compaction moves prices only,
    and the rows that are dropped are the trailing ones. *)
Theorem merge_keeps_leading_rows (ms : list JoinedFrame) (out : list MergedRow) :
  merge_forecast_and_auction_dataframes ms = inr out ->
  forall T,
    map untouched_columns (filter_eq m_Time T out)
    = firstn (Nat.max (List.length (auction_prices_at DK1 T ms))
                      (List.length (auction_prices_at DK2 T ms)))
             (map untouched_columns (filter_eq m_Time T (all_rows ms))).
Proof.
  intros H T. rewrite (output_rows_at ms out T H), compact_rows_survivors.
  rewrite prices_at_DK1, prices_at_DK2, <- firstn_map. f_equal.
  apply compact_rows_map; reflexivity.
Qed.

End MergerShape.

(** ** The forecast loader: what it returns and how it fails *)

Section LoaderFacts.
Variable isfile : string -> bool.
Variable read_csv : string -> CsvFrame.
Variable strptime : string -> option Datetime.
Variable cast_float : string -> option Qc.

(** The cleaning returns exactly on a file whose columns are all text. *)
Lemma clean_returns (forecast_df : CsvFrame) (lines : list CsvRow) :
  clean forecast_df = inr lines ->
  non_text_columns forecast_df = [].
Proof. unfold clean. destruct (non_text_columns forecast_df); [reflexivity| discriminate]. Qed.

Lemma clean_raises (forecast_df : CsvFrame) (err : ForecastError) :
  clean forecast_df = inl err <->
  non_text_columns forecast_df <> [] /\ err = ComputeError.
Proof.
  unfold clean. destruct (non_text_columns forecast_df).
  - split; [discriminate| intros [H _]; congruence].
  - split; [intros H; injection H as <-; split; [discriminate| reflexivity]|].
    intros [_ ->]. reflexivity.
Qed.

Lemma clean_In (forecast_df : CsvFrame) (lines : list CsvRow) (c : CsvRow) :
  clean forecast_df = inr lines ->
  (In c lines <-> In c (csv_lines forecast_df) /\ kept_line c).
Proof.
  unfold clean. destruct (non_text_columns forecast_df); [|discriminate].
  intros H. injection H as <-.
  unfold kept_line, cells. rewrite !filter_In. simpl.
  destruct (csv_PTime c) as [p|], (csv_Time c) as [t|],
           (cor_pe_RegPrice_DK1 c) as [a|], (cor_pe_RegPrice_DK2 c) as [b|]; simpl;
    try (split; [intros [[_ F] _]; discriminate F
                | intros (_ & ? & ? & ? & ? & H1 & H2 & H3 & H4 & _); discriminate]).
  rewrite !orb_false_r. split.
  - intros [[Hin _] H]. split; [exact Hin|]. exists p, t, a, b.
    rewrite !negb_true_iff, !orb_false_iff, !String.eqb_neq in H. tauto.
  - intros (Hin & p' & t' & a' & b' & E1 & E2 & E3 & E4 & N1 & N2 & N3 & N4).
    injection E1 as <-. injection E2 as <-. injection E3 as <-. injection E4 as <-.
    split; [auto|].
    rewrite !negb_true_iff, !orb_false_iff, !String.eqb_neq. tauto.
Qed.

Lemma convert_all_Forall2 (rows : list CsvRow) (parsed : list ForecastRow) :
  convert_all strptime cast_float rows = Some parsed <->
  Forall2 (fun c r => convert strptime cast_float c = Some r) rows parsed.
Proof.
  revert parsed. induction rows as [|c rows IH]; intros parsed; simpl.
  - split; [intros H; injection H as <-; constructor| intros H; now inversion H].
  - destruct (convert strptime cast_float c) as [r|] eqn:Ec.
    + destruct (convert_all strptime cast_float rows) as [t|] eqn:Et.
      * split.
        -- intros H. injection H as <-. constructor; [exact Ec| now apply IH].
        -- intros H. inversion H as [|? r' ? t' Hr Ht]; subst.
           apply IH in Ht. congruence.
      * split; [discriminate|]. intros H. inversion H as [|? r' ? t' Hr Ht]; subst.
        apply IH in Ht. discriminate.
    + split; [discriminate|]. intros H. inversion H; subst. congruence.
Qed.

Lemma Forall2_In_r {A B : Type} (R : A -> B -> Prop) (l : list A) (l' : list B) (y : B) :
  Forall2 R l l' -> In y l' -> exists x, In x l /\ R x y.
Proof.
  induction 1 as [|a b l l' Hab _ IH]; intros Hin; [destruct Hin|].
  destruct Hin as [<-|Hin]; [exists a; split; [now left| exact Hab]|].
  destruct (IH Hin) as (x & Hx & Hr). exists x. split; [now right| exact Hr].
Qed.

Lemma Forall2_In_l {A B : Type} (R : A -> B -> Prop) (l : list A) (l' : list B) (x : A) :
  Forall2 R l l' -> In x l -> exists y, In y l' /\ R x y.
Proof.
  induction 1 as [|a b l l' Hab _ IH]; intros Hin; [destruct Hin|].
  destruct Hin as [<-|Hin]; [exists b; split; [now left| exact Hab]|].
  destruct (IH Hin) as (y & Hy & Hr). exists y. split; [now right| exact Hr].
Qed.

(** X9.  A table returned by [read_forecast_df] comes from an existing
    file all of whose columns were read as text, is ordered by [PTime], and
    holds exactly the converted lines of the file that have no empty cell
    and no cell reading [NA]: one row per such line, and no other row. *)
Theorem loader_returns_sorted_clean_rows (forecast_path : option string)
    (validate : bool) (df : list ForecastRow) :
  read_forecast_df isfile read_csv strptime cast_float forecast_path validate = inr df ->
  exists path lines,
    forecast_path = Some path /\ isfile path = true /\
    non_text_columns (read_csv path) = [] /\
    clean (read_csv path) = inr lines /\
    Sorted Z.le (map PTime df) /\
    List.length df = List.length lines /\
    (forall r, In r df ->
       exists c, In c (csv_lines (read_csv path)) /\ kept_line c /\
                 convert strptime cast_float c = Some r) /\
    (forall c, In c (csv_lines (read_csv path)) -> kept_line c ->
       exists r, In r df /\ convert strptime cast_float c = Some r).
Proof.
  unfold read_forecast_df. destruct forecast_path as [path|]; [|discriminate].
  destruct (isfile path) eqn:Ef; simpl; [|discriminate].
  destruct (clean (read_csv path)) as [err|lines] eqn:Ec; [discriminate|].
  destruct (convert_all strptime cast_float lines) as [parsed|] eqn:Ep;
    [|discriminate].
  intros H.
  assert (E : df = sort_by PTime parsed).
  { destruct validate; [|congruence].
    destruct (check_unique_time_ptime_combinations (sort_by PTime parsed));
      simpl in H; congruence. }
  clear H. subst df. exists path, lines. apply convert_all_Forall2 in Ep.
  split; [reflexivity|]. split; [exact Ef|].
  split; [exact (clean_returns _ _ Ec)|]. split; [exact Ec|].
  split; [|split; [|split]].
  - apply sorted_map_key, sort_by_sorted.
  - rewrite sort_by_length. symmetry. eapply Forall2_length. exact Ep.
  - intros r Hr. apply sort_by_In in Hr.
    destruct (Forall2_In_r _ _ _ r Ep Hr) as (c & Hc & Hconv).
    apply (clean_In _ _ c Ec) in Hc. exists c. tauto.
  - intros c Hc Hk.
    assert (Hin : In c lines) by (apply (clean_In _ _ c Ec); auto).
    destruct (Forall2_In_l _ _ _ c Ep Hin) as (r & Hr & Hconv).
    exists r. split; [now apply sort_by_In| exact Hconv].
Qed.

Lemma convert_all_None (rows : list CsvRow) :
  convert_all strptime cast_float rows = None <->
  exists c, In c rows /\ convert strptime cast_float c = None.
Proof.
  induction rows as [|c rows IH]; simpl.
  - split; [discriminate| intros (c & [] & _)].
  - destruct (convert strptime cast_float c) as [r|] eqn:Ec.
    + destruct (convert_all strptime cast_float rows) as [t|].
      * split; [discriminate|]. intros (c' & [<-|Hc'] & E); [congruence|].
        assert (H : @None (list ForecastRow) = None) by reflexivity.
        enough (Some t = None) by discriminate. apply IH. eauto.
      * split; [|reflexivity]. intros _.
        destruct (proj1 IH eq_refl) as (c' & Hc' & E). eauto.
    + split; [|reflexivity]. intros _. exists c. auto.
Qed.

(** X10.  [read_forecast_df] raises on the path [None] and on a path
    that is no file.  On an existing file it raises at the comparison with
    [NA] exactly when some column was not read as text; the conversion
    fails exactly when every column was read as text and some kept line
    holds a cell that does not convert; and with the validation switched
    off the uniqueness error is never raised. *)
Theorem loader_errors (path : string) (validate : bool) :
  read_forecast_df isfile read_csv strptime cast_float None validate = inl PathIsNone /\
  (isfile path = false ->
   read_forecast_df isfile read_csv strptime cast_float (Some path) validate
   = inl (FileNotFound path)) /\
  (isfile path = true ->
   (read_forecast_df isfile read_csv strptime cast_float (Some path) validate
    = inl ComputeError <->
    non_text_columns (read_csv path) <> [])) /\
  (isfile path = true ->
   (read_forecast_df isfile read_csv strptime cast_float (Some path) validate
    = inl ParseFailure <->
    non_text_columns (read_csv path) = [] /\
    exists c, In c (csv_lines (read_csv path)) /\ kept_line c /\
              convert strptime cast_float c = None)) /\
  read_forecast_df isfile read_csv strptime cast_float (Some path) false
  <> inl NotUnique.
Proof.
  split; [reflexivity|]. split; [|split; [|split]].
  - intros E. unfold read_forecast_df. now rewrite E.
  - intros E. unfold read_forecast_df. rewrite E. simpl.
    destruct (clean (read_csv path)) as [err|lines] eqn:Ec.
    + apply clean_raises in Ec. destruct Ec as [Hn ->]. tauto.
    + apply clean_returns in Ec. rewrite Ec. split; [|congruence].
      destruct (convert_all _ _ _); [|discriminate].
      destruct validate; [|discriminate].
      destruct (check_unique_time_ptime_combinations _); discriminate.
  - intros E. unfold read_forecast_df. rewrite E. simpl.
    destruct (clean (read_csv path)) as [err|lines] eqn:Ec.
    + apply clean_raises in Ec. destruct Ec as [Hn ->].
      split; [discriminate| intros [H _]; contradiction].
    + pose proof (clean_returns _ _ Ec) as Ht.
      destruct (convert_all strptime cast_float lines) as [parsed|] eqn:Ep.
      * split.
        -- destruct validate; [|discriminate].
           destruct (check_unique_time_ptime_combinations _); discriminate.
        -- intros (_ & c & Hc & Hk & Hn).
           assert (Hex : exists c, In c lines /\ convert strptime cast_float c = None).
           { exists c. split; [apply (clean_In _ _ c Ec); auto| exact Hn]. }
           apply convert_all_None in Hex. congruence.
      * split; [|reflexivity]. intros _. split; [exact Ht|].
        apply convert_all_None in Ep.
        destruct Ep as (c & Hc & Hn). apply (clean_In _ _ c Ec) in Hc. exists c. tauto.
  - unfold read_forecast_df. destruct (isfile path); simpl; [|discriminate].
    destruct (clean (read_csv path)) as [err|lines] eqn:Ec.
    + apply clean_raises in Ec. destruct Ec as [_ ->]. discriminate.
    + destruct (convert_all _ _ _); discriminate.
Qed.

End LoaderFacts.

(** ** The metrics: nulls, signs and the perfect forecast *)

Section MetricsSigns.

Lemma region_metrics_formulas (reg : Region) (pl_data : list MergedRow) :
  let m := region_metrics reg pl_data in
  let obs := region_observations reg pl_data in
  MAE m = mean (map absolute_error obs) /\
  MSE m = mean (map squared_error obs) /\
  RMSE m = option_map (fun v : Qc => sqrt (Q2R v)) (mean (map squared_error obs)) /\
  MAPE m = mean (map absolute_percentage_error obs).
Proof.
  pose proof (metrics_of_spec (region_forecast reg) (region_auction reg) pl_data) as H.
  cbv zeta in *. destruct H as (A & B & C & D & _).
  destruct reg; simpl; auto.
Qed.

Lemma Q2R_Qc_opp (x : Qc) : Q2R (this (- x)%Qc) = (- Q2R x)%R.
Proof.
  rewrite <- Q2R_opp. apply Qeq_eqR.
  change (this (- x)%Qc) with (Qred (- x)). apply Qred_correct.
Qed.

Lemma Q2R_Qc_zero : Q2R (this (Q2Qc 0)) = 0%R.
Proof. unfold Q2R. simpl. lra. Qed.

Lemma Q2R_Qc_inv (x : Qc) : x <> Q2Qc 0 -> Q2R (this (/ x)%Qc) = (/ Q2R x)%R.
Proof.
  intros Hx. rewrite <- Q2R_inv.
  - apply Qeq_eqR. change (this (/ x)%Qc) with (Qred (/ x)). apply Qred_correct.
  - intros E. apply Hx. apply Qc_is_canon. rewrite E. reflexivity.
Qed.

Lemma Qc_abs_nonneg_R (x : Qc) : (0 <= Q2R (Qc_abs x))%R.
Proof.
  unfold Qc_abs. destruct (Qclt_le_dec x (Q2Qc 0)) as [H|H].
  - rewrite Q2R_Qc_opp. apply Qlt_Rlt in H. rewrite Q2R_Qc_zero in H. lra.
  - apply Qle_Rle in H. rewrite Q2R_Qc_zero in H. exact H.
Qed.

Lemma inv_count_pos (l : list Qc) :
  l <> [] ->
  (0 < Q2R (this (/ Q2Qc (inject_Z (Z.of_nat (List.length l))))%Qc))%R.
Proof.
  intros Hne. set (n := Z.of_nat (List.length l)).
  assert (Hn : (0 < n)%Z) by (unfold n; destruct l; [congruence|]; simpl; lia).
  assert (Hq : (0 < / inject_Z n)%Q).
  { apply Qinv_lt_0_compat. unfold Qlt. simpl. lia. }
  replace 0%R with (Q2R 0) by (unfold Q2R; simpl; lra).
  apply Qlt_Rlt.
  assert (Ei : this (/ Q2Qc (inject_Z n))%Qc == / inject_Z n).
  { change (this (/ Q2Qc (inject_Z n))%Qc) with (Qred (/ Qred (inject_Z n))).
    rewrite Qred_correct. apply Qinv_comp. apply Qred_correct. }
  rewrite Ei. exact Hq.
Qed.

Lemma sum_nonneg_R (l : list Qc) :
  Forall (fun x : Qc => (0 <= Q2R x)%R) l -> (0 <= Q2R (sum_Qc l))%R.
Proof.
  induction 1 as [|x t Hx _ IH].
  - change (sum_Qc []) with (Q2Qc 0). rewrite Q2R_Qc_zero. lra.
  - rewrite sum_Qc_cons, Q2R_Qc_plus. lra.
Qed.

Lemma sum_nonpos_R (l : list Qc) :
  Forall (fun x : Qc => (Q2R x <= 0)%R) l -> (Q2R (sum_Qc l) <= 0)%R.
Proof.
  induction 1 as [|x t Hx _ IH].
  - change (sum_Qc []) with (Q2Qc 0). rewrite Q2R_Qc_zero. lra.
  - rewrite sum_Qc_cons, Q2R_Qc_plus. lra.
Qed.

Lemma mean_nonneg_R (l : list Qc) (m : Qc) :
  Forall (fun x : Qc => (0 <= Q2R x)%R) l -> mean l = Some m -> (0 <= Q2R m)%R.
Proof.
  intros Hl H. apply mean_Some in H. destruct H as [Hne ->].
  unfold Qcdiv. rewrite Q2R_Qc_mult.
  apply Rmult_le_pos; [now apply sum_nonneg_R|].
  apply Rlt_le, inv_count_pos, Hne.
Qed.

Lemma mean_nonpos_R (l : list Qc) (m : Qc) :
  Forall (fun x : Qc => (Q2R x <= 0)%R) l -> mean l = Some m -> (Q2R m <= 0)%R.
Proof.
  intros Hl H. apply mean_Some in H. destruct H as [Hne ->].
  unfold Qcdiv. rewrite Q2R_Qc_mult.
  pose proof (sum_nonpos_R l Hl) as Hs. pose proof (inv_count_pos l Hne) as Hi.
  nra.
Qed.

Lemma Qc_nonneg_of_R (x : Qc) : (0 <= Q2R x)%R -> (Q2Qc 0 <= x)%Qc.
Proof.
  intros H. unfold Qcle. apply Rle_Qle. now rewrite Q2R_Qc_zero.
Qed.

Lemma Qc_nonpos_of_R (x : Qc) : (Q2R x <= 0)%R -> (x <= Q2Qc 0)%Qc.
Proof.
  intros H. unfold Qcle. apply Rle_Qle. now rewrite Q2R_Qc_zero.
Qed.

Lemma ape_sign (fa : Qc * Qc) :
  ((Q2Qc 0 <= snd fa)%Qc -> (0 <= Q2R (absolute_percentage_error fa))%R) /\
  ((snd fa < Q2Qc 0)%Qc -> (Q2R (absolute_percentage_error fa) <= 0)%R).
Proof.
  unfold absolute_percentage_error, absolute_error, Qcdiv.
  rewrite Q2R_Qc_mult, Q2R_Qc_inv by apply safe_divisor_nonzero.
  pose proof (Qc_abs_nonneg_R (fst fa - snd fa)) as Ha.
  unfold safe_divisor. destruct (Qc_eq_dec (snd fa) (Q2Qc 0)) as [E|E].
  - assert (He : (0 < Q2R epsilon)%R).
    { replace 0%R with (Q2R 0) by (unfold Q2R; simpl; lra).
      apply Qlt_Rlt. reflexivity. }
    split.
    + intros _. apply Rmult_le_pos; [exact Ha|].
      apply Rlt_le, Rinv_0_lt_compat, He.
    + intros H. rewrite E in H. exfalso. revert H. apply Qcle_not_lt, Qcle_refl.
  - split.
    + intros H. apply Qle_Rle in H. rewrite Q2R_Qc_zero in H.
      assert (Hpos : (0 < Q2R (snd fa))%R).
      { destruct H as [H|H]; [exact H|]. exfalso. apply E.
        apply Qc_is_canon. apply eqR_Qeq. rewrite Q2R_Qc_zero. now symmetry. }
      apply Rmult_le_pos; [exact Ha|]. apply Rlt_le, Rinv_0_lt_compat, Hpos.
    + intros H. apply Qlt_Rlt in H. rewrite Q2R_Qc_zero in H.
      pose proof (Rinv_lt_0_compat _ H) as Hi. nra.
Qed.

Lemma observations_nil (forecast : MergedRow -> Qc) (auction : MergedRow -> option Qc)
    (pl_data : list MergedRow) :
  observations forecast auction pl_data = [] <->
  Forall (fun r => auction r = None) pl_data.
Proof.
  unfold observations. induction pl_data as [|r t IH]; simpl.
  - split; auto.
  - destruct (auction r) eqn:E; simpl.
    + split; [discriminate|]. intros H. inversion H. congruence.
    + rewrite IH. split; [intros H; now constructor| intros H; now inversion H].
Qed.

Lemma mean_None (l : list Qc) : mean l = None <-> l = [].
Proof. destruct l; simpl; split; congruence. Qed.

(** X11.  The four metrics of a region are null together: all four are
    null when no row carries an auction price of the region, and all four
    have a value as soon as one row does. *)
Theorem metrics_null_without_auction_prices (reg : Region) (pl_data : list MergedRow) :
  let m := region_metrics reg pl_data in
  (Forall (fun r => region_auction reg r = None) pl_data <->
   MAE m = None /\ MSE m = None /\ RMSE m = None /\ MAPE m = None) /\
  (Exists (fun r => region_auction reg r <> None) pl_data <->
   exists mae mse rmse mape,
     MAE m = Some mae /\ MSE m = Some mse /\ RMSE m = Some rmse /\ MAPE m = Some mape).
Proof.
  intros m. destruct (region_metrics_formulas reg pl_data) as (A & B & C & D).
  fold m in A, B, C, D. rewrite A, B, C, D.
  pose proof (observations_nil (region_forecast reg) (region_auction reg) pl_data) as Hn.
  fold (region_observations reg pl_data) in Hn.
  destruct (region_observations reg pl_data) as [|fa obs] eqn:E.
  - split.
    + split; [intros _; simpl; auto| intros _; now apply Hn].
    + split.
      * intros He. exfalso. apply Exists_exists in He. destruct He as (r & Hr & Hne).
        assert (Hall : Forall (fun r => region_auction reg r = None) pl_data)
          by now apply Hn.
        rewrite Forall_forall in Hall. auto.
      * intros (a & _ & _ & _ & F & _). discriminate F.
  - split.
    + split; [|intros (F & _); discriminate F].
      intros Hall. apply Hn in Hall. discriminate.
    + split; [intros _; simpl; eauto 8|]. intros _.
      apply Exists_exists.
      assert (Hnot : ~ Forall (fun r => region_auction reg r = None) pl_data)
        by (intros F; apply Hn in F; discriminate).
      apply neg_Forall_Exists_neg in Hnot; [now apply Exists_exists in Hnot|].
      intros r. destruct (region_auction reg r); [right; discriminate| now left].
Qed.

(** X12.  MAE, MSE and RMSE are never negative.  MAPE divides by the
    auction price itself, not by its absolute value: it is non-negative when
    no auction price is negative, and it is zero or negative when every
    auction price is negative. *)
Theorem metrics_signs (reg : Region) (pl_data : list MergedRow) :
  let m := region_metrics reg pl_data in
  let obs := region_observations reg pl_data in
  (forall v, MAE m = Some v -> (Q2Qc 0 <= v)%Qc) /\
  (forall v, MSE m = Some v -> (Q2Qc 0 <= v)%Qc) /\
  (forall v, RMSE m = Some v -> (0 <= v)%R) /\
  (Forall (fun fa => (Q2Qc 0 <= snd fa)%Qc) obs ->
   forall v, MAPE m = Some v -> (Q2Qc 0 <= v)%Qc) /\
  (Forall (fun fa => (snd fa < Q2Qc 0)%Qc) obs ->
   forall v, MAPE m = Some v -> (v <= Q2Qc 0)%Qc).
Proof.
  intros m obs. destruct (region_metrics_formulas reg pl_data) as (A & B & C & D).
  fold m obs in A, B, C, D. rewrite A, B, C, D.
  split; [|split; [|split; [|split]]].
  - intros v H. apply Qc_nonneg_of_R. eapply mean_nonneg_R; [|exact H].
    apply Forall_forall. intros x Hx. apply in_map_iff in Hx.
    destruct Hx as (fa & <- & _). apply Qc_abs_nonneg_R.
  - intros v H. apply Qc_nonneg_of_R. now apply mean_squares_nonneg with obs.
  - intros v H. destruct (mean (map squared_error obs)); [|discriminate].
    injection H as <-. apply sqrt_pos.
  - intros Hall v H. apply Qc_nonneg_of_R. eapply mean_nonneg_R; [|exact H].
    apply Forall_forall. intros x Hx. apply in_map_iff in Hx.
    destruct Hx as (fa & <- & Hfa). rewrite Forall_forall in Hall.
    now apply (proj1 (ape_sign fa)), Hall.
  - intros Hall v H. apply Qc_nonpos_of_R. eapply mean_nonpos_R; [|exact H].
    apply Forall_forall. intros x Hx. apply in_map_iff in Hx.
    destruct Hx as (fa & <- & Hfa). rewrite Forall_forall in Hall.
    now apply (proj2 (ape_sign fa)), Hall.
Qed.

Lemma mean_zeros (l : list Qc) :
  l <> [] -> Forall (fun x => x = Q2Qc 0) l -> mean l = Some (Q2Qc 0).
Proof.
  intros Hne Hl. destruct l as [|x t] eqn:E; [congruence|]. rewrite <- E in *.
  assert (Hs : sum_Qc l = Q2Qc 0).
  { clear Hne E. induction Hl as [|y l Hy _ IH]; [reflexivity|].
    rewrite sum_Qc_cons, Hy, IH. apply Qcplus_0_l. }
  unfold mean. rewrite E at 1. rewrite Hs. f_equal. apply Qcmult_0_l.
Qed.

(** X13.  When every row that carries an auction price of a region
    forecasts exactly that price, and there is such a row, the four metrics
    of the region are zero. *)
Theorem perfect_forecast_scores_zero (reg : Region) (pl_data : list MergedRow) :
  let m := region_metrics reg pl_data in
  Exists (fun r => region_auction reg r <> None) pl_data ->
  Forall (fun r => region_auction reg r = None \/
                   region_auction reg r = Some (region_forecast reg r)) pl_data ->
  MAE m = Some (Q2Qc 0) /\ MSE m = Some (Q2Qc 0) /\
  RMSE m = Some 0%R /\ MAPE m = Some (Q2Qc 0).
Proof.
  intros m Hex Hall. destruct (region_metrics_formulas reg pl_data) as (A & B & C & D).
  fold m in A, B, C, D. rewrite A, B, C, D.
  set (obs := region_observations reg pl_data).
  assert (Hne : obs <> []).
  { intros E. apply (observations_nil (region_forecast reg) (region_auction reg)) in E.
    apply Exists_exists in Hex. destruct Hex as (r & Hr & Hn).
    rewrite Forall_forall in E. auto. }
  assert (Hobs : Forall (fun fa => fst fa = snd fa) obs).
  { unfold obs, region_observations, observations. apply Forall_forall.
    intros fa Hfa. apply in_flat_map in Hfa. destruct Hfa as (r & Hr & Hfa).
    rewrite Forall_forall in Hall. destruct (Hall r Hr) as [E|E]; rewrite E in Hfa.
    - destruct Hfa.
    - destruct Hfa as [<-|[]]. reflexivity. }
  assert (Hd : forall fa, In fa obs -> (fst fa - snd fa)%Qc = Q2Qc 0).
  { intros fa Hfa. rewrite Forall_forall in Hobs. rewrite (Hobs fa Hfa).
    apply Qcplus_opp_r. }
  assert (Hmap : forall f : Qc * Qc -> Qc,
            (forall fa, In fa obs -> f fa = Q2Qc 0) ->
            mean (map f obs) = Some (Q2Qc 0)).
  { intros f Hf. apply mean_zeros.
    - intros E. apply map_eq_nil in E. contradiction.
    - apply Forall_forall. intros x Hx. apply in_map_iff in Hx.
      destruct Hx as (fa & <- & Hfa). auto. }
  assert (Ha : forall fa, In fa obs -> absolute_error fa = Q2Qc 0).
  { intros fa Hfa. unfold absolute_error. rewrite (Hd fa Hfa). reflexivity. }
  rewrite (Hmap absolute_error Ha).
  rewrite (Hmap squared_error).
  2:{ intros fa Hfa. unfold squared_error. rewrite (Hd fa Hfa). apply Qcmult_0_l. }
  rewrite (Hmap absolute_percentage_error).
  2:{ intros fa Hfa. unfold absolute_percentage_error. rewrite (Ha fa Hfa).
      apply Qcmult_0_l. }
  repeat split. cbn [option_map]. f_equal.
  change (Q2R (Q2Qc 0)) with (Q2R (this (Q2Qc 0))). rewrite Q2R_Qc_zero. apply sqrt_0.
Qed.

End MetricsSigns.

(** ** The whole comparison *)

Import Pipeline.

Section PipelineFacts.
Variable read_excel : string -> list ExcelRow.

Lemma brings_column_map (reg : Region) (ts : list JoinedFrame) (es : list AuctionEntry) :
  map auction_price_column ts = map entry_Region es ->
  brings_column reg ts = has_region reg es.
Proof.
  revert es. induction ts as [|t ts IH]; intros [|e es] H; try discriminate;
    [reflexivity|].
  simpl in H. injection H as Ht Hts. simpl. rewrite Ht. f_equal. now apply IH.
Qed.

Lemma all_rows_nonempty (ts : list JoinedFrame) :
  ts <> [] -> Forall (fun t => joined_rows t <> []) ts -> all_rows ts <> [].
Proof.
  intros Hne Hall. destruct ts as [|t ts]; [congruence|].
  inversion Hall as [|? ? Ht _]; subst. simpl.
  destruct (joined_rows t); [congruence| discriminate].
Qed.

(** X14.  [compute_performance_score] hands on the error of the
    matcher.  When the matcher returns its tables, the run raises the schema
    error of the merger when the time groups of the tables do not stack;
    when they stack, it ends with a missing-column error unless auction
    files of both regions are processed: column [Time] when no entry is
    processed, [Auction_Price_DK1] when no DK1 entry is,
    [Auction_Price_DK2] when no DK2 entry is.  It returns exactly when
    entries of both regions are processed and the time groups stack. *)
Theorem score_needs_both_regions (forecast_df : list ForecastRow)
    (all_auctions_df : list AuctionEntry) :
  let es := entries_to_process forecast_df all_auctions_df in
  let run := compute_performance_score read_excel forecast_df all_auctions_df in
  (forall err,
     match_auction_with_forecast read_excel forecast_df all_auctions_df = inl err ->
     run = inl (MatchRaised err)) /\
  (es = [] -> run = inl (MergeRaised (ColumnNotFound "Time"))) /\
  (forall tables,
     match_auction_with_forecast read_excel forecast_df all_auctions_df = inr tables ->
     (es <> [] -> stacks tables = false ->
      run = inl (MergeRaised SchemaError)) /\
     (es <> [] -> stacks tables = true -> has_region DK1 es = false ->
      run = inl (MergeRaised (ColumnNotFound "Auction_Price_DK1"))) /\
     (stacks tables = true -> has_region DK1 es = true -> has_region DK2 es = false ->
      run = inl (MergeRaised (ColumnNotFound "Auction_Price_DK2"))) /\
     ((exists out, run = inr out) <->
      has_region DK1 es = true /\ has_region DK2 es = true /\ stacks tables = true)).
Proof.
  intros es run. split; [|split].
  - intros err H. unfold run, compute_performance_score. now rewrite H.
  - intros E. unfold run, compute_performance_score, match_auction_with_forecast.
    fold es. rewrite E. reflexivity.
  - intros tables H. pose proof H as Hm.
    unfold match_auction_with_forecast in Hm. apply match_loop_spec in Hm.
    destruct Hm as (ts & Ets & Hf). simpl in Ets. subst ts. fold es in Hf.
    destruct (tables_shape read_excel forecast_df es tables Hf) as (Hlen & Hrows & Hcols).
    assert (Hne : es <> [] -> tables <> []).
    { intros He Et. subst tables. destruct es; [congruence| discriminate]. }
    assert (Hreg : forall reg, has_region reg es = true -> es <> []).
    { intros reg Hr E. rewrite E in Hr. discriminate. }
    unfold run, compute_performance_score. rewrite H.
    rewrite <- !(brings_column_map _ tables es Hcols).
    split; [|split; [|split]].
    + intros He Hs. rewrite (merge_raises_schema tables); auto.
    + intros He Hs H1. rewrite (merge_raises_DK1 tables); auto.
    + intros Hs H1 H2. rewrite (merge_raises_DK2 tables); auto.
      apply all_rows_nonempty; auto. apply Hne.
      apply (Hreg DK1). now rewrite <- (brings_column_map _ tables es Hcols).
    + split.
      * intros (out & Hout).
        destruct (merge_forecast_and_auction_dataframes tables) as [err|merged] eqn:Em;
          [discriminate Hout|].
        pose proof (merge_returns_stacks tables merged Em) as Hs.
        apply merge_returns_inv in Em. tauto.
      * intros (H1 & H2 & Hs). rewrite (merge_returns tables); eauto.
        apply all_rows_nonempty; auto. apply Hne.
        apply (Hreg DK1). now rewrite <- (brings_column_map _ tables es Hcols).
Qed.

Lemma non_null_values_In (vals : list (option Qc)) (p : Qc) :
  In p (non_null_values vals) <-> In (Some p) vals.
Proof.
  unfold non_null_values. rewrite in_flat_map. split.
  - intros ([x|] & Hx & Hp); [|destruct Hp]. destruct Hp as [<-|[]]. exact Hx.
  - intros H. exists (Some p). split; [exact H| now left].
Qed.

Lemma auction_prices_at_In (reg : Region) (T : Datetime) (ms : list JoinedFrame) (p : Qc) :
  In p (auction_prices_at reg T ms) ->
  exists t row, In t ms /\ auction_price_column t = reg /\ In row (joined_rows t) /\
                Time (j_forecast row) = T /\ j_Auction_Price row = Some p.
Proof.
  unfold auction_prices_at. rewrite in_flat_map. intros (t & Ht & Hp).
  destruct (Region_eqb (auction_price_column t) reg) eqn:Er; [|destruct Hp].
  apply non_null_values_In, in_map_iff in Hp. destruct Hp as (row & Ep & Hrow).
  apply filter_In in Hrow. destruct Hrow as [Hrow Et]. apply Z.eqb_eq in Et.
  exists t, row. repeat split; auto.
  destruct (auction_price_column t), reg; try discriminate; reflexivity.
Qed.

Lemma left_join_Some (left : list ForecastRow) (right : list HourlyRow)
    (l : ForecastRow) (p : Qc) :
  In (l, Some p) (left_join left right) ->
  In l left /\ exists a, In a right /\ Start_Time a = Time l /\ Area_Price_Hour a = p.
Proof.
  unfold left_join. rewrite in_flat_map. intros (l' & Hl' & Hin).
  destruct (filter (fun a => Start_Time a =? Time l') right) as [|a ms] eqn:E.
  - destruct Hin as [F|[]]. discriminate F.
  - rewrite <- E in Hin. apply in_map_iff in Hin. destruct Hin as (a' & Ea & Ha').
    injection Ea as -> <-. apply filter_In in Ha'. destruct Ha' as [Ha' Et].
    apply Z.eqb_eq in Et. split; [exact Hl'|]. exists a'. auto.
Qed.

Lemma match_entry_rows (forecast_df : list ForecastRow) (e : AuctionEntry)
    (t : JoinedFrame) (row : JoinedRow) (p : Qc) :
  match_entry read_excel forecast_df e = inr t ->
  In row (joined_rows t) -> j_Auction_Price row = Some p ->
  In (j_forecast row) forecast_df /\ issued_for e (j_forecast row) = true /\
  In {| Start_Time := Time (j_forecast row); Area_Price_Hour := p |}
     (hourly_rows (read_single_auction_file read_excel (filepath e) (IDA_Group e)
                     (delivery_date e) (entry_Region e))).
Proof.
  unfold match_entry.
  destruct (List.length (forecasts_for_auction forecast_df e) =? 0)%nat; [discriminate|].
  destruct (List.length (relevant_forecasts _ _) =? 0)%nat; [discriminate|].
  intros H. injection H as <-. cbn [joined_rows]. intros Hrow Hp.
  apply in_map_iff in Hrow. destruct Hrow as ([l v] & <- & Hin).
  cbn [j_forecast j_Auction_Price fst snd] in *. subst v.
  apply left_join_Some in Hin. destruct Hin as (Hl & a & Ha & Et & Ep).
  unfold relevant_forecasts in Hl. apply filter_In in Hl. destruct Hl as [Hl _].
  rewrite forecasts_for_auction_filter in Hl. apply sort_by_In, filter_In in Hl.
  destruct Hl as [Hl Hi]. split; [exact Hl|]. split; [exact Hi|].
  unfold auction_df_relevant in Ha. apply filter_In in Ha. destruct Ha as [Ha _].
  destruct a as [st ph]. cbn [Start_Time Area_Price_Hour] in *. now subst.
Qed.

Lemma run_inv (forecast_df : list ForecastRow) (all_auctions_df : list AuctionEntry)
    (out : list ScoredRow) (metrics : MetricsRow * MetricsRow) :
  compute_performance_score read_excel forecast_df all_auctions_df = inr (out, metrics) ->
  exists tables merged,
    match_auction_with_forecast read_excel forecast_df all_auctions_df = inr tables /\
    merge_forecast_and_auction_dataframes tables = inr merged /\
    out = with_price_diffs merged /\
    metrics = compute_forecast_metrics merged.
Proof.
  unfold compute_performance_score.
  destruct (match_auction_with_forecast _ _ _) as [err|tables]; [discriminate|].
  destruct (merge_forecast_and_auction_dataframes tables) as [err|merged] eqn:Em;
    [discriminate|].
  intros H. injection H as <- <-. exists tables, merged.
  split; [reflexivity|]. split; [exact Em|]. split; [reflexivity|].
  f_equal. unfold with_price_diffs. rewrite map_map. cbn [s_merged]. apply map_id.
Qed.

(** X15.  Every auction price in the table the comparison returns is an
    hourly price of an auction file of that region, read at the [Time] of
    the row, and a forecast for that [Time], issued at the hour the file's
    group asks for, exists in the forecast table. *)
Theorem score_prices_come_from_auction_files (forecast_df : list ForecastRow)
    (all_auctions_df : list AuctionEntry) (out : list ScoredRow)
    (metrics : MetricsRow * MetricsRow) :
  compute_performance_score read_excel forecast_df all_auctions_df = inr (out, metrics) ->
  forall (r : ScoredRow) (reg : Region) (p : Qc),
    In r out -> region_auction reg (s_merged r) = Some p ->
    exists (e : AuctionEntry) (f : ForecastRow),
      In e all_auctions_df /\ entry_Region e = reg /\
      In f forecast_df /\ Time f = m_Time (s_merged r) /\ issued_for e f = true /\
      In {| Start_Time := m_Time (s_merged r); Area_Price_Hour := p |}
         (hourly_rows (read_single_auction_file read_excel (filepath e) (IDA_Group e)
                         (delivery_date e) reg)).
Proof.
  intros H r reg p Hr Hp. apply run_inv in H.
  destruct H as (tables & merged & Hmatch & Hmerge & -> & _).
  apply in_map_iff in Hr. destruct Hr as (mr & <- & Hmr). cbn [s_merged] in *.
  set (T := m_Time mr).
  assert (Hat : In p (auction_prices_at reg T tables)).
  { assert (Hin : In mr (filter_eq m_Time T merged)) by (apply filter_eq_In; auto).
    destruct reg; cbn [region_auction] in Hp.
    - rewrite <- (output_prices_DK1 tables merged T Hmerge).
      apply non_null_values_In. rewrite <- Hp. now apply in_map.
    - rewrite <- (output_prices_DK2 tables merged T Hmerge).
      apply non_null_values_In. rewrite <- Hp. now apply in_map. }
  apply auction_prices_at_In in Hat.
  destruct Hat as (t & row & Ht & Hcol & Hrow & Et & Eprice).
  unfold match_auction_with_forecast in Hmatch. apply match_loop_spec in Hmatch.
  destruct Hmatch as (ts & Ets & Hf). simpl in Ets. subst ts.
  destruct (Forall2_In_r _ _ _ t Hf Ht) as (e & He & Hentry).
  apply entries_to_process_In in He. destruct He as [He _].
  destruct (match_entry_table read_excel forecast_df e t Hentry) as (_ & Hc & _).
  destruct (match_entry_rows forecast_df e t row p Hentry Hrow Eprice)
    as (Hfin & Hiss & Hfile).
  exists e, (j_forecast row). rewrite Et in Hfile.
  assert (Ereg : entry_Region e = reg) by congruence. rewrite Ereg in Hfile.
  repeat split; auto.
Qed.

Lemma observations_diffs (reg : Region) (merged : list MergedRow) :
  map (fun fa : Qc * Qc => (fst fa - snd fa)%Qc) (region_observations reg merged)
  = non_null_values (map (region_price_diff reg) (with_price_diffs merged)).
Proof.
  unfold region_observations, observations, with_price_diffs, non_null_values.
  rewrite map_map. induction merged as [|r t IH]; [reflexivity|].
  cbn [flat_map map]. rewrite map_app, IH. f_equal.
  destruct reg; cbn [region_auction region_forecast region_price_diff
                      Price_Diff_DK1 Price_Diff_DK2].
  - now destruct (Auction_Price_DK1 r).
  - now destruct (Auction_Price_DK2 r).
Qed.

(** X16.  Every row of the returned table has a price difference in at
    least one region, and the printed MAE and MSE of a region are the mean
    of the absolute values and of the squares of the non-null entries of
    the region's [Price_Diff] column. *)
Theorem score_metrics_match_price_diffs (forecast_df : list ForecastRow)
    (all_auctions_df : list AuctionEntry) (out : list ScoredRow)
    (metrics : MetricsRow * MetricsRow) :
  compute_performance_score read_excel forecast_df all_auctions_df = inr (out, metrics) ->
  Forall (fun r => Price_Diff_DK1 r <> None \/ Price_Diff_DK2 r <> None) out /\
  forall reg : Region,
    let m := match reg with DK1 => fst metrics | DK2 => snd metrics end in
    let diffs := non_null_values (map (region_price_diff reg) out) in
    MAE m = mean (map Qc_abs diffs) /\
    MSE m = mean (map (fun d => (d * d)%Qc) diffs).
Proof.
  intros H. apply run_inv in H.
  destruct H as (tables & merged & _ & Hmerge & -> & ->). split.
  - apply Forall_forall. intros r Hr. apply in_map_iff in Hr.
    destruct Hr as (mr & <- & Hmr). cbn [Price_Diff_DK1 Price_Diff_DK2].
    apply merge_returns_inv in Hmerge. destruct Hmerge as (_ & _ & _ & ->).
    apply sort_by_In, filter_In in Hmr. destruct Hmr as [_ Hp].
    rewrite has_auction_price_or in Hp. unfold price_diff.
    destruct (Auction_Price_DK1 mr), (Auction_Price_DK2 mr); simpl in *;
      try discriminate Hp; [left|left|right]; discriminate.
  - intros reg m diffs.
    destruct (region_metrics_formulas reg merged) as (A & B & _ & _).
    assert (Em : m = region_metrics reg merged) by (unfold m; now destruct reg).
    rewrite Em, A, B. unfold diffs. rewrite <- observations_diffs, !map_map.
    split; reflexivity.
Qed.

End PipelineFacts.

(** ** The search for files *)

Import Text Search.

Section SearchFacts.
Local Open Scope string_scope.

Lemma existsb_accepted (extensions : list string) (name : string) :
  endswith_any (lower name) extensions = true <-> accepted extensions name.
Proof. unfold endswith_any, accepted. apply existsb_exists. Qed.

Lemma file_below_split (directory : string) (entries : list Node) (path name : string) :
  file_below directory entries path name <->
  exists n, In n entries /\ file_below directory [n] path name.
Proof.
  split.
  - intros H. inversion H as [d es nm Hin|d es sub ses p nm Hin Hb]; subst.
    + exists (File name). split; [exact Hin|]. apply file_here. now left.
    + exists (Dir sub ses). split; [exact Hin|].
      apply file_deeper with sub ses; [now left| exact Hb].
  - intros (n & Hn & H). inversion H as [d es nm Hin|d es sub ses p nm Hin Hb]; subst.
    + destruct Hin as [->|[]]. now apply file_here.
    + destruct Hin as [->|[]]. now apply file_deeper with sub ses.
Qed.

Lemma search_entry_spec (extensions : list string) (n : Node) :
  forall directory path,
    In path (search_entry extensions true directory n) <->
    exists name, file_below directory [n] path name /\ accepted extensions name.
Proof.
  induction n as [name|sub entries IH|name] using Node_tree_ind; intros directory path.
  - cbn [search_entry]. destruct (endswith_any (lower name) extensions) eqn:E.
    + apply existsb_accepted in E. split.
      * intros [<-|[]]. exists name. split; [apply file_here; now left| exact E].
      * intros (nm & Hb & _).
        inversion Hb as [d es nm' Hin|d es s ses p nm' Hin _]; subst.
        -- destruct Hin as [Hin|[]]. injection Hin as ->. now left.
        -- destruct Hin as [Hin|[]]. discriminate Hin.
    + split; [intros []|]. intros (nm & Hb & Hacc).
      inversion Hb as [d es nm' Hin|d es s ses p nm' Hin _]; subst.
      * destruct Hin as [Hin|[]]. injection Hin as ->.
        apply existsb_accepted in Hacc. congruence.
      * destruct Hin as [Hin|[]]. discriminate Hin.
  - cbn [search_entry]. rewrite in_flat_map. rewrite Forall_forall in IH. split.
    + intros (n & Hn & Hp). apply IH in Hp; [|exact Hn].
      destruct Hp as (name & Hb & Hacc). exists name. split; [|exact Hacc].
      apply file_deeper with sub entries; [now left|].
      apply file_below_split. eauto.
    + intros (name & Hb & Hacc).
      inversion Hb as [d es nm' Hin|d es s ses p nm' Hin Hdeep]; subst.
      * destruct Hin as [Hin|[]]. discriminate Hin.
      * destruct Hin as [Hin|[]]. injection Hin as -> ->.
        apply file_below_split in Hdeep. destruct Hdeep as (n & Hn & Hbn).
        exists n. split; [exact Hn|]. apply IH; eauto.
  - cbn [search_entry]. split; [intros []|]. intros (nm & Hb & _).
    inversion Hb as [d es nm' Hin|d es s ses p nm' Hin _]; subst;
      destruct Hin as [Hin|[]]; discriminate Hin.
Qed.

Lemma search_entries_recursive (extensions : list string) (directory : string)
    (entries : list Node) (path : string) :
  In path (flat_map (search_entry extensions true directory) entries) <->
  exists name, file_below directory entries path name /\ accepted extensions name.
Proof.
  rewrite in_flat_map. split.
  - intros (n & Hn & Hp). apply search_entry_spec in Hp.
    destruct Hp as (name & Hb & Hacc). exists name. split; [|exact Hacc].
    apply file_below_split. eauto.
  - intros (name & Hb & Hacc). apply file_below_split in Hb.
    destruct Hb as (n & Hn & Hb). exists n. split; [exact Hn|].
    apply search_entry_spec. eauto.
Qed.

Lemma search_entries_flat (extensions : list string) (directory : string)
    (entries : list Node) (path : string) :
  In path (flat_map (search_entry extensions false directory) entries) <->
  exists name, In (File name) entries /\ path = path_join directory name /\
               accepted extensions name.
Proof.
  rewrite in_flat_map. split.
  - intros ([name|sub es|name] & Hn & Hp); cbn [search_entry] in Hp; try destruct Hp.
    destruct (endswith_any (lower name) extensions) eqn:E; [|destruct Hp].
    destruct Hp as [<-|[]]. exists name. apply existsb_accepted in E. auto.
  - intros (name & Hn & -> & Hacc). exists (File name). split; [exact Hn|].
    cbn [search_entry]. apply existsb_accepted in Hacc. rewrite Hacc. now left.
Qed.

Variable path_exists : string -> bool.
Variable scandir : string -> option (list Node).
Variable image_datasets_path : string -> string.
Variable basename : string -> string.
Variable natsorted : (string -> string) -> list string -> list string.

Lemma check_paths_length (path_idx : nat) (start_path checked : list string) :
  check_paths path_exists scandir image_datasets_path path_idx start_path = inr checked ->
  List.length checked = List.length start_path.
Proof.
  revert path_idx checked. induction start_path as [|p rest IH]; intros idx checked;
    cbn [check_paths].
  - intros H. now injection H as <-.
  - destruct (negb (isdir scandir _)); [discriminate|].
    destruct (check_paths _ _ _ (S idx) rest) as [err|l] eqn:E; [discriminate|].
    intros H. injection H as <-. simpl. f_equal. now apply (IH (S idx)).
Qed.

Lemma check_paths_existing (path_idx : nat) (start_path : list string) :
  Forall (fun p => isdir scandir p = true /\ path_exists p = true) start_path ->
  check_paths path_exists scandir image_datasets_path path_idx start_path
  = inr start_path.
Proof.
  revert path_idx. induction start_path as [|p rest IH]; intros idx H;
    cbn [check_paths]; [reflexivity|].
  inversion H as [|? ? [Hd He] Hrest]; subst. rewrite He. cbn [negb andb].
  rewrite Hd. cbn [negb]. now rewrite IH.
Qed.

(** X17.  [search_files] returns a list only for a single start
    directory: it raises [IndexError] on the empty list and [ValueError] on
    two or more directories, even when all of them exist. *)
Theorem search_files_takes_one_directory (start_path extensions : list string)
    (recursive sort_by_basename return_unique_basenames_only sort_files : bool) :
  let run := search_files path_exists scandir image_datasets_path basename natsorted
               start_path extensions recursive sort_by_basename
               return_unique_basenames_only sort_files in
  (forall files, run = inr files -> exists path, start_path = [path]) /\
  (start_path = [] -> run = inl IndexError) /\
  (Forall (fun p => isdir scandir p = true /\ path_exists p = true) start_path ->
   (2 <= List.length start_path)%nat -> run = inl ValueError).
Proof.
  intros run. unfold run, search_files. split; [|split].
  - intros files.
    destruct (check_paths _ _ _ 0%nat start_path) as [err|checked] eqn:E;
      [discriminate|].
    apply check_paths_length in E. unfold recursive_search.
    destruct (1 <? List.length checked)%nat eqn:El; [discriminate|].
    apply Nat.ltb_ge in El. destruct checked as [|d rest]; [discriminate|].
    intros _. destruct start_path as [|p [|q t]]; simpl in *; try lia. eauto.
  - intros ->. reflexivity.
  - intros Hall Hlen. rewrite (check_paths_existing 0 start_path Hall).
    unfold recursive_search.
    destruct (1 <? List.length start_path)%nat eqn:El; [reflexivity|].
    apply Nat.ltb_ge in El. lia.
Qed.

(** X18.  Called on one existing directory without sorting,
    [search_files] returns the paths of the regular files whose lower-cased
    name ends with one of the extensions, these taken in lower case and
    without a leading dot (so the dot itself is not asked for): the files
    anywhere below the directory when [recursive] is set, those directly in
    it otherwise. *)
Theorem search_files_finds_files_by_suffix (directory : string) (entries : list Node)
    (extensions : list string) (recursive : bool) :
  path_exists directory = true -> scandir directory = Some entries ->
  exists files,
    search_files path_exists scandir image_datasets_path basename natsorted
      [directory] extensions recursive false false false = inr files /\
    forall path,
      In path files <->
      exists name,
        accepted (normalise_extensions extensions) name /\
        if recursive then file_below directory entries path name
        else In (File name) entries /\ path = path_join directory name.
Proof.
  intros He Hs. unfold search_files. cbn [check_paths].
  rewrite He. cbn [negb andb]. unfold isdir. rewrite Hs. cbn [negb].
  unfold recursive_search. cbn [List.length Nat.ltb Nat.leb]. rewrite Hs.
  eexists. split; [reflexivity|]. intros path. destruct recursive.
  - rewrite search_entries_recursive. split; intros (name & H1 & H2); eauto.
  - rewrite search_entries_flat. split.
    + intros (name & H1 & H2 & H3). eauto.
    + intros (name & H1 & H2 & H3). eauto.
Qed.

End SearchFacts.

Section UniqueBasenames.
Variable basename : string -> string.

Lemma dict_set_keys (key value : string) (d : list (string * string)) :
  NoDup (map fst d) -> NoDup (map fst (dict_set key value d)).
Proof.
  assert (Hin : forall d k, In k (map fst (dict_set key value d)) ->
                            k = key \/ In k (map fst d)).
  { clear d. induction d as [|[k0 v0] rest IH]; intros k; simpl.
    - intros [<-|[]]. now left.
    - destruct (String.eqb k0 key); simpl; [tauto|].
      intros [<-|H]; [tauto|]. apply IH in H. tauto. }
  induction d as [|[k v] rest IH]; simpl; intros Hnd.
  - constructor; [intros []| constructor].
  - inversion Hnd as [|? ? Hk Hrest]; subst.
    destruct (String.eqb k key) eqn:E; simpl; [now constructor|].
    constructor; [|now apply IH].
    intros H. apply Hin in H. destruct H as [->|H]; [|contradiction].
    rewrite String.eqb_refl in E. discriminate.
Qed.

Lemma dict_set_In (key value : string) (d : list (string * string)) (k v : string) :
  NoDup (map fst d) ->
  (In (k, v) (dict_set key value d) <->
   (k = key /\ v = value) \/ (k <> key /\ In (k, v) d)).
Proof.
  induction d as [|[k0 v0] rest IH]; simpl; intros Hnd.
  - split.
    + intros [H|[]]. injection H as <- <-. now left.
    + intros [[-> ->]|[_ []]]. now left.
  - inversion Hnd as [|? ? Hk Hrest]; subst.
    destruct (String.eqb k0 key) eqn:E.
    + apply String.eqb_eq in E. subst k0. simpl. split.
      * intros [H|H]; [injection H as <- <-; now left|].
        right. split; [|now right]. intros ->. apply Hk.
        apply in_map_iff. exists (key, v). auto.
      * intros [[-> ->]|[Hne [H|H]]]; [now left| |now right].
        injection H as <- _. congruence.
    + apply String.eqb_neq in E. simpl. rewrite (IH Hrest). split.
      * intros [H|[H|[Hne H]]]; [|now left|right; split; [exact Hne| now right]].
        injection H as <- <-. right. split; [exact E| now left].
      * intros [H|[Hne [H|H]]]; [right; now left|now left|right; right; auto].
Qed.

Lemma last_with_basename_snoc (files : list string) (x path : string) :
  last_with_basename basename (files ++ [x]) path <->
  path = x \/ (last_with_basename basename files path /\ basename path <> basename x).
Proof.
  unfold last_with_basename. split.
  - intros (before & after & E & Hn).
    destruct (exists_last (l := path :: after)) as (init & y & Ey); [discriminate|].
    destruct after as [|a after'].
    + left. apply app_inj_tail in E. now destruct E.
    + right. destruct init as [|p init']; [discriminate|]. simpl in Ey.
      injection Ey as <- Ea. rewrite Ea in *.
      change (before ++ path :: init' ++ [y]) with (before ++ (path :: init') ++ [y]) in E.
      rewrite app_assoc in E. apply app_inj_tail in E. destruct E as [-> <-].
      rewrite map_app, in_app_iff in Hn. simpl in Hn. split.
      * exists before, init'. split; [reflexivity| tauto].
      * intros F. apply Hn. right. left. now rewrite F.
  - intros [->|[(before & after & -> & Hn) Hne]].
    + exists files, []. split; [reflexivity| intros []].
    + exists before, (after ++ [x]). split; [now rewrite <- app_assoc|].
      rewrite map_app, in_app_iff. simpl. intros [H|[H|[]]]; [contradiction|].
      now apply Hne.
Qed.

Lemma dict_invariant (files : list string) :
  let d := fold_left (fun d x => dict_set (basename x) x d) files [] in
  NoDup (map fst d) /\
  forall k v, In (k, v) d <-> k = basename v /\ last_with_basename basename files v.
Proof.
  induction files as [|x files IH] using rev_ind; cbv zeta.
  - simpl. split; [constructor|]. intros k v. split; [intros []|].
    intros (_ & before & after & E & _). now destruct before.
  - rewrite fold_left_app. cbn [fold_left]. cbv zeta in IH.
    destruct IH as [Hnd Hin]. split; [now apply dict_set_keys|].
    intros k v. rewrite (dict_set_In _ _ _ _ _ Hnd), Hin, last_with_basename_snoc.
    split.
    + intros [[-> ->]|(Hne & -> & Hl)]; [split; [reflexivity| now left]|].
      split; [reflexivity|]. right. auto.
    + intros (-> & [->|[Hl Hne]]); [now left|]. right. auto.
Qed.

(** X19.  With [return_unique_basenames_only] the result holds one path
    per base name: the last path of the list with that base name, no two
    results sharing a base name and no base name of the list missing. *)
Theorem unique_basenames_keeps_last_path (files : list string) :
  let out := unique_basenames basename files in
  NoDup (map basename out) /\
  (forall path, In path out <-> last_with_basename basename files path) /\
  (forall path, In path files -> In (basename path) (map basename out)).
Proof.
  intros out. destruct (dict_invariant files) as [Hnd Hin]. cbv zeta in *.
  assert (Hout : forall path, In path out <-> last_with_basename basename files path).
  { intros path. unfold out, unique_basenames. rewrite in_map_iff. split.
    - intros ([k v] & <- & H). now apply Hin in H.
    - intros H. exists (basename path, path). split; [reflexivity|]. now apply Hin. }
  split; [|split; [exact Hout|]].
  - unfold out, unique_basenames. rewrite map_map.
    erewrite map_ext_in; [exact Hnd|].
    intros [k v] H. apply Hin in H. simpl. now destruct H.
  - intros path Hp.
    assert (Hlast : forall l b, In b (map basename l) ->
              exists p, basename p = b /\ last_with_basename basename l p).
    { clear. induction l as [|x l IH] using rev_ind; intros b Hb; [destruct Hb|].
      rewrite map_app, in_app_iff in Hb. simpl in Hb.
      destruct (string_dec (basename x) b) as [E|E].
      - exists x. split; [exact E|]. apply last_with_basename_snoc. now left.
      - destruct Hb as [Hb|[Hb|[]]]; [|contradiction].
        destruct (IH b Hb) as (p & Ep & Hl). exists p. split; [exact Ep|].
        apply last_with_basename_snoc. right. split; [exact Hl| congruence]. }
    destruct (Hlast files (basename path) (in_map basename _ _ Hp)) as (p & Ep & Hl).
    rewrite <- Ep. apply in_map. now apply Hout.
Qed.

End UniqueBasenames.

(** ** Dates in file names *)

Import DateParse.

Section DateFacts.

Lemma match_here_spec (p : Pattern) (s m : string) :
  match_here p s = Some m <-> exists after, s = (m ++ after)%string /\ matches p m.
Proof.
  unfold matches. revert s m. induction p as [|k p IH]; intros s m; cbn [match_here].
  - split.
    + intros H. injection H as <-. exists s. split; [reflexivity| constructor].
    + intros (after & -> & H). destruct m; [reflexivity| inversion H].
  - destruct s as [|c t].
    + split; [discriminate|]. intros (after & E & H).
      destruct m; [inversion H| discriminate E].
    + destruct (in_class k c) eqn:Ek.
      * destruct (match_here p t) as [m'|] eqn:Em; cbn [option_map].
        -- apply IH in Em. destruct Em as (after & -> & Hm). split.
           ++ intros H. injection H as <-. exists after. split; [reflexivity|].
              cbn [list_ascii_of_string]. now constructor.
           ++ intros (after' & E & H). destruct m as [|c' m'']; [inversion H|].
              cbn [append] in E. injection E as <- E.
              cbn [list_ascii_of_string] in H. inversion H; subst.
              assert (Hm' : match_here p (m' ++ after)%string = Some m'')
                by (apply IH; eauto).
              assert (Hm0 : match_here p (m' ++ after)%string = Some m')
                by (apply IH; eauto).
              congruence.
        -- split; [discriminate|]. intros (after' & E & H).
           destruct m as [|c' m'']; [inversion H|].
           cbn [append] in E. injection E as <- ->.
           cbn [list_ascii_of_string] in H. inversion H; subst.
           assert (Hm' : match_here p (m'' ++ after')%string = Some m'')
             by (apply IH; eauto).
           congruence.
      * split; [discriminate|]. intros (after' & E & H).
        destruct m as [|c' m'']; [inversion H|].
        cbn [append] in E. injection E as <- ->.
        cbn [list_ascii_of_string] in H. inversion H; subst. congruence.
Qed.

Lemma findall_none (p : Pattern) (s : string) :
  findall p s = [] -> ~ occurs p s.
Proof.
  unfold findall, occurs. induction s as [|c t IH]; cbn [findall_from].
  - destruct (match_here p EmptyString) as [m|] eqn:E; [discriminate|].
    intros _ (before & m & after & Es & Hm).
    destruct before; [|discriminate Es]. cbn [append] in Es.
    assert (H : match_here p EmptyString = Some m) by (apply match_here_spec; eauto).
    congruence.
  - destruct (match_here p (String c t)) as [m|] eqn:E; [discriminate|].
    intros H (before & m & after & Es & Hm). destruct before as [|b before].
    + cbn [append] in Es.
      assert (H' : match_here p (String c t) = Some m) by (apply match_here_spec; eauto).
      congruence.
    + cbn [append] in Es. injection Es as -> ->. apply (IH H). eauto.
Qed.

Lemma findall_first (p : Pattern) (s m : string) (rest : list string) :
  findall p s = m :: rest -> leftmost p s m.
Proof.
  unfold findall, leftmost. revert m rest.
  induction s as [|c t IH]; intros m rest; cbn [findall_from].
  - destruct (match_here p EmptyString) as [m0|] eqn:E; [|discriminate].
    intros H. injection H as <- _. apply match_here_spec in E.
    destruct E as (after & E & Hm). exists EmptyString, after.
    split; [exact E|]. split; [exact Hm|]. intros; simpl; lia.
  - destruct (match_here p (String c t)) as [m0|] eqn:E.
    + intros H. injection H as <- _. apply match_here_spec in E.
      destruct E as (after & E & Hm). exists EmptyString, after.
      split; [exact E|]. split; [exact Hm|]. intros; simpl; lia.
    + intros H. apply IH in H. destruct H as (before & after & -> & Hm & Hmin).
      exists (String c before), after. split; [reflexivity|]. split; [exact Hm|].
      intros before' m' after' Es Hm'. destruct before' as [|b before'].
      * cbn [append] in Es.
        assert (H' : match_here p (String c (before ++ m ++ after))
                     = Some m') by (apply match_here_spec; eauto).
        congruence.
      * cbn [append] in Es. injection Es as _ Es. simpl.
        apply le_n_S. now apply (Hmin before' m' after').
Qed.

Lemma leftmost_occurs (p : Pattern) (s m : string) : leftmost p s m -> occurs p s.
Proof. intros (before & after & E & Hm & _). exists before, m, after. auto. Qed.

Lemma matches_truthy (p : Pattern) (m : string) :
  p <> [] -> matches p m -> truthy m = true.
Proof.
  intros Hp H. destruct m; [|reflexivity]. inversion H; subst. congruence.
Qed.

Variable strptime : string -> string -> option Datetime.

(** What the loop returns, for a table whose patterns are not empty. *)
Lemma first_date_cases (inp : string) (table : list (string * Pattern)) :
  Forall (fun fp => snd fp <> []) table ->
  match first_date strptime inp table with
  | inr (None, rest) =>
      rest = inp /\ forall fp, In fp table -> ~ occurs (snd fp) inp
  | inr (Some dt, rest) =>
      exists earlier format p later m,
        table = earlier ++ (format, p) :: later /\
        (forall fp, In fp earlier -> ~ occurs (snd fp) inp) /\
        leftmost p inp m /\ strptime m format = Some dt /\
        rest = replace_by_nothing inp m
  | inl (StrptimeValueError m format) =>
      exists earlier p later,
        table = earlier ++ (format, p) :: later /\
        (forall fp, In fp earlier -> ~ occurs (snd fp) inp) /\
        leftmost p inp m /\ strptime m format = None
  end.
Proof.
  induction table as [|[format p] table IH]; intros Hne; cbn [first_date].
  - split; [reflexivity|]. intros fp [].
  - inversion Hne as [|? ? Hp Hrest]; subst. cbn [snd] in Hp.
    specialize (IH Hrest). unfold regex_find_pattern.
    destruct (findall p inp) as [|m ms] eqn:E.
    + apply findall_none in E.
      destruct (first_date strptime inp table) as [[m format']|[[dt|] rest]].
      * destruct IH as (earlier & p' & later & -> & Hno & Hl & Hs).
        exists ((format, p) :: earlier), p', later. split; [reflexivity|].
        split; [|auto]. intros fp [<-|H]; auto.
      * destruct IH as (earlier & format' & p' & later & m & -> & Hno & Hl & Hs & Hr).
        exists ((format, p) :: earlier), format', p', later, m.
        split; [reflexivity|]. split; [|auto]. intros fp [<-|H]; auto.
      * destruct IH as [-> Hno]. split; [reflexivity|]. intros fp [<-|H]; auto.
    + apply findall_first in E. pose proof E as (_ & _ & _ & Hm & _).
      rewrite (matches_truthy p m Hp Hm).
      destruct (strptime m format) as [dt|] eqn:Es.
      * exists [], format, p, table, m. split; [reflexivity|].
        split; [intros fp []|]. auto.
      * exists [], p, table. split; [reflexivity|]. split; [intros fp []|]. auto.
Qed.

Lemma default_patterns_nonempty :
  Forall (fun fp : string * Pattern => snd fp <> []) date_formats2pattern.
Proof. unfold date_formats2pattern. repeat constructor; discriminate. Qed.

(** X20.  [datetime_from_string] decides by the order of the format
    table, not by the position in the string: it parses the leftmost match
    of the first pattern of the table that occurs in the string and returns
    the string with every occurrence of that text cut out; it raises when
    [strptime] rejects that text, later patterns being left untried; and
    it returns [None] with the unchanged string exactly when no pattern of
    the table occurs. *)
Theorem datetime_from_string_takes_first_format (inp : string) :
  match datetime_from_string strptime inp with
  | inr (None, rest) =>
      rest = inp /\ forall fp, In fp date_formats2pattern -> ~ occurs (snd fp) inp
  | inr (Some dt, rest) =>
      exists earlier format p later m,
        date_formats2pattern = earlier ++ (format, p) :: later /\
        (forall fp, In fp earlier -> ~ occurs (snd fp) inp) /\
        leftmost p inp m /\ strptime m format = Some dt /\
        rest = replace_by_nothing inp m
  | inl (StrptimeValueError m format) =>
      exists earlier p later,
        date_formats2pattern = earlier ++ (format, p) :: later /\
        (forall fp, In fp earlier -> ~ occurs (snd fp) inp) /\
        leftmost p inp m /\ strptime m format = None
  end.
Proof. apply first_date_cases, default_patterns_nonempty. Qed.

Lemma count_digits_app (a b : string) :
  count_digits (a ++ b) = (count_digits a + count_digits b)%nat.
Proof. induction a as [|c a IH]; simpl; [reflexivity|]. rewrite IH. lia. Qed.

Lemma matches_digits (p : Pattern) (m : string) :
  matches p m -> (digit_classes p <= count_digits m)%nat.
Proof.
  unfold matches, digit_classes. revert m. induction p as [|k p IH]; intros m H.
  - simpl. lia.
  - destruct m as [|c m]; [inversion H|]. cbn [list_ascii_of_string] in H.
    inversion H as [|? ? ? ? Hk Hrest]; subst. specialize (IH m Hrest).
    destruct k; cbn [filter List.length count_digits]; cbn [in_class] in Hk;
      try rewrite Hk; destruct (is_digit c); simpl; lia.
Qed.

Lemma occurs_digits (p : Pattern) (s : string) :
  occurs p s -> (digit_classes p <= count_digits s)%nat.
Proof.
  intros (before & m & after & -> & Hm). apply matches_digits in Hm.
  rewrite !count_digits_app. lia.
Qed.

Lemma first_date_none (inp : string) (table : list (string * Pattern)) :
  (forall fp, In fp table -> ~ occurs (snd fp) inp) ->
  first_date strptime inp table = inr (None, inp).
Proof.
  induction table as [|[format p] table IH]; intros Hno; cbn [first_date];
    [reflexivity|].
  unfold regex_find_pattern. destruct (findall p inp) as [|m ms] eqn:E.
  - apply IH. intros fp H. apply Hno. now right.
  - apply findall_first, leftmost_occurs in E.
    exfalso. apply (Hno (format, p)); [now left| exact E].
Qed.

Lemma table_needs_eight_digits (inp : string) (fp : string * Pattern) :
  In fp date_formats2pattern -> occurs (snd fp) inp -> (8 <= count_digits inp)%nat.
Proof.
  intros Hfp Hocc. apply occurs_digits in Hocc.
  assert (Hmin : Forall (fun fp : string * Pattern => (8 <= digit_classes (snd fp))%nat)
                   date_formats2pattern).
  { unfold date_formats2pattern, digit_classes. repeat constructor; simpl; lia. }
  rewrite Forall_forall in Hmin. specialize (Hmin fp Hfp). lia.
Qed.

(** X21.  A string with fewer than eight digits holds no date:
    [datetime_from_string] returns [None] and the string itself. *)
Theorem no_date_below_eight_digits (inp : string) :
  (count_digits inp < 8)%nat ->
  datetime_from_string strptime inp = inr (None, inp).
Proof.
  intros Hlt. apply first_date_none. intros fp Hfp Hocc.
  apply (table_needs_eight_digits inp fp Hfp) in Hocc. lia.
Qed.

End DateFacts.

(** ** The catalog of auction files *)

Import Catalog.

Section CatalogFacts.
Variable path_exists : string -> bool.
Variable scandir : string -> option (list Node).
Variable image_datasets_path : string -> string.
Variable basename : string -> string.
Variable natsorted : (string -> string) -> list string -> list string.
Variable strptime : string -> string -> option Datetime.

(** The files the search finds in the directory. *)
Let found_files (aution_data_dir : string) : SearchError + list string :=
  auction_result_files path_exists scandir image_datasets_path basename natsorted
    aution_data_dir.

Lemma prefix_app (a b : string) : prefix a (a ++ b) = true.
Proof.
  induction a as [|c a IH]; simpl; [now destruct b|].
  destruct (ascii_dec c c); [exact IH| congruence].
Qed.

Lemma contains_middle (before text after : string) :
  contains text (before ++ text ++ after) = true.
Proof.
  induction before as [|c before IH]; cbn [append].
  - destruct (text ++ after)%string eqn:E; cbn [contains]; rewrite <- E, prefix_app;
      reflexivity.
  - cbn [contains]. rewrite IH. apply orb_true_r.
Qed.

Lemma written_dates_spec (files : list string) (dates : list (option Date)) :
  written_dates strptime files = inr dates ->
  dates = map (fun x => match datetime_from_string strptime x with
                        | inr (date, _) => option_map dt_date date
                        | inl _ => None
                        end) files /\
  Forall (fun x => forall err, datetime_from_string strptime x <> inl err) files.
Proof.
  revert dates. induction files as [|x rest IH]; intros dates; cbn [written_dates].
  - intros H. injection H as <-. split; [reflexivity| constructor].
  - destruct (datetime_from_string strptime x) as [err|[date rem]] eqn:E; [discriminate|].
    destruct (written_dates strptime rest) as [err|ds]; [discriminate|].
    intros H. injection H as <-. destruct (IH ds eq_refl) as [-> Hall].
    split; [cbn [map]; now rewrite E|]. constructor; [|exact Hall].
    intros err. rewrite E. discriminate.
Qed.

Lemma written_dates_raises (files : list string) (err : DateError) :
  written_dates strptime files = inl err ->
  exists x, In x files /\ datetime_from_string strptime x = inl err.
Proof.
  induction files as [|x rest IH]; cbn [written_dates]; [discriminate|].
  destruct (datetime_from_string strptime x) as [err'|[date rem]] eqn:E.
  - intros H. injection H as <-. exists x. split; [now left| exact E].
  - destruct (written_dates strptime rest) as [err'|ds]; [|discriminate].
    intros H. injection H as <-. destruct (IH eq_refl) as (y & Hy & Ey).
    exists y. split; [now right| exact Ey].
Qed.

Lemma combine_map_self {A B : Type} (f : A -> B) (l : list A) :
  combine l (map f l) = map (fun x => (x, f x)) l.
Proof. induction l as [|x l IH]; simpl; [reflexivity|]. now rewrite IH. Qed.

Lemma read_auction_files_returns (aution_data_dir : string) (files : list string)
    (dates : list (option Date)) :
  found_files aution_data_dir = inr files ->
  written_dates strptime files = inr dates ->
  read_auction_files path_exists scandir image_datasets_path basename natsorted
    strptime aution_data_dir
  = inr (sort_by delivery_date (dated_entries strptime files)).
Proof.
  intros Hs Hd. unfold read_auction_files. unfold found_files in Hs. rewrite Hs, Hd.
  apply written_dates_spec in Hd. destruct Hd as [-> Hall].
  f_equal. f_equal. rewrite combine_map_self, map_map. cbn [fst snd].
  unfold drop_null_rows, dated_entries. rewrite flat_map_concat_map, map_map.
  rewrite flat_map_concat_map. f_equal. apply map_ext. intros x.
  cbn [c_filepath_written_date c_delivery_date c_filepath c_Region c_IDA_Group].
  destruct (datetime_from_string strptime x) as [err|[[date|] rem]]; cbn [option_map];
    try reflexivity.
  unfold delivery_date_of, entry_of.
  destruct (ida_group_of x); reflexivity.
Qed.

(** X22.  The catalog [read_auction_files] returns holds one entry for
    every found file whose path holds a date, and no other entry, ordered
    by delivery date.  Region and group are read off the whole path; the
    path of an entry has at least eight digits; and the delivery date is
    the day after the date in the path when the path mentions [IDA1] or
    [IDA2], and that date itself otherwise. *)
Theorem catalog_lists_dated_files (aution_data_dir : string) (cat : list AuctionEntry) :
  read_auction_files path_exists scandir image_datasets_path basename natsorted
    strptime aution_data_dir = inr cat ->
  exists files,
    found_files aution_data_dir = inr files /\
    Permutation cat (dated_entries strptime files) /\
    Sorted Z.le (map delivery_date cat) /\
    forall e, In e cat ->
      In (filepath e) files /\ (8 <= count_digits (filepath e))%nat /\
      delivery_date e
      = filepath_written_date e
        + (if contains "IDA1" (filepath e) || contains "IDA2" (filepath e)
           then 1 else 0).
Proof.
  intros H. pose proof H as H0. unfold read_auction_files in H0. fold (found_files aution_data_dir) in H0.
  destruct (found_files aution_data_dir) as [err|files] eqn:Hs; [discriminate|].
  destruct (written_dates strptime files) as [err|dates] eqn:Hd; [discriminate|].
  clear H0. rewrite (read_auction_files_returns aution_data_dir files dates Hs Hd) in H.
  injection H as <-. exists files. split; [reflexivity|].
  split; [apply sort_by_perm|]. split.
  - apply sorted_map_key, sort_by_sorted.
  - intros e He. apply sort_by_In in He. unfold dated_entries in He.
    apply in_flat_map in He. destruct He as (x & Hx & He).
    pose proof (first_date_cases strptime x date_formats2pattern
                  default_patterns_nonempty) as Hc.
    fold (datetime_from_string strptime x) in Hc.
    destruct (datetime_from_string strptime x) as [err|[[date|] rem]];
      try (now destruct He).
    destruct He as [<-|[]]. cbn [filepath delivery_date filepath_written_date entry_of].
    split; [exact Hx|]. split.
    + destruct Hc as (earlier & format & p & later & m & Et & _ & Hl & _).
      apply leftmost_occurs in Hl.
      apply (table_needs_eight_digits x (format, p)); [|exact Hl].
      rewrite Et. apply in_elt.
    + unfold ida_group_of.
      destruct (contains "IDA1" x); [reflexivity|].
      destruct (contains "IDA2" x); simpl; lia.
Qed.

(** X23.  [read_auction_files] hands on the error of the search; it
    raises a date error only for a found file whose path holds a text that
    a pattern of the table matches and [strptime] rejects; and it returns a
    catalog whenever the search succeeds and no path raises. *)
Theorem catalog_raises (aution_data_dir : string) :
  let run := read_auction_files path_exists scandir image_datasets_path basename
               natsorted strptime aution_data_dir in
  (forall err, run = inl (SearchRaised err) <-> found_files aution_data_dir = inl err) /\
  (forall err, run = inl (DateRaised err) ->
     exists files x text format,
       found_files aution_data_dir = inr files /\ In x files /\
       err = StrptimeValueError text format /\
       contains text x = true /\ strptime text format = None) /\
  (forall files,
     found_files aution_data_dir = inr files ->
     Forall (fun x => forall err, datetime_from_string strptime x <> inl err) files ->
     exists cat, run = inr cat).
Proof.
  intros run. unfold run, read_auction_files. fold (found_files aution_data_dir).
  split; [|split].
  - intros err. destruct (found_files aution_data_dir) as [e|files].
    + split; intros H; injection H as <-; reflexivity.
    + split; [|discriminate].
      destruct (written_dates strptime files); discriminate.
  - intros err. destruct (found_files aution_data_dir) as [e|files]; [discriminate|].
    destruct (written_dates strptime files) as [e|dates] eqn:Hd; [|discriminate].
    intros H. injection H as ->. apply written_dates_raises in Hd.
    destruct Hd as (x & Hx & Ex).
    pose proof (first_date_cases strptime x date_formats2pattern
                  default_patterns_nonempty) as Hc.
    fold (datetime_from_string strptime x) in Hc. rewrite Ex in Hc.
    destruct err as [text format].
    destruct Hc as (earlier & p & later & _ & _ & Hl & Hs).
    exists files, x, text, format. repeat split; auto.
    destruct Hl as (before & after & -> & _). apply contains_middle.
  - intros files Hs Hall. rewrite Hs.
    destruct (written_dates strptime files) as [e|dates] eqn:Hd; [|eauto].
    apply written_dates_raises in Hd. destruct Hd as (x & Hx & Ex).
    rewrite Forall_forall in Hall. now apply Hall in Ex.
Qed.

End CatalogFacts.

(** ** The column order of the saved table *)

Import Readable.

Section ReadableFacts.
Variable C : Type.

Lemma insert_by_lower_perm (x : string) (l : list string) :
  Permutation (insert_by_lower x l) (x :: l).
Proof.
  induction l as [|y t IH]; simpl; [reflexivity|].
  destruct (String.leb (lower x) (lower y)); [reflexivity|].
  rewrite IH. apply perm_swap.
Qed.

Lemma sorted_by_lower_perm (l : list string) : Permutation (sorted_by_lower l) l.
Proof.
  induction l as [|x t IH]; simpl; [reflexivity|].
  rewrite insert_by_lower_perm. now constructor.
Qed.

Lemma insert_by_lower_sorted (x : string) (l : list string) :
  Sorted lower_le l -> Sorted lower_le (insert_by_lower x l).
Proof.
  induction l as [|y t IH]; simpl; intros H; [repeat constructor|].
  destruct (String.leb (lower x) (lower y)) eqn:E.
  - constructor; [exact H|]. constructor. exact E.
  - inversion H as [|? ? Ht Hd]; subst. constructor; [now apply IH|].
    assert (Hyx : lower_le y x).
    { destruct (String.leb_total (lower x) (lower y)) as [F|F]; [congruence| exact F]. }
    destruct t as [|z t]; simpl; [now constructor|].
    destruct (String.leb (lower x) (lower z)); constructor; [exact Hyx|].
    now inversion Hd.
Qed.

Lemma sorted_by_lower_sorted (l : list string) : Sorted lower_le (sorted_by_lower l).
Proof.
  induction l as [|x t IH]; simpl; [constructor|]. now apply insert_by_lower_sorted.
Qed.

Lemma is_in_In (col : string) (cols : list string) : is_in col cols = true <-> In col cols.
Proof.
  unfold is_in. rewrite existsb_exists. split.
  - intros (x & Hx & E). apply String.eqb_eq in E. now subst.
  - intros H. exists col. split; [exact H| apply String.eqb_refl].
Qed.

Lemma has_duplicate_NoDup (names : list string) :
  has_duplicate names = false <-> NoDup names.
Proof.
  induction names as [|x t IH]; simpl.
  - split; [constructor| reflexivity].
  - rewrite orb_false_iff, IH. split.
    + intros [Hx Ht]. constructor; [|exact Ht].
      intros Hin. apply is_in_In in Hin. congruence.
    + intros H. inversion H as [|? ? Hx Ht]; subst. split; [|exact Ht].
      destruct (is_in x t) eqn:E; [|reflexivity]. apply is_in_In in E. contradiction.
Qed.

Lemma get_column_In (df : Table C) (nc : string * C) :
  NoDup (columns C df) -> In nc df -> get_column C df (fst nc) = Some nc.
Proof.
  unfold get_column, columns. induction df as [|[n c] df IH]; simpl; intros Hnd Hin;
    [destruct Hin|].
  inversion Hnd as [|? ? Hn Hrest]; subst. destruct Hin as [<-|Hin].
  - simpl. now rewrite String.eqb_refl.
  - destruct (String.eqb n (fst nc)) eqn:E; [|now apply IH].
    apply String.eqb_eq in E. subst n. exfalso. apply Hn. now apply in_map.
Qed.

Lemma get_columns_all (df sub : Table C) :
  NoDup (columns C df) -> incl sub df ->
  get_columns C df (map fst sub) = inr sub.
Proof.
  intros Hnd. induction sub as [|nc sub IH]; intros Hincl; simpl; [reflexivity|].
  rewrite (get_column_In df nc Hnd) by (apply Hincl; now left).
  rewrite IH; [reflexivity|]. intros x Hx. apply Hincl. now right.
Qed.

Lemma other_filter (cols : list string) :
  filter (fun col =>
            negb (is_in col (sorted_by_lower (filter names_price cols)))
            && negb (is_in col (sorted_by_lower (filter names_time cols)))
            && negb (is_in col (sorted_by_lower (filter names_filepath cols)))) cols
  = filter (in_group other_names) cols.
Proof.
  apply filter_ext_in. intros col Hcol.
  assert (H : forall f, is_in col (sorted_by_lower (filter f cols)) = f col).
  { intros f. destruct (f col) eqn:E.
    - apply is_in_In. apply (Permutation_in col (Permutation_sym (sorted_by_lower_perm _))).
      apply filter_In. auto.
    - destruct (is_in col (sorted_by_lower (filter f cols))) eqn:F; [|reflexivity].
      apply is_in_In in F. apply (Permutation_in col (sorted_by_lower_perm _)) in F.
      apply filter_In in F. destruct F. congruence. }
  rewrite !H. cbn [in_group].
  destruct (names_price col), (names_time col), (names_filepath col); reflexivity.
Qed.

Lemma make_df_more_readable_select (pl_data : Table C) :
  make_df_more_readable C pl_data = select C pl_data (layout (columns C pl_data)).
Proof.
  unfold make_df_more_readable, layout. f_equal. f_equal. f_equal. f_equal. f_equal.
  apply other_filter.
Qed.

Lemma count_layout (cols : list string) (col : string) :
  count_occ string_dec (layout cols) col
  = (count_occ string_dec cols col
     * ((if names_filepath col then 1 else 0) + (if names_time col then 1 else 0)
        + (if names_price col then 1 else 0)
        + (if in_group other_names col then 1 else 0)))%nat.
Proof.
  assert (Hf : forall f, count_occ string_dec (sorted_by_lower (filter f cols)) col
                         = (count_occ string_dec cols col * (if f col then 1 else 0))%nat).
  { intros f.
    rewrite (proj1 (Permutation_count_occ string_dec _ _) (sorted_by_lower_perm _)).
    induction cols as [|x t IH]; simpl; [reflexivity|].
    destruct (f x) eqn:Ex; simpl; destruct (string_dec x col) as [->|Hne];
      rewrite ?IH; try rewrite Ex; simpl; lia. }
  unfold layout. rewrite !count_occ_app, !Hf. cbn [in_group]. lia.
Qed.

Lemma groups_count (col : string) :
  ((if names_filepath col then 1 else 0) + (if names_time col then 1 else 0)
   + (if names_price col then 1 else 0)
   + (if in_group other_names col then 1 else 0))%nat
  = if ambiguous col
    then (2 + (if names_filepath col && names_time col && names_price col
               then 1 else 0))%nat
    else 1%nat.
Proof.
  unfold ambiguous. cbn [in_group].
  destruct (names_filepath col), (names_time col), (names_price col); reflexivity.
Qed.

(** X24.  [make_df_more_readable] only reorders: when no column name
    falls into two of the groups "filepath", "time" and "price", it returns
    the same columns with the same contents, laid out as the file-path
    columns, the time columns, the price columns and the others, each group
    sorted without regard to case; when some name falls into two groups
    the selection names it twice and the call raises. *)
Theorem readable_reorders_or_raises (pl_data : Table C) :
  NoDup (columns C pl_data) ->
  ((exists col, In col (columns C pl_data) /\ ambiguous col = true) ->
   make_df_more_readable C pl_data = inl DuplicateError) /\
  ((forall col, In col (columns C pl_data) -> ambiguous col = false) ->
   exists out,
     make_df_more_readable C pl_data = inr out /\
     Permutation out pl_data /\
     exists filepath_col time_cols price_cols other_cols,
       columns C out = filepath_col ++ time_cols ++ price_cols ++ other_cols /\
       Forall (fun g_cols =>
                 Sorted lower_le (snd g_cols) /\
                 forall col, In col (snd g_cols) <->
                             In col (columns C pl_data) /\ in_group (fst g_cols) col = true)
              [(filepath_names, filepath_col); (time_names, time_cols);
               (price_names, price_cols); (other_names, other_cols)]).
Proof.
  intros Hnd. rewrite make_df_more_readable_select.
  set (cols := columns C pl_data) in *.
  assert (Hcount : forall col, count_occ string_dec cols col
                               = if in_dec string_dec col cols then 1%nat else 0%nat).
  { intros col. destruct (in_dec string_dec col cols) as [Hin|Hout].
    - apply NoDup_count_occ'; assumption.
    - now apply count_occ_not_In. }
  assert (Hincl : forall col, In col (layout cols) -> In col cols).
  { intros col H. apply (count_occ_In string_dec) in H. rewrite count_layout in H.
    apply (count_occ_In string_dec). nia. }
  assert (Hget : exists sub, get_columns C pl_data (layout cols) = inr sub /\
                             map fst sub = layout cols /\ incl sub pl_data).
  { assert (H : forall names, (forall n, In n names -> In n cols) ->
              exists sub, map fst sub = names /\ incl sub pl_data).
    { induction names as [|n names IH]; intros Hn.
      - exists []. split; [reflexivity| intros x []].
      - destruct IH as (sub & Es & Hs); [intros; apply Hn; now right|].
        assert (Hin : In n cols) by (apply Hn; now left).
        apply in_map_iff in Hin. destruct Hin as (nc & <- & Hnc).
        exists (nc :: sub). split; [simpl; now rewrite Es|].
        intros x [<-|Hx]; auto. }
    destruct (H (layout cols) Hincl) as (sub & Es & Hs).
    exists sub. split; [|auto]. rewrite <- Es. now apply get_columns_all. }
  destruct Hget as (sub & Hget & Esub & Hsub).
  unfold select. rewrite Hget. split.
  - intros (col & Hcol & Hamb).
    destruct (has_duplicate (layout cols)) eqn:Ed; [reflexivity|].
    apply has_duplicate_NoDup in Ed.
    assert (Hc : (count_occ string_dec (layout cols) col <= 1)%nat)
      by (apply NoDup_count_occ; exact Ed).
    rewrite count_layout, groups_count, Hamb, Hcount in Hc.
    destruct (in_dec string_dec col cols); [|contradiction].
    destruct (_ && _); simpl in Hc; lia.
  - intros Hall.
    assert (Hperm : Permutation (layout cols) cols).
    { apply (Permutation_count_occ string_dec). intros col.
      rewrite count_layout, groups_count, Hcount.
      destruct (in_dec string_dec col cols) as [Hin|Hout]; [|reflexivity].
      rewrite (Hall col Hin). reflexivity. }
    assert (Hd : has_duplicate (layout cols) = false).
    { apply has_duplicate_NoDup. apply (Permutation_NoDup (Permutation_sym Hperm) Hnd). }
    rewrite Hd. exists sub. split; [reflexivity|]. split.
    + apply NoDup_Permutation_bis.
      * apply (NoDup_map_inv fst). rewrite Esub.
        apply (Permutation_NoDup (Permutation_sym Hperm) Hnd).
      * rewrite <- (length_map fst sub), Esub, (Permutation_length Hperm).
        unfold cols, columns. now rewrite length_map.
      * exact Hsub.
    + exists (sorted_by_lower (filter (in_group filepath_names) cols)),
             (sorted_by_lower (filter (in_group time_names) cols)),
             (sorted_by_lower (filter (in_group price_names) cols)),
             (sorted_by_lower (filter (in_group other_names) cols)).
      split; [exact Esub|].
      assert (Hblock : forall g,
                Sorted lower_le (sorted_by_lower (filter (in_group g) cols)) /\
                forall col, In col (sorted_by_lower (filter (in_group g) cols)) <->
                            In col cols /\ in_group g col = true).
      { intros g. split; [apply sorted_by_lower_sorted|]. intros col.
        rewrite <- filter_In. split; apply Permutation_in;
          [apply sorted_by_lower_perm| symmetry; apply sorted_by_lower_perm]. }
      constructor; [apply Hblock|]. constructor; [apply Hblock|].
      constructor; [apply Hblock|]. constructor; [apply Hblock|]. constructor.
Qed.

End ReadableFacts.

(** ** The further theorems on the concrete runs *)

(** X2, witness: the covered entry of the first run has a forecast at its
    issuance hour whose horizon is the only hour of its file, so the
    matcher does not raise the error. *)
Lemma no_overlap_is_fatal_witness :
  forecasts_for_auction forecast_df entry_covered <> [] /\
  match_entry read_excel forecast_df entry_covered
  <> inl (NoRelevantForecasts entry_covered).
Proof.
  assert (H : forecasts_for_auction forecast_df entry_covered <> [])
    by (vm_compute; discriminate).
  split; [exact H|]. intros E.
  pose proof (proj1 (proj1 (no_overlap_is_fatal read_excel forecast_df
                              entry_covered H)) E) as W.
  destruct (forecasts_for_auction forecast_df entry_covered) as [|r l] eqn:Ef;
    [congruence|].
  apply (W r (or_introl eq_refl)).
  vm_compute in Ef. injection Ef as <- _. vm_compute. split; discriminate.
Defined.

(** X6, witness: the DK1 table and the DK2 table of the first run merge
    into a table ordered by [Time] with one row at the first hour. *)
Lemma merge_output_order_and_counts_witness :
  exists out,
    merge_forecast_and_auction_dataframes [table_DK1; table_DK2] = inr out /\
    Sorted Z.le (map m_Time out) /\
    List.length (filter_eq m_Time first_hour out) = 1%nat.
Proof.
  destruct (merge_forecast_and_auction_dataframes [table_DK1; table_DK2])
    as [err|out] eqn:E; [vm_compute in E; discriminate E|].
  exists out. split; [reflexivity|].
  destruct (merge_output_order_and_counts [table_DK1; table_DK2] out E) as [Hs Hc].
  split; [exact Hs|]. rewrite Hc. reflexivity.
Defined.

(** X7, witness: merged with the second DK2 table between them, the
    tables keep the DK1 price 5 and the DK2 prices 8 and 7, in this order. *)
Lemma merge_keeps_every_price_witness :
  exists out,
    merge_forecast_and_auction_dataframes [table_DK1; table_DK2_first; table_DK2]
    = inr out /\
    non_null_values (map Auction_Price_DK1 (filter_eq m_Time first_hour out))
    = [Qc_of_Z 5] /\
    non_null_values (map Auction_Price_DK2 (filter_eq m_Time first_hour out))
    = [Qc_of_Z 8; Qc_of_Z 7].
Proof.
  destruct (merge_forecast_and_auction_dataframes
              [table_DK1; table_DK2_first; table_DK2])
    as [err|out] eqn:E; [vm_compute in E; discriminate E|].
  exists out. split; [reflexivity|].
  destruct (merge_keeps_every_price [table_DK1; table_DK2_first; table_DK2] out E
              first_hour) as [H1 H2].
  split; [rewrite H1| rewrite H2]; reflexivity.
Defined.

(** X8, witness: of the three rows at the first hour the merger keeps the
    first two, those of the DK1 table and of the first DK2 table. *)
Lemma merge_keeps_leading_rows_witness :
  exists out,
    merge_forecast_and_auction_dataframes [table_DK1; table_DK2_first; table_DK2]
    = inr out /\
    map m_Auction_Filepath (filter_eq m_Time first_hour out)
    = ["DK1_IDA1.xlsx"; "DK2_IDA1.xlsx"]%string.
Proof.
  destruct (merge_forecast_and_auction_dataframes
              [table_DK1; table_DK2_first; table_DK2])
    as [err|out] eqn:E; [vm_compute in E; discriminate E|].
  exists out. split; [reflexivity|].
  pose proof (merge_keeps_leading_rows [table_DK1; table_DK2_first; table_DK2] out E
                first_hour) as H.
  transitivity (map (fun c : ForecastRow * IDAGroup * Region * string => snd c)
                  (map untouched_columns (filter_eq m_Time first_hour out))).
  - rewrite map_map. reflexivity.
  - rewrite H. reflexivity.
Defined.

(** X9, witness: of the three lines of the forecast file, whose columns
    are all text, the loader keeps the one without [NA]. *)
Lemma loader_returns_sorted_clean_rows_witness :
  exists df,
    read_forecast_df FullRun.isfile FullRun.read_csv FullRun.strptime
      FullRun.cast_float (Some "forecast.csv"%string) true = inr df /\
    Sorted Z.le (map PTime df) /\ List.length df = 1%nat.
Proof.
  destruct (read_forecast_df FullRun.isfile FullRun.read_csv FullRun.strptime
              FullRun.cast_float (Some "forecast.csv"%string) true)
    as [err|df] eqn:E; [vm_compute in E; discriminate E|].
  exists df. split; [reflexivity|].
  destruct (loader_returns_sorted_clean_rows FullRun.isfile FullRun.read_csv
              FullRun.strptime FullRun.cast_float _ _ df E)
    as (path & lines & Ep & _ & _ & Hc & Hs & Hl & _).
  split; [exact Hs|]. rewrite Hl. injection Ep as <-.
  vm_compute in Hc. injection Hc as <-. reflexivity.
Defined.

(** X13, witness: a single row that forecasts the DK1 auction price 1 as 1. *)
Lemma perfect_forecast_scores_zero_witness :
  MAE (fst (compute_forecast_metrics [metric_row 1 1])) = Some (Q2Qc 0).
Proof.
  refine (proj1 (perfect_forecast_scores_zero DK1 [metric_row 1 1] _ _)).
  - apply Exists_cons_hd. discriminate.
  - constructor; [right; reflexivity| constructor].
Defined.

(** The comparison returns on the second run. *)
Lemma full_run_returns :
  exists out metrics,
    compute_performance_score read_excel forecast_df FullRun.catalog_both
    = inr (out, metrics).
Proof.
  destruct (compute_performance_score read_excel forecast_df FullRun.catalog_both)
    as [err|[out metrics]] eqn:E; [|eauto].
  exfalso. unfold compute_performance_score in E.
  destruct (match_auction_with_forecast read_excel forecast_df FullRun.catalog_both)
    as [e|tables] eqn:Em; [vm_compute in Em; discriminate Em|].
  vm_compute in Em. injection Em as <-.
  match type of E with
  | context [merge_forecast_and_auction_dataframes ?t] =>
      destruct (merge_forecast_and_auction_dataframes t) as [e|merged] eqn:Eg
  end; [vm_compute in Eg; discriminate Eg| discriminate E].
Defined.

(** With a DK1 file for one day and a DK2 file for the day after, files of
    both regions are processed, yet the comparison raises: the group of the
    first day has no DK2 price, and the group of the second day does not
    stack on it. *)
Lemma score_raises_on_days_apart :
  has_region DK1 (entries_to_process FullRun.forecast_two_days
                    FullRun.catalog_days_apart) = true /\
  has_region DK2 (entries_to_process FullRun.forecast_two_days
                    FullRun.catalog_days_apart) = true /\
  compute_performance_score read_excel FullRun.forecast_two_days
    FullRun.catalog_days_apart
  = inl (MergeRaised SchemaError).
Proof. repeat split; vm_compute; reflexivity. Qed.

(** X15, witness: on the second run every auction price of the returned
    table is an hourly price of a file of the catalog. *)
Lemma score_prices_come_from_auction_files_witness :
  exists out metrics,
    compute_performance_score read_excel forecast_df FullRun.catalog_both
    = inr (out, metrics) /\
    forall r reg p,
      In r out -> region_auction reg (s_merged r) = Some p ->
      exists e, In e FullRun.catalog_both /\ entry_Region e = reg /\
        In {| Start_Time := m_Time (s_merged r); Area_Price_Hour := p |}
           (hourly_rows (read_single_auction_file read_excel (filepath e)
                           (IDA_Group e) (delivery_date e) reg)).
Proof.
  destruct full_run_returns as (out & metrics & E).
  exists out, metrics. split; [exact E|]. intros r reg p Hr Hp.
  destruct (score_prices_come_from_auction_files read_excel forecast_df
              FullRun.catalog_both out metrics E r reg p Hr Hp)
    as (e & f & He & Hreg & _ & _ & _ & Hfile).
  exists e. auto.
Defined.

(** X16, witness: on the second run the printed DK1 MAE is the mean of the
    absolute DK1 price differences of the returned table. *)
Lemma score_metrics_match_price_diffs_witness :
  exists out metrics,
    compute_performance_score read_excel forecast_df FullRun.catalog_both
    = inr (out, metrics) /\
    MAE (fst metrics)
    = mean (map Qc_abs (non_null_values (map Price_Diff_DK1 out))).
Proof.
  destruct full_run_returns as (out & metrics & E).
  exists out, metrics. split; [exact E|].
  exact (proj1 (proj2 (score_metrics_match_price_diffs read_excel forecast_df
                         FullRun.catalog_both out metrics E) DK1)).
Defined.

(** X18, witness: the search of the auction directory of the second run,
    sub-directories included. *)
Lemma search_files_finds_files_by_suffix_witness :
  exists files,
    search_files FullRun.path_exists FullRun.scandir FullRun.image_datasets_path
      FullRun.basename FullRun.natsorted
      [FullRun.auction_dir] [".csv"; "xlsx"]%string true false false false
    = inr files /\
    forall path,
      In path files <->
      exists name,
        accepted (normalise_extensions [".csv"; "xlsx"]%string) name /\
        file_below FullRun.auction_dir FullRun.tree path name.
Proof.
  exact (search_files_finds_files_by_suffix FullRun.path_exists FullRun.scandir
           FullRun.image_datasets_path FullRun.basename FullRun.natsorted
           FullRun.auction_dir FullRun.tree [".csv"; "xlsx"]%string true
           eq_refl eq_refl).
Defined.

(** X21, witness: a file name without a date. *)
Lemma no_date_below_eight_digits_witness :
  datetime_from_string FullRun.strptime_format "DK1_IDA1.xlsx"
  = inr (None, "DK1_IDA1.xlsx"%string).
Proof.
  apply no_date_below_eight_digits. vm_compute. repeat constructor.
Defined.

(** X22, witness: the catalog of the auction directory of the second run
    holds its two spreadsheets. *)
Lemma catalog_lists_dated_files_witness :
  exists cat,
    read_auction_files FullRun.path_exists FullRun.scandir
      FullRun.image_datasets_path FullRun.basename FullRun.natsorted
      FullRun.strptime_format FullRun.auction_dir = inr cat /\
    Sorted Z.le (map delivery_date cat) /\
    forall e, In e cat -> delivery_date e = filepath_written_date e + 1.
Proof.
  destruct (read_auction_files FullRun.path_exists FullRun.scandir
              FullRun.image_datasets_path FullRun.basename FullRun.natsorted
              FullRun.strptime_format FullRun.auction_dir)
    as [err|cat] eqn:E; [vm_compute in E; discriminate E|].
  exists cat. split; [reflexivity|].
  destruct (catalog_lists_dated_files FullRun.path_exists FullRun.scandir
              FullRun.image_datasets_path FullRun.basename FullRun.natsorted
              FullRun.strptime_format FullRun.auction_dir cat E)
    as (files & Hf & _ & Hs & He).
  split; [exact Hs|]. intros e Hin. destruct (He e Hin) as (Hp & _ & Hd).
  rewrite Hd. f_equal.
  vm_compute in Hf. injection Hf as <-.
  destruct Hp as [<-|[<-|[]]]; reflexivity.
Defined.

(** X24, witness: the columns of the saved table are only reordered. *)
Lemma readable_reorders_or_raises_witness :
  exists out,
    make_df_more_readable nat FullRun.saved_table = inr out /\
    Permutation out FullRun.saved_table.
Proof.
  assert (Hnd : NoDup (columns nat FullRun.saved_table))
    by (apply has_duplicate_NoDup; reflexivity).
  destruct (proj2 (readable_reorders_or_raises nat FullRun.saved_table Hnd))
    as (out & E & Hp & _).
  - intros col Hcol. vm_compute in Hcol.
    repeat (destruct Hcol as [<-|Hcol]; [reflexivity|]). destruct Hcol.
  - exists out. auto.
Defined.
